(** * neo4go: schema migrations for a graph database

    A shallow embedding of the migration engine (parser.go, migrator.go,
    migrate.go, ports.go, errors.go and the test double of test_helpers.go)
    together with the properties of its specification.

    Conventions.
    - A Go [string] is a sequence of bytes: Rocq's [string].
    - A Go [int] is a 64-bit signed integer, embedded in [Z]; the engine only
      compares versions, so no arithmetic can wrap.
    - A Go [error] is [option error], [None] being [nil].
    - Calls to collaborators (storage, logger, transaction) are recorded, in
      order, in a list of [event]s returned next to the result. *)

From Stdlib Require Import ZArith Lia List Ascii String DecimalString.
From stdpp Require Import base gmap strings list sorting.

Local Open Scope Z_scope.

(** ** The pieces of the Go standard library the engine relies on *)

(** [strconv.Itoa], as used by the [%d] verb of [fmt.Errorf]. *)
Definition itoa (z : Z) : string := NilZero.string_of_int (Z.to_int z).

Definition byte_of (c : ascii) : Z := Z.of_N (N_of_ascii c).

(** [strings.HasPrefix]. *)
Fixpoint HasPrefix (s prefix : string) : bool :=
  match prefix, s with
  | EmptyString, _ => true
  | String p prefix', String c s' => Ascii.eqb p c && HasPrefix s' prefix'
  | String _ _, EmptyString => false
  end.

(** [strings.Split] with a one-byte separator: the pieces between the
    separators, at least one piece. *)
Fixpoint Split_from (sep : ascii) (cur : string) (s : string) : list string :=
  match s with
  | EmptyString => [cur]
  | String c s' =>
      if Ascii.eqb c sep then cur :: Split_from sep EmptyString s'
      else Split_from sep (cur +:+ String c EmptyString) s'
  end.

Definition Split (s : string) (sep : ascii) : list string :=
  Split_from sep EmptyString s.

(** [unicode.IsSpace] on the UTF-8 encodings of the white space runes:
    one byte (TAB, LF, VT, FF, CR, SPACE), two bytes (U+0085, U+00A0), three
    bytes (U+1680, U+2000..U+200A, U+2028, U+2029, U+202F, U+205F, U+3000). *)
Definition isSpace1 (b : Z) : bool :=
  ((9 <=? b) && (b <=? 13)) || (b =? 32).

Definition isSpace2 (b1 b2 : Z) : bool :=
  (b1 =? 194) && ((b2 =? 133) || (b2 =? 160)).

Definition isSpace3 (b1 b2 b3 : Z) : bool :=
  ((b1 =? 225) && (b2 =? 154) && (b3 =? 128))
  || ((b1 =? 226) && (b2 =? 128)
      && (((128 <=? b3) && (b3 <=? 138)) || (b3 =? 168) || (b3 =? 169) || (b3 =? 175)))
  || ((b1 =? 226) && (b2 =? 129) && (b3 =? 159))
  || ((b1 =? 227) && (b2 =? 128) && (b3 =? 128)).

(** [strings.TrimLeftFunc s unicode.IsSpace]: runes are decoded from the
    front; a byte sequence decodes to a white space rune exactly when it is
    that rune's encoding. *)
Fixpoint trimLeftSpace (s : list Z) : list Z :=
  match s with
  | [] => []
  | b1 :: s1 =>
      if isSpace1 b1 then trimLeftSpace s1 else
      match s1 with
      | [] => s
      | b2 :: s2 =>
          if isSpace2 b1 b2 then trimLeftSpace s2 else
          match s2 with
          | [] => s
          | b3 :: s3 => if isSpace3 b1 b2 b3 then trimLeftSpace s3 else s
          end
      end
  end.

(** [strings.TrimRightFunc s unicode.IsSpace], on the reversed byte
    sequence: [utf8.DecodeLastRuneInString] steps back to the nearest rune
    start and decodes from there, so the last rune is a white space exactly
    when the string ends with its encoding. *)
Fixpoint trimRightSpace_rev (r : list Z) : list Z :=
  match r with
  | [] => []
  | b1 :: r1 =>
      if isSpace1 b1 then trimRightSpace_rev r1 else
      match r1 with
      | [] => r
      | b2 :: r2 =>
          if isSpace2 b2 b1 then trimRightSpace_rev r2 else
          match r2 with
          | [] => r
          | b3 :: r3 => if isSpace3 b3 b2 b1 then trimRightSpace_rev r3 else r
          end
      end
  end.

Definition bytes_of_string (s : string) : list Z :=
  map byte_of (list_ascii_of_string s).

Definition string_of_bytes (l : list Z) : string :=
  string_of_list_ascii (map (fun b => ascii_of_N (Z.to_N b)) l).

(** [strings.TrimSpace]. *)
Definition TrimSpace (s : string) : string :=
  string_of_bytes
    (rev (trimRightSpace_rev (rev (trimLeftSpace (bytes_of_string s))))).

Definition isDigit (c : ascii) : bool :=
  (48 <=? byte_of c) && (byte_of c <=? 57).

(** The largest Go [int] (64-bit platforms). *)
Definition maxInt : Z := 9223372036854775807.

Fixpoint digitsValue (acc : Z) (s : string) : Z :=
  match s with
  | EmptyString => acc
  | String c s' => digitsValue (10 * acc + (byte_of c - 48)) s'
  end.

(** [strconv.Atoi] on a non-empty string of decimal digits (all the pattern
    lets through): the value, or a range error ([None]) above [maxInt]. *)
Definition Atoi (digits : string) : option Z :=
  let v := digitsValue 0 digits in
  if v <=? maxInt then Some v else None.

(** [bufio.MaxScanTokenSize]. *)
Definition MaxScanTokenSize : Z := 65536.

(** The pieces of [s] between line feeds; a final empty piece yields no
    token. *)
Fixpoint rawLines_from (cur : string) (s : string) : list string :=
  match s with
  | EmptyString => match cur with EmptyString => [] | _ => [cur] end
  | String c s' =>
      if Ascii.eqb c "010" then cur :: rawLines_from EmptyString s'
      else rawLines_from (cur +:+ String c EmptyString) s'
  end.

Definition rawLines (s : string) : list string := rawLines_from EmptyString s.

(** [dropCR] of bufio: one trailing carriage return is removed. *)
Fixpoint dropCR (line : string) : string :=
  match line with
  | EmptyString => EmptyString
  | String c EmptyString => if Ascii.eqb c "013" then EmptyString else line
  | String c rest => String c (dropCR rest)
  end.

(** ** errors.go *)

(** The sentinel errors of the package, the errors of collaborators
    ([errorsNew], compared by their text) and the result of
    [fmt.Errorf (pre ++ "%w" ++ post)] with the rest of the format already
    rendered. *)
Inductive error : Type :=
| ErrNoMigrations
| ErrInvalidVersion
| ErrMigrationNotFound
| ErrNoUpStatement
| ErrNoDownStatement
| ErrInvalidConfig
| ErrDatabaseConnection
| ErrTransactionFailed
| errorsNew (text : string)
| Errorf (pre : string) (wrapped : error) (post : string).

#[global] Instance error_eq_dec : EqDecision error.
Proof. solve_decision. Defined.

(** The [Error()] text. *)
Fixpoint Error (e : error) : string :=
  match e with
  | ErrNoMigrations => "no migrations found"
  | ErrInvalidVersion => "invalid version number"
  | ErrMigrationNotFound => "migration not found"
  | ErrNoUpStatement => "migration missing up statement"
  | ErrNoDownStatement => "migration missing down statement"
  | ErrInvalidConfig => "invalid configuration"
  | ErrDatabaseConnection => "database connection error"
  | ErrTransactionFailed => "transaction failed"
  | errorsNew text => text
  | Errorf pre wrapped post => pre +:+ Error wrapped +:+ post
  end.

(** [errors.Is]: the error itself or one it wraps. *)
Fixpoint errors_Is (e target : error) : bool :=
  if decide (e = target) then true
  else match e with
       | Errorf _ wrapped _ => errors_Is wrapped target
       | _ => false
       end.

(** [bufio.ErrTooLong]. *)
Definition ErrTooLong : error := errorsNew "bufio.Scanner: token too long".

(** ** The data model *)

(** [time.Time], as a number of ticks. *)
Definition Time : Type := Z.

Module Migration.
Record t : Type := mk
  { Version : Z; Name : string; UpSQL : string; DownSQL : string;
    Checksum : string }.
End Migration.
Abbreviation Migration := Migration.t.

Module MigrationStatus.
Record t : Type := mk
  { Version : Z; Name : string; Applied : bool; AppliedAt : option Time;
    Checksum : string }.
End MigrationStatus.
Abbreviation MigrationStatus := MigrationStatus.t.

Module MigrationRecord.
Record t : Type := mk
  { Version : Z; Name : string; AppliedAt : Time; Checksum : string }.
End MigrationRecord.
Abbreviation MigrationRecord := MigrationRecord.t.

#[global] Instance Migration_eq_dec : EqDecision Migration.
Proof. solve_decision. Defined.

#[global] Instance MigrationRecord_eq_dec : EqDecision MigrationRecord.
Proof. solve_decision. Defined.

(** ** parser.go *)

Definition upMarker : string := "-- +neo4go Up".
Definition downMarker : string := "-- +neo4go Down".

(** The file system collaborator ([fs.FS]): [fs.ReadDir] gives the entries
    of a directory (sorted by file name, by its contract) or an error;
    opening and reading a file gives its bytes, or fails at either step. *)
Module DirEntry.
Record t : Type := mk { Name : string; IsDir : bool }.
End DirEntry.
Abbreviation DirEntry := DirEntry.t.

Inductive fileResult : Type :=
| OpenFails (err : error)
| ReadAllFails (err : error)
| FileBytes (content : string).

Record FS : Type := mkFS
  { ReadDir : string -> list DirEntry * option error;
    OpenRead : string -> fileResult }.

(** What the parser takes from Go's library and is left abstract:
    [filepath.Join], the hexadecimal SHA-256 digest, and [sort.Slice], of
    which only the contract is used (the result is a rearrangement of the
    slice in which no element is [less] than one before it). *)
Class GoLib : Type := mkGoLib
  { filepath_Join : string -> string -> string;
    sha256_hex : string -> string;
    sort_Slice : (Migration -> Migration -> bool) -> list Migration -> list Migration }.

Definition versionLess (a b : Migration) : bool :=
  Migration.Version a <? Migration.Version b.

Definition ascending (a b : Migration) : Prop :=
  Migration.Version a <= Migration.Version b.

Definition strictlyAscending (a b : Migration) : Prop :=
  Migration.Version a < Migration.Version b.

Class GoLibContract (G : GoLib) : Prop := mkGoLibContract
  { sort_Slice_Permutation : forall l, Permutation (sort_Slice versionLess l) l;
    sort_Slice_Sorted : forall l, Sorted ascending (sort_Slice versionLess l) }.

(** [migrationFilePattern.FindStringSubmatch] for
    [^(\d+)_(.+)\.cypher$]: the leading run of ASCII digits (not empty),
    an underscore, and a non-empty rest without line feed ([.] matches no
    line feed) that ends the name with [.cypher]. *)
Fixpoint spanDigits (s : string) : string * string :=
  match s with
  | EmptyString => (EmptyString, EmptyString)
  | String c s' =>
      if isDigit c then
        let '(ds, rest) := spanDigits s' in (String c ds, rest)
      else (EmptyString, s)
  end.

Fixpoint hasLineFeed (s : string) : bool :=
  match s with
  | EmptyString => false
  | String c s' => Ascii.eqb c "010" || hasLineFeed s'
  end.

(** [Some body] when [s = body ++ suffix]. *)
Fixpoint stripSuffix (suffix s : string) : option string :=
  if String.eqb s suffix then Some EmptyString
  else match s with
       | EmptyString => None
       | String c s' =>
           match stripSuffix suffix s' with
           | Some body => Some (String c body)
           | None => None
           end
       end.

Definition FindStringSubmatch (name : string) : option (string * string) :=
  let '(digits, rest) := spanDigits name in
  match digits, rest with
  | String _ _, String "_" tail =>
      match stripSuffix ".cypher" tail with
      | Some (String c body) =>
          if hasLineFeed tail then None else Some (digits, String c body)
      | _ => None
      end
  | _, _ => None
  end.

(** The [bufio.Scanner] over the content with the default line splitter:
    the tokens it delivers and the error it ends with. A line of
    [MaxScanTokenSize] bytes or more does not fit its buffer and ends the
    scan with [ErrTooLong]. *)
Fixpoint scanTokens (raw : list string) : list string * option error :=
  match raw with
  | [] => ([], None)
  | line :: rest =>
      if MaxScanTokenSize <=? Z.of_nat (String.length line) then ([], Some ErrTooLong)
      else let '(tokens, err) := scanTokens rest in (dropCR line :: tokens, err)
  end.

(** [currentSection]: [""], ["up"] or ["down"]. *)
Inductive section : Type := noSection | upSection | downSection.

(** The loop of [splitUpDown] over the scanned lines, with the two
    [strings.Builder]s and the current section as its state. *)
Fixpoint splitLoop (lines : list string) (upSQL downSQL : string)
    (currentSection : section) : string * string :=
  match lines with
  | [] => (upSQL, downSQL)
  | line :: rest =>
      if HasPrefix line upMarker then splitLoop rest upSQL downSQL upSection
      else if HasPrefix line downMarker then splitLoop rest upSQL downSQL downSection
      else match currentSection with
           | upSection =>
               splitLoop rest (upSQL +:+ line +:+ String "010" EmptyString) downSQL currentSection
           | downSection =>
               splitLoop rest upSQL (downSQL +:+ line +:+ String "010" EmptyString) currentSection
           | noSection => splitLoop rest upSQL downSQL currentSection
           end
  end.

Definition splitUpDown (content : string) : string * string * option error :=
  let '(lines, scanErr) := scanTokens (rawLines content) in
  let '(upSQL, downSQL) := splitLoop lines EmptyString EmptyString noSection in
  match scanErr with
  | Some err => (EmptyString, EmptyString, Some (Errorf "failed to scan file: " err ""))
  | None =>
      let upStr := TrimSpace upSQL in
      let downStr := TrimSpace downSQL in
      if String.eqb upStr "" then (EmptyString, EmptyString, Some ErrNoUpStatement)
      else if String.eqb downStr "" then (EmptyString, EmptyString, Some ErrNoDownStatement)
      else (upStr, downStr, None)
  end.

Definition emptyMigration : Migration := Migration.mk 0 "" "" "" "".

Section Parser.
Context {G : GoLib}.

Definition calculateChecksum (content : string) : string := sha256_hex content.

Definition parseMigrationFile (fsys : FS) (filePath : string) (version : Z)
    (name : string) : Migration * option error :=
  match OpenRead fsys filePath with
  | OpenFails err => (emptyMigration, Some (Errorf "failed to open file: " err ""))
  | ReadAllFails err => (emptyMigration, Some (Errorf "failed to read file: " err ""))
  | FileBytes content =>
      match splitUpDown content with
      | (_, _, Some err) => (emptyMigration, Some err)
      | (upSQL, downSQL, None) =>
          let checksum := calculateChecksum content in
          (Migration.mk version name upSQL downSQL checksum, None)
      end
  end.

(** The loop of [parseMigrations] over the directory entries. *)
Fixpoint parseEntries (fsys : FS) (dir : string) (entries : list DirEntry)
    (migrations : list Migration) : list Migration * option error :=
  match entries with
  | [] => (migrations, None)
  | entry :: rest =>
      if DirEntry.IsDir entry then parseEntries fsys dir rest migrations
      else match FindStringSubmatch (DirEntry.Name entry) with
           | None => parseEntries fsys dir rest migrations
           | Some (digits, name) =>
               match Atoi digits with
               | None => parseEntries fsys dir rest migrations
               | Some version =>
                   let filePath := filepath_Join dir (DirEntry.Name entry) in
                   match parseMigrationFile fsys filePath version name with
                   | (_, Some err) =>
                       ([], Some (Errorf ("failed to parse migration "
                                          +:+ DirEntry.Name entry +:+ ": ") err ""))
                   | (migration, None) =>
                       parseEntries fsys dir rest (migrations ++ [migration])
                   end
               end
           end
  end.

Definition parseMigrations (fsys : FS) (dir : string) : list Migration * option error :=
  match ReadDir fsys dir with
  | (_, Some err) => ([], Some (Errorf "failed to read migrations directory: " err ""))
  | (entries, None) =>
      match parseEntries fsys dir entries [] with
      | (_, Some err) => ([], Some err)
      | (migrations, None) =>
          if (length migrations =? 0)%nat then ([], Some ErrNoMigrations)
          else (sort_Slice versionLess migrations, None)
      end
  end.
End Parser.

(** ** ports.go: the collaborators *)

(** The [Storage] interface over a store of type [St]: every method takes
    the store and gives its results and the store it leaves. *)
Record Storage (St : Type) : Type := mkStorage
  { Init : St -> option error * St;
    GetAppliedMigrations : St -> list MigrationRecord * option error * St;
    RecordMigration : Migration -> St -> option error * St;
    RemoveMigration : Z -> St -> option error * St;
    GetCurrentVersion : St -> Z * option error * St;
    Close : St -> option error * St }.

Arguments Init {St}.
Arguments GetAppliedMigrations {St}.
Arguments RecordMigration {St}.
Arguments RemoveMigration {St}.
Arguments GetCurrentVersion {St}.
Arguments Close {St}.

(** The database behind the driver, of type [DB]: [Run] is [tx.Run] of a
    statement against a named database, inside a transaction. *)
Record Driver (DB : Type) : Type := mkDriver
  { Run : string -> string -> DB -> option error * DB }.

Arguments Run {DB}.

(** The [Logger] interface: the calls are recorded as events. *)
Inductive level : Type := Debug | Info | Warn | ErrorLevel.

Inductive logArg : Type :=
| argInt (z : Z)
| argStr (s : string).

(** The calls the orchestrator makes to its collaborators. [Executing] is
    the one entry that is no call: it marks the entry into
    [executeMigration] with a script, also when no driver is there to run
    it. *)
Inductive event : Type :=
| StorageInit
| StorageGetAppliedMigrations
| StorageRecordMigration (migration : Migration)
| StorageRemoveMigration (version : Z)
| StorageGetCurrentVersion
| StorageClose
| Executing (sql : string)
| TxRun (database : string) (statement : string)
| Log (lvl : level) (msg : string) (args : list logArg).

#[global] Instance logArg_eq_dec : EqDecision logArg.
Proof. solve_decision. Defined.

#[global] Instance level_eq_dec : EqDecision level.
Proof. solve_decision. Defined.

#[global] Instance event_eq_dec : EqDecision event.
Proof. solve_decision. Defined.

(** ** migrator.go *)

Section Orchestrator.
Context {St DB : Type}.

(** The state the collaborators hold. *)
Record world : Type := World { store : St; db : DB }.

(** A computation: a result, the world it leaves and the calls it made. *)
Definition M (A : Type) : Type := world -> A * world * list event.

Definition ret {A : Type} (a : A) : M A := fun w => (a, w, []).

Definition bind {A B : Type} (c : M A) (k : A -> M B) : M B :=
  fun w =>
    let '(a, w1, ev1) := c w in
    let '(b, w2, ev2) := k a w1 in
    (b, w2, ev1 ++ ev2).

Record migrator : Type := mkMigrator
  { driver : option (Driver DB);
    storage : Storage St;
    migrations : list Migration;
    database : string }.
End Orchestrator.

Arguments world : clear implicits.
Arguments M : clear implicits.
Arguments migrator : clear implicits.

Notation "x <- c ;; k" := (bind c (fun x => k))
  (at level 20, c at level 99, k at level 200, right associativity).
Notation "c ;; k" := (bind c (fun _ => k))
  (at level 100, k at level 200, right associativity).

Section Operations.
Context {St DB : Type} (m : migrator St DB).

Definition emit (e : event) : M St DB unit := fun w => (tt, w, [e]).

Definition logger (lvl : level) (msg : string) (args : list logArg) : M St DB unit :=
  emit (Log lvl msg args).

Definition migrationArgs (version : Z) (name : string) : list logArg :=
  [argStr "version"; argInt version; argStr "name"; argStr name].

Definition storage_Init : M St DB (option error) :=
  fun w => let '(err, s) := Init (storage m) (store w) in
           (err, World s (db w), [StorageInit]).

Definition storage_GetAppliedMigrations : M St DB (list MigrationRecord * option error) :=
  fun w => let '(records, err, s) := GetAppliedMigrations (storage m) (store w) in
           ((records, err), World s (db w), [StorageGetAppliedMigrations]).

Definition storage_RecordMigration (migration : Migration) : M St DB (option error) :=
  fun w => let '(err, s) := RecordMigration (storage m) migration (store w) in
           (err, World s (db w), [StorageRecordMigration migration]).

Definition storage_RemoveMigration (version : Z) : M St DB (option error) :=
  fun w => let '(err, s) := RemoveMigration (storage m) version (store w) in
           (err, World s (db w), [StorageRemoveMigration version]).

Definition storage_GetCurrentVersion : M St DB (Z * option error) :=
  fun w => let '(version, err, s) := GetCurrentVersion (storage m) (store w) in
           ((version, err), World s (db w), [StorageGetCurrentVersion]).

Definition storage_Close : M St DB (option error) :=
  fun w => let '(err, s) := Close (storage m) (store w) in
           (err, World s (db w), [StorageClose]).

Definition tx_Run (d : Driver DB) (statement : string) : M St DB (option error) :=
  fun w => let '(err, database') := Run d (database m) statement (db w) in
           (err, World (store w) database', [TxRun (database m) statement]).

Definition splitStatements (sql : string) : list string := Split sql ";".

(** The function handed to [session.ExecuteWrite]. *)
Fixpoint runStatements (d : Driver DB) (statements : list string) : M St DB (option error) :=
  match statements with
  | [] => ret None
  | stmt :: rest =>
      let stmt := TrimSpace stmt in
      if String.eqb stmt "" then runStatements d rest
      else
        logger Debug "executing statement" [argStr "statement"; argStr stmt] ;;
        err <- tx_Run d stmt ;;
        match err with
        | Some err =>
            ret (Some (Errorf "" ErrTransactionFailed (": " +:+ Error err)))
        | None => runStatements d rest
        end
  end.

(** [session.ExecuteWrite]: the work runs in one transaction, committed
    when it returns no error and rolled back, the database left as it was,
    when it returns one. *)
Definition ExecuteWrite (work : M St DB (option error)) : M St DB (option error) :=
  fun w =>
    let '(err, w', ev) := work w in
    match err with
    | None => (None, w', ev)
    | Some _ => (err, World (store w') (db w), ev)
    end.

Definition executeMigration (sql : string) : M St DB (option error) :=
  emit (Executing sql) ;;
  match driver m with
  | None => ret None
  | Some d =>
      let statements := splitStatements sql in
      ExecuteWrite (runStatements d statements)
  end.

(** [appliedVersions]: the [map[int]bool] built from the applied records;
    a missing key reads as [false]. *)
Definition appliedVersionsOf (applied : list MigrationRecord) : gmap Z bool :=
  foldl (fun versions record => <[MigrationRecord.Version record := true]> versions) ∅ applied.

Definition isApplied (appliedVersions : gmap Z bool) (version : Z) : bool :=
  default false (appliedVersions !! version).

(** The body of the loops of [Up] and [UpTo] for a migration that is not
    applied yet (the source repeats it in both). *)
Definition applyMigration (migration : Migration) : M St DB (option error) :=
  logger Info "applying migration"
    (migrationArgs (Migration.Version migration) (Migration.Name migration)) ;;
  err <- executeMigration (Migration.UpSQL migration) ;;
  match err with
  | Some err =>
      ret (Some (Errorf ("failed to apply migration "
                         +:+ itoa (Migration.Version migration) +:+ ": ") err ""))
  | None =>
      err <- storage_RecordMigration migration ;;
      match err with
      | Some err =>
          ret (Some (Errorf ("failed to record migration "
                             +:+ itoa (Migration.Version migration) +:+ ": ") err ""))
      | None =>
          logger Info "successfully applied migration"
            (migrationArgs (Migration.Version migration) (Migration.Name migration)) ;;
          ret None
      end
  end.

Definition skipMigration (migration : Migration) : M St DB unit :=
  logger Debug "skipping already applied migration"
    (migrationArgs (Migration.Version migration) (Migration.Name migration)).

Fixpoint Up_loop (appliedVersions : gmap Z bool) (ms : list Migration) : M St DB (option error) :=
  match ms with
  | [] => ret None
  | migration :: rest =>
      if isApplied appliedVersions (Migration.Version migration) then
        skipMigration migration ;; Up_loop appliedVersions rest
      else
        err <- applyMigration migration ;;
        match err with
        | Some err => ret (Some err)
        | None => Up_loop appliedVersions rest
        end
  end.

Definition Up : M St DB (option error) :=
  err <- storage_Init ;;
  match err with
  | Some err => ret (Some err)
  | None =>
      r <- storage_GetAppliedMigrations ;;
      let '(applied, err) := r in
      match err with
      | Some err => ret (Some err)
      | None => Up_loop (appliedVersionsOf applied) (migrations m)
      end
  end.

Fixpoint UpTo_loop (targetVersion : Z) (appliedVersions : gmap Z bool)
    (ms : list Migration) : M St DB (option error) :=
  match ms with
  | [] => ret None
  | migration :: rest =>
      if targetVersion <? Migration.Version migration then ret None
      else if isApplied appliedVersions (Migration.Version migration) then
        skipMigration migration ;; UpTo_loop targetVersion appliedVersions rest
      else
        err <- applyMigration migration ;;
        match err with
        | Some err => ret (Some err)
        | None => UpTo_loop targetVersion appliedVersions rest
        end
  end.

Definition UpTo (targetVersion : Z) : M St DB (option error) :=
  err <- storage_Init ;;
  match err with
  | Some err => ret (Some err)
  | None =>
      if targetVersion <? 0 then ret (Some ErrInvalidVersion)
      else
        r <- storage_GetAppliedMigrations ;;
        let '(applied, err) := r in
        match err with
        | Some err => ret (Some err)
        | None => UpTo_loop targetVersion (appliedVersionsOf applied) (migrations m)
        end
  end.

(** The search for the declared migration of a version: the first one in
    declared order. *)
Definition findMigration (version : Z) : option Migration :=
  List.find (fun migration => Migration.Version migration =? version) (migrations m).

(** The rollback of one migration, as [Down] and the loop of [DownTo] do
    it once the declared migration is found. *)
Definition rollbackMigration (targetMigration : Migration) : M St DB (option error) :=
  logger Info "rolling back migration"
    (migrationArgs (Migration.Version targetMigration) (Migration.Name targetMigration)) ;;
  err <- executeMigration (Migration.DownSQL targetMigration) ;;
  match err with
  | Some err =>
      ret (Some (Errorf ("failed to rollback migration "
                         +:+ itoa (Migration.Version targetMigration) +:+ ": ") err ""))
  | None =>
      err <- storage_RemoveMigration (Migration.Version targetMigration) ;;
      match err with
      | Some err =>
          ret (Some (Errorf ("failed to remove migration record "
                             +:+ itoa (Migration.Version targetMigration) +:+ ": ") err ""))
      | None =>
          logger Info "successfully rolled back migration"
            (migrationArgs (Migration.Version targetMigration)
               (Migration.Name targetMigration)) ;;
          ret None
      end
  end.

Definition notFound (version : Z) : error :=
  Errorf "" ErrMigrationNotFound (": version " +:+ itoa version).

Definition Down : M St DB (option error) :=
  err <- storage_Init ;;
  match err with
  | Some err => ret (Some err)
  | None =>
      r <- storage_GetCurrentVersion ;;
      let '(currentVersion, err) := r in
      match err with
      | Some err => ret (Some err)
      | None =>
          if currentVersion =? 0 then
            logger Info "no migrations to rollback" [] ;; ret None
          else
            match findMigration currentVersion with
            | None => ret (Some (notFound currentVersion))
            | Some targetMigration => rollbackMigration targetMigration
            end
      end
  end.

(** The loop of [DownTo]; [records] is the applied slice from its last
    element to its first. *)
Fixpoint DownTo_loop (targetVersion : Z) (records : list MigrationRecord)
    : M St DB (option error) :=
  match records with
  | [] => ret None
  | record :: rest =>
      if MigrationRecord.Version record <=? targetVersion then ret None
      else
        match findMigration (MigrationRecord.Version record) with
        | None => ret (Some (notFound (MigrationRecord.Version record)))
        | Some targetMigration =>
            err <- rollbackMigration targetMigration ;;
            match err with
            | Some err => ret (Some err)
            | None => DownTo_loop targetVersion rest
            end
        end
  end.

Definition DownTo (targetVersion : Z) : M St DB (option error) :=
  err <- storage_Init ;;
  match err with
  | Some err => ret (Some err)
  | None =>
      if targetVersion <? 0 then ret (Some ErrInvalidVersion)
      else
        r <- storage_GetAppliedMigrations ;;
        let '(applied, err) := r in
        match err with
        | Some err => ret (Some err)
        | None => DownTo_loop targetVersion (rev applied)
        end
  end.

(** [appliedMap]: the [map[int]MigrationRecord] of [Status]; a later record
    of a version replaces an earlier one. *)
Definition appliedMapOf (applied : list MigrationRecord) : gmap Z MigrationRecord :=
  foldl (fun records record => <[MigrationRecord.Version record := record]> records) ∅ applied.

Fixpoint Status_loop (appliedMap : gmap Z MigrationRecord) (ms : list Migration)
    (statuses : list MigrationStatus) : M St DB (list MigrationStatus) :=
  match ms with
  | [] => ret statuses
  | migration :: rest =>
      let status :=
        MigrationStatus.mk (Migration.Version migration) (Migration.Name migration)
          false None (Migration.Checksum migration) in
      match appliedMap !! Migration.Version migration with
      | Some record =>
          let status :=
            MigrationStatus.mk (MigrationStatus.Version status) (MigrationStatus.Name status)
              true (Some (MigrationRecord.AppliedAt record)) (MigrationStatus.Checksum status) in
          (if String.eqb (MigrationRecord.Checksum record) (Migration.Checksum migration)
           then ret tt
           else logger Warn "checksum mismatch"
                  (migrationArgs (Migration.Version migration) (Migration.Name migration))) ;;
          Status_loop appliedMap rest (statuses ++ [status])
      | None => Status_loop appliedMap rest (statuses ++ [status])
      end
  end.

Definition Status : M St DB (list MigrationStatus * option error) :=
  err <- storage_Init ;;
  match err with
  | Some err => ret ([], Some err)
  | None =>
      r <- storage_GetAppliedMigrations ;;
      let '(applied, err) := r in
      match err with
      | Some err => ret ([], Some err)
      | None =>
          statuses <- Status_loop (appliedMapOf applied) (migrations m) [] ;;
          ret (statuses, None)
      end
  end.

Definition Version : M St DB (Z * option error) :=
  err <- storage_Init ;;
  match err with
  | Some err => ret (0, Some err)
  | None => storage_GetCurrentVersion
  end.

Definition Close_migrator : M St DB (option error) := storage_Close.
End Operations.

Section Constructor.
Context {G : GoLib} {St DB : Type}.

Definition newMigrator (drv : option (Driver DB)) (sto : Storage St) (filesystem : FS)
    (migrationsDir : string) (databaseName : string)
    : option (migrator St DB) * option error :=
  match parseMigrations filesystem migrationsDir with
  | (_, Some err) => (None, Some err)
  | (parsed, None) => (Some (mkMigrator drv sto parsed databaseName), None)
  end.
End Constructor.

(** ** migrate.go *)

(** [Config]; the [Logger] field only chooses the sink of the log calls and
    is left out. [MigrationsFS] is [None] for a nil file system. *)
Record Config : Type := mkConfig
  { URI : string;
    Username : string;
    Password : string;
    Database : string;
    MigrationsDir : string;
    MigrationsFS : option FS }.

Definition isNil {A : Type} (x : option A) : bool :=
  match x with
  | None => true
  | Some _ => false
  end.

Definition validateConfig (cfg : Config) : option error :=
  if String.eqb (URI cfg) "" then
    Some (Errorf "" ErrInvalidConfig ": URI is required")
  else if String.eqb (Username cfg) "" then
    Some (Errorf "" ErrInvalidConfig ": Username is required")
  else if String.eqb (Password cfg) "" then
    Some (Errorf "" ErrInvalidConfig ": Password is required")
  else if String.eqb (MigrationsDir cfg) "" && isNil (MigrationsFS cfg) then
    Some (Errorf "" ErrInvalidConfig ": either MigrationsDir or MigrationsFS must be provided")
  else None.

(** What [New] and [NewWithDriver] do to the outside. *)
Inductive ioEvent : Type :=
| DriverCreated (uri : string)
| ConnectivityVerified
| DriverClosed
| MigrationsParsed (dir : string).

(** The neo4j side: the creation of a driver, its connectivity check, the
    storage that [newNeo4jStorage] builds on a driver (its methods are
    Cypher queries, behind the [Storage] interface here) and [os.DirFS]. *)
Record Neo4j (St DB : Type) : Type := mkNeo4j
  { NewDriverWithContext : string -> string -> string -> option (Driver DB) * option error;
    VerifyConnectivity : option (Driver DB) -> option error;
    newNeo4jStorage : option (Driver DB) -> string -> Storage St;
    os_DirFS : string -> FS }.

Arguments NewDriverWithContext {St DB}.
Arguments VerifyConnectivity {St DB}.
Arguments newNeo4jStorage {St DB}.
Arguments os_DirFS {St DB}.

Section Construction.
Context {G : GoLib} {St DB : Type} (neo4j : Neo4j St DB).

Definition NewWithDriver (drv : option (Driver DB)) (cfg : Config)
    : option (migrator St DB) * option error * list ioEvent :=
  match validateConfig cfg with
  | Some err => (None, Some err, [])
  | None =>
      let filesystem :=
        match MigrationsFS cfg with
        | Some fsys => fsys
        | None => os_DirFS neo4j (MigrationsDir cfg)
        end in
      let migrationsDir := "." in
      let databaseName := if String.eqb (Database cfg) "" then "neo4j" else Database cfg in
      let sto := newNeo4jStorage neo4j drv databaseName in
      (newMigrator drv sto filesystem migrationsDir databaseName,
       [MigrationsParsed migrationsDir])
  end.

Definition New (cfg : Config) : option (migrator St DB) * option error * list ioEvent :=
  match validateConfig cfg with
  | Some err => (None, Some err, [])
  | None =>
      match NewDriverWithContext neo4j (URI cfg) (Username cfg) (Password cfg) with
      | (_, Some err) =>
          (None, Some (Errorf "" ErrDatabaseConnection (": " +:+ Error err)),
           [DriverCreated (URI cfg)])
      | (drv, None) =>
          match VerifyConnectivity neo4j drv with
          | Some err =>
              (None, Some (Errorf "" ErrDatabaseConnection (": " +:+ Error err)),
               [DriverCreated (URI cfg); ConnectivityVerified; DriverClosed])
          | None =>
              let '(result, io) := NewWithDriver drv cfg in
              (result, [DriverCreated (URI cfg); ConnectivityVerified] ++ io)
          end
      end
  end.
End Construction.

(** ** test_helpers.go: the storage double *)

(** [mockStorage]: a hook, when set, replaces the method; otherwise the
    method works on the [appliedMigrations] map. [clock] is what
    [time.Now()] reads; it ticks at every reading. *)
Record mockStorage : Type := mkMockStorage
  { InitFunc : option (option error);
    GetAppliedFunc : option (list MigrationRecord * option error);
    RecordFunc : option (Migration -> option error);
    RemoveFunc : option (Z -> option error);
    GetVersionFunc : option (Z * option error);
    CloseFunc : option (option error);
    appliedMigrations : gmap Z MigrationRecord;
    clock : Time }.

Definition newMockStorage : mockStorage :=
  mkMockStorage None None None None None None ∅ 0.

Definition setApplied (s : mockStorage) (applied : gmap Z MigrationRecord) (now : Time)
    : mockStorage :=
  mkMockStorage (InitFunc s) (GetAppliedFunc s) (RecordFunc s) (RemoveFunc s)
    (GetVersionFunc s) (CloseFunc s) applied now.

Definition mock_Init (s : mockStorage) : option error * mockStorage :=
  match InitFunc s with
  | Some result => (result, s)
  | None => (None, s)
  end.

(** Without the hook the records come in the iteration order of the map,
    which Go leaves unspecified; here it is the order of [map_to_list]. *)
Definition mock_GetAppliedMigrations (s : mockStorage)
    : list MigrationRecord * option error * mockStorage :=
  match GetAppliedFunc s with
  | Some (records, err) => (records, err, s)
  | None => (map snd (map_to_list (appliedMigrations s)), None, s)
  end.

Definition mock_RecordMigration (migration : Migration) (s : mockStorage)
    : option error * mockStorage :=
  match RecordFunc s with
  | Some hook => (hook migration, s)
  | None =>
      let record :=
        MigrationRecord.mk (Migration.Version migration) (Migration.Name migration)
          (clock s) (Migration.Checksum migration) in
      (None, setApplied s (<[Migration.Version migration := record]> (appliedMigrations s))
               (clock s + 1))
  end.

Definition mock_RemoveMigration (version : Z) (s : mockStorage) : option error * mockStorage :=
  match RemoveFunc s with
  | Some hook => (hook version, s)
  | None => (None, setApplied s (delete version (appliedMigrations s)) (clock s))
  end.

Definition mock_GetCurrentVersion (s : mockStorage) : Z * option error * mockStorage :=
  match GetVersionFunc s with
  | Some (version, err) => (version, err, s)
  | None =>
      (foldl (fun maxVersion version => if maxVersion <? version then version else maxVersion)
         0 (map fst (map_to_list (appliedMigrations s))),
       None, s)
  end.

Definition mock_Close (s : mockStorage) : option error * mockStorage :=
  match CloseFunc s with
  | Some result => (result, s)
  | None => (None, s)
  end.

Definition mockStorage_Storage : Storage mockStorage :=
  mkStorage mockStorage mock_Init mock_GetAppliedMigrations mock_RecordMigration
    mock_RemoveMigration mock_GetCurrentVersion mock_Close.

(** ** [sort.Slice] on short slices

    Up to twelve elements [sort.Slice] is an insertion sort: each element
    moves left past the elements it is [less] than. [sink] does one such
    move on the part already sorted, given from right to left. *)
Fixpoint sink {A : Type} (less : A -> A -> bool) (x : A) (sortedRev : list A) : list A :=
  match sortedRev with
  | [] => [x]
  | y :: r => if less x y then y :: sink less x r else x :: sortedRev
  end.

Definition insertionSort {A : Type} (less : A -> A -> bool) (l : list A) : list A :=
  rev (foldl (fun sortedRev x => sink less x sortedRev) [] l).

(** ** Reading a trace *)

(** The migrations handed to [RecordMigration], in order. *)
Definition recorded (ev : list event) : list Migration :=
  omap (fun e => match e with StorageRecordMigration mg => Some mg | _ => None end) ev.

(** The versions handed to [RemoveMigration], in order. *)
Definition removed (ev : list event) : list Z :=
  omap (fun e => match e with StorageRemoveMigration v => Some v | _ => None end) ev.

(** The scripts [executeMigration] was entered with, in order. *)
Definition executed (ev : list event) : list string :=
  omap (fun e => match e with Executing sql => Some sql | _ => None end) ev.

(** The statements run in a transaction, in order. *)
Definition statements (ev : list event) : list string :=
  omap (fun e => match e with TxRun _ stmt => Some stmt | _ => None end) ev.

(** The versions announced by the log call that precedes every forward
    execution. *)
Definition attempted (ev : list event) : list Z :=
  omap (fun e => match e with
                 | Log Info "applying migration" [_; argInt v; _; _] => Some v
                 | _ => None
                 end) ev.

Definition isStorageCall (e : event) : bool :=
  match e with
  | StorageInit | StorageGetAppliedMigrations | StorageRecordMigration _
  | StorageRemoveMigration _ | StorageGetCurrentVersion | StorageClose => true
  | _ => false
  end.

Definition storageCalls (ev : list event) : list event := List.filter isStorageCall ev.

(** What a run does to the database and to the applied records: the
    scripts entered, the records written and the records removed. *)
Definition isEffect (e : event) : bool :=
  match e with
  | Executing _ | StorageRecordMigration _ | StorageRemoveMigration _ => true
  | _ => false
  end.

Definition effects (ev : list event) : list event := List.filter isEffect ev.

Definition isWarning (e : event) : bool :=
  match e with
  | Log Warn _ _ => true
  | _ => false
  end.

(** The calls made inside a transaction: the statements and their log
    lines. *)
Definition isDriverEvent (e : event) : bool :=
  match e with
  | TxRun _ _ => true
  | Log Debug _ _ => true
  | _ => false
  end.

(** ** The log lines and the errors of the operations, by name *)

Definition applying (mg : Migration) : event :=
  Log Info "applying migration" (migrationArgs (Migration.Version mg) (Migration.Name mg)).

Definition applied_ok (mg : Migration) : event :=
  Log Info "successfully applied migration"
    (migrationArgs (Migration.Version mg) (Migration.Name mg)).

Definition skipped (mg : Migration) : event :=
  Log Debug "skipping already applied migration"
    (migrationArgs (Migration.Version mg) (Migration.Name mg)).

Definition rollingBack (mg : Migration) : event :=
  Log Info "rolling back migration" (migrationArgs (Migration.Version mg) (Migration.Name mg)).

Definition rolledBack (mg : Migration) : event :=
  Log Info "successfully rolled back migration"
    (migrationArgs (Migration.Version mg) (Migration.Name mg)).

Definition checksumMismatch (mg : Migration) : event :=
  Log Warn "checksum mismatch" (migrationArgs (Migration.Version mg) (Migration.Name mg)).

Definition applyError (mg : Migration) (cause : error) : error :=
  Errorf ("failed to apply migration " +:+ itoa (Migration.Version mg) +:+ ": ") cause "".

Definition recordError (mg : Migration) (cause : error) : error :=
  Errorf ("failed to record migration " +:+ itoa (Migration.Version mg) +:+ ": ") cause "".

Definition rollbackError (mg : Migration) (cause : error) : error :=
  Errorf ("failed to rollback migration " +:+ itoa (Migration.Version mg) +:+ ": ") cause "".

Definition removeError (mg : Migration) (cause : error) : error :=
  Errorf ("failed to remove migration record " +:+ itoa (Migration.Version mg) +:+ ": ")
    cause "".

Definition parseError (fileName : string) (cause : error) : error :=
  Errorf ("failed to parse migration " +:+ fileName +:+ ": ") cause "".

(** ** The behaviour the operations are compared with

    These definitions follow the words of the specification; the
    properties below relate them to the operations above. *)

(** A record of that version is among the applied ones. *)
Definition versionApplied (applied : list MigrationRecord) (version : Z) : bool :=
  existsb (fun record => MigrationRecord.Version record =? version) applied.

(** The declared migrations up to a target version that are not applied. *)
Definition pendingUpTo (targetVersion : Z) (applied : list MigrationRecord)
    (ms : list Migration) : list Migration :=
  List.filter (fun mg => (Migration.Version mg <=? targetVersion)
                         && negb (versionApplied applied (Migration.Version mg))) ms.

(** The declared migrations that are not applied. *)
Definition pending (applied : list MigrationRecord) (ms : list Migration) : list Migration :=
  List.filter (fun mg => negb (versionApplied applied (Migration.Version mg))) ms.

(** Applying migrations one after the other: the forward script, then the
    record. *)
Definition applyEffects (ms : list Migration) : list event :=
  flat_map (fun mg => [Executing (Migration.UpSQL mg); StorageRecordMigration mg]) ms.

Definition recordAbove (targetVersion : Z) (record : MigrationRecord) : bool :=
  targetVersion <? MigrationRecord.Version record.

(** The applied records above a target version, from the last to the
    first. *)
Definition toRollBack (targetVersion : Z) (applied : list MigrationRecord)
    : list MigrationRecord :=
  List.filter (recordAbove targetVersion) (rev applied).

(** Rolling records back one after the other: the reverse script of the
    declared migration, then the removal of the record. *)
Definition rollbackEffects {St DB : Type} (m : migrator St DB)
    (records : list MigrationRecord) : list event :=
  flat_map (fun record =>
              match findMigration m (MigrationRecord.Version record) with
              | Some mg => [Executing (Migration.DownSQL mg);
                            StorageRemoveMigration (MigrationRecord.Version record)]
              | None => []
              end) records.

Definition descending (a b : Migration) : Prop :=
  Migration.Version b <= Migration.Version a.

Definition recordAscending (a b : MigrationRecord) : Prop :=
  MigrationRecord.Version a <= MigrationRecord.Version b.

Definition recordDescending (a b : MigrationRecord) : Prop :=
  MigrationRecord.Version b <= MigrationRecord.Version a.

(** The status row of a declared migration: the last applied record of its
    version, when there is one, makes it applied at that record's time. *)
Definition lastRecord (applied : list MigrationRecord) (version : Z) : option MigrationRecord :=
  List.find (fun record => MigrationRecord.Version record =? version) (rev applied).

Definition statusRow (applied : list MigrationRecord) (mg : Migration) : MigrationStatus :=
  match lastRecord applied (Migration.Version mg) with
  | Some record =>
      MigrationStatus.mk (Migration.Version mg) (Migration.Name mg) true
        (Some (MigrationRecord.AppliedAt record)) (Migration.Checksum mg)
  | None =>
      MigrationStatus.mk (Migration.Version mg) (Migration.Name mg) false None
        (Migration.Checksum mg)
  end.

(** The declared migrations whose stored checksum differs. *)
Definition drifted (applied : list MigrationRecord) (ms : list Migration) : list Migration :=
  List.filter (fun mg =>
                 match lastRecord applied (Migration.Version mg) with
                 | Some record =>
                     negb (String.eqb (MigrationRecord.Checksum record) (Migration.Checksum mg))
                 | None => false
                 end) ms.

(** The two accumulated sections of a file, before trimming. *)
Definition sectionsOf (content : string) : string * string :=
  splitLoop (fst (scanTokens (rawLines content))) EmptyString EmptyString noSection.

(** The migrator with another declared sequence. *)
Definition withMigrations {St DB : Type} (m : migrator St DB) (ms : list Migration)
    : migrator St DB :=
  mkMigrator (driver m) (storage m) ms (database m).

(** ** What is assumed of the collaborators *)

(** A storage that keeps its records as section 6 of the specification
    asks: in a [sound] store [Init] and [GetAppliedMigrations] succeed and
    change no record, the records read are those of the versions applied,
    and a successful [RecordMigration] or [RemoveMigration] adds or removes
    its version. The scripts run against the database, not against the
    store: [world] keeps the two apart. *)
Class FaithfulStorage {St : Type} (S : Storage St) : Type := mkFaithfulStorage
  { sound : St -> Prop;
    appliedSet : St -> gset Z;
    Init_faithful : forall s, sound s ->
      exists s', Init S s = (None, s') /\ sound s' /\ appliedSet s' = appliedSet s;
    GetAppliedMigrations_faithful : forall s, sound s ->
      exists records s',
        GetAppliedMigrations S s = (records, None, s') /\ sound s'
        /\ appliedSet s' = appliedSet s
        /\ forall v, v ∈ appliedSet s <-> versionApplied records v = true;
    RecordMigration_faithful : forall mg s s', sound s ->
      RecordMigration S mg s = (None, s') ->
      sound s' /\ appliedSet s' = {[Migration.Version mg]} ∪ appliedSet s;
    RemoveMigration_faithful : forall v s s', sound s ->
      RemoveMigration S v s = (None, s') ->
      sound s' /\ appliedSet s' = appliedSet s ∖ {[v]} }.

(** The storage does not fail in the stores that satisfy [ok]. *)
Definition neverFails {St : Type} (S : Storage St) (ok : St -> Prop) : Prop :=
  (forall s, ok s -> exists s', Init S s = (None, s') /\ ok s')
  /\ (forall s, ok s ->
      exists records s', GetAppliedMigrations S s = (records, None, s') /\ ok s')
  /\ (forall mg s, ok s -> exists s', RecordMigration S mg s = (None, s') /\ ok s')
  /\ (forall v s, ok s -> exists s', RemoveMigration S v s = (None, s') /\ ok s').

(** The driver never fails a statement (or there is none). *)
Definition driverNeverFails {St DB : Type} (m : migrator St DB) : Prop :=
  match driver m with
  | None => True
  | Some d => forall databaseName stmt x, fst (Run d databaseName stmt x) = None
  end.

(** The double with no hook set for the methods that keep the records. *)
Definition noHooks (s : mockStorage) : Prop :=
  InitFunc s = None /\ GetAppliedFunc s = None /\ RecordFunc s = None
  /\ RemoveFunc s = None.

(** A store of the double that behaves: no hook, and every record kept
    under its own version. *)
Definition mockSound (s : mockStorage) : Prop :=
  noHooks s
  /\ forall version record,
       appliedMigrations s !! version = Some record ->
       MigrationRecord.Version record = version.

From Stdlib Require DecimalPos.

(** ** More of the behaviour the operations are compared with *)

(** The statements of a script that reach the database: its pieces between
    semicolons, trimmed, the empty ones left out. *)
Definition nonEmptyStatements (sql : string) : list string :=
  List.filter (fun stmt => negb (String.eqb stmt "")) (map TrimSpace (splitStatements sql)).

(** A storage that keeps its records and also reports its current version
    as section 6 asks: the highest applied version, or 0 when none is
    applied. *)
Class ReportsCurrentVersion {St : Type} (S : Storage St) : Type :=
  mkReportsCurrentVersion
  { keepsRecords :: FaithfulStorage S;
    GetCurrentVersion_faithful : forall s, sound s ->
      exists v s',
        GetCurrentVersion S s = (v, None, s') /\ sound s'
        /\ appliedSet s' = appliedSet s
        /\ (forall k, k ∈ appliedSet s -> k <= v)
        /\ (v = 0 \/ v ∈ appliedSet s) }.

(** The double with no hook at all on the methods that keep and report the
    records. *)
Definition mockReporting (s : mockStorage) : Prop :=
  mockSound s /\ GetVersionFunc s = None.

(** The statements of a script run one after the other against the
    database: the database they leave, or [None] as soon as one fails. *)
Fixpoint runAll {DB : Type} (d : Driver DB) (databaseName : string)
    (stmts : list string) (x : DB) : option DB :=
  match stmts with
  | [] => Some x
  | stmt :: rest =>
      match Run d databaseName stmt x with
      | (None, x') => runAll d databaseName rest x'
      | (Some _, _) => None
      end
  end.

(** The statement events of a trace all name the given database. *)
Definition runsAgainst (databaseName : string) (ev : list event) : Prop :=
  Forall (fun e => match e with
                   | TxRun name _ => name = databaseName
                   | _ => True
                   end) ev.

(** ** What the parser is compared with *)

Fixpoint allDigits (s : string) : bool :=
  match s with
  | EmptyString => true
  | String c s' => isDigit c && allDigits s'
  end.

(** An entry of the directory that the parser takes for a migration file:
    no directory, a name that matches the pattern, and a numeric prefix
    that is an [int]. *)
Definition isMigrationFile (entry : DirEntry) : bool :=
  negb (DirEntry.IsDir entry)
  && match FindStringSubmatch (DirEntry.Name entry) with
     | Some (digits, _) =>
         match Atoi digits with
         | Some _ => true
         | None => false
         end
     | None => false
     end.

(** Lines put together, each ended by a line feed. *)
Fixpoint joinLines (lines : list string) : string :=
  match lines with
  | [] => EmptyString
  | l :: rest => (l +:+ String "010" EmptyString) +:+ joinLines rest
  end.

(** A line as the scanner delivers it whole: no line feed in it, and short
    enough for the buffer. *)
Definition scannable (l : string) : Prop :=
  hasLineFeed l = false /\ Z.of_nat (String.length l) < MaxScanTokenSize.

(** A line that is no marker. *)
Definition noMarker (l : string) : Prop :=
  HasPrefix l upMarker = false /\ HasPrefix l downMarker = false.

Section ParserSpec.
Context {G : GoLib}.

(** The migration [mg] is what the parser makes of the directory entry
    [entry]. *)
Definition parsedFrom (fsys : FS) (dir : string) (entry : DirEntry) (mg : Migration) : Prop :=
  DirEntry.IsDir entry = false
  /\ exists digits content,
       FindStringSubmatch (DirEntry.Name entry) = Some (digits, Migration.Name mg)
       /\ Atoi digits = Some (Migration.Version mg)
       /\ OpenRead fsys (filepath_Join dir (DirEntry.Name entry)) = FileBytes content
       /\ splitUpDown content = (Migration.UpSQL mg, Migration.DownSQL mg, None)
       /\ Migration.Checksum mg = calculateChecksum content.

(** The error [cause] is what the parser makes of the file at [path]. *)
Definition fileError (fsys : FS) (path : string) (cause : error) : Prop :=
  match OpenRead fsys path with
  | OpenFails err => cause = Errorf "failed to open file: " err ""
  | ReadAllFails err => cause = Errorf "failed to read file: " err ""
  | FileBytes content =>
      snd (splitUpDown content) = Some cause
      /\ (cause = Errorf "failed to scan file: " ErrTooLong ""
          \/ cause = ErrNoUpStatement \/ cause = ErrNoDownStatement)
  end.
End ParserSpec.

(** ** logger.go: the default logger *)

(** The [%v] verb on the arguments the engine logs: integers and
    strings. *)
Definition formatValue (arg : logArg) : string :=
  match arg with
  | argInt z => itoa z
  | argStr s => s
  end.

(** The loop of [formatMessage]: the arguments are taken two by two, a key
    and its value; a last argument without a value adds nothing. *)
Fixpoint formatPairs (formatted : string) (args : list logArg) : string :=
  match args with
  | key :: value :: rest =>
      formatPairs (formatted +:+ " " +:+ formatValue key +:+ "=" +:+ formatValue value) rest
  | _ => formatted
  end.

Definition formatMessage (msg : string) (args : list logArg) : string :=
  if (length args =? 0)%nat then msg else formatPairs msg args.

Definition levelTag (lvl : level) : string :=
  match lvl with
  | Debug => "DEBUG:"
  | Info => "INFO:"
  | Warn => "WARN:"
  | ErrorLevel => "ERROR:"
  end.

(** What the default logger hands to [log.Logger.Println], which puts the
    prefix [[neo4go]] and the time in front: the tag of the level, a space
    and the formatted message. *)
Definition defaultLogger_line (lvl : level) (msg : string) (args : list logArg) : string :=
  levelTag lvl +:+ " " +:+ formatMessage msg args.

(** The lines the default logger prints for a trace. *)
Definition logLines (ev : list event) : list string :=
  omap (fun e => match e with
                 | Log lvl msg args => Some (defaultLogger_line lvl msg args)
                 | _ => None
                 end) ev.

(** ** cmd/neo4go/config.go *)

(** [neo4go.Config{}]. *)
Definition zeroConfig : Config := mkConfig "" "" "" "" "" None.

(** [getenv] is [os.Getenv]: the value of a variable, [""] when it is not
    set. *)
Definition getConfigFromEnv (getenv : string -> string) : Config * option error :=
  let uri := getenv "NEO4J_URI" in
  if String.eqb uri "" then
    (zeroConfig, Some (errorsNew "NEO4J_URI environment variable is required"))
  else
    let username := getenv "NEO4J_USERNAME" in
    if String.eqb username "" then
      (zeroConfig, Some (errorsNew "NEO4J_USERNAME environment variable is required"))
    else
      let password := getenv "NEO4J_PASSWORD" in
      if String.eqb password "" then
        (zeroConfig, Some (errorsNew "NEO4J_PASSWORD environment variable is required"))
      else
        let database := getenv "NEO4J_DATABASE" in
        let database := if String.eqb database "" then "neo4j" else database in
        let migrationsDir := getenv "NEO4J_MIGRATIONS_DIR" in
        let migrationsDir :=
          if String.eqb migrationsDir "" then "./migrations" else migrationsDir in
        (mkConfig uri username password database migrationsDir None, None).

(** ** cmd/neo4go: the commands *)

(** [strconv.Atoi] on any argument: an optional sign, then decimal
    digits, at least one; the value 0 and a syntax error otherwise, the
    nearest [int] and a range error when the number does not fit. The
    error is a [*strconv.NumError] that wraps [ErrSyntax] or [ErrRange];
    its text quotes the argument with [strconv.Quote], which is left
    abstract. *)
Class Strconv : Type := mkStrconv { strconv_Quote : string -> string }.

Definition ErrSyntax : error := errorsNew "invalid syntax".

Definition ErrRange : error := errorsNew "value out of range".

Definition numError {Q : Strconv} (num : string) (err : error) : error :=
  Errorf ("strconv.Atoi: parsing " +:+ strconv_Quote num +:+ ": ") err "".

(** The largest [uint64]. *)
Definition maxUint64 : Z := 18446744073709551615.

(** The loop of [strconv.ParseUint] in base 10 on 64 bits: [n] is the
    value read so far. It stops at the first byte that is no digit with a
    syntax error, and at the first digit that takes the value out of the
    [uint64] with a range error and the largest [uint64]. *)
Fixpoint ParseUint_loop (s : string) (n : Z) : Z * option error :=
  match s with
  | EmptyString => (n, None)
  | String c rest =>
      if isDigit c then
        if maxUint64 / 10 + 1 <=? n then (maxUint64, Some ErrRange)
        else
          let n1 := n * 10 + (byte_of c - 48) in
          if maxUint64 <? n1 then (maxUint64, Some ErrRange) else ParseUint_loop rest n1
      else (0, Some ErrSyntax)
  end.

Definition ParseUint (s : string) : Z * option error :=
  if String.eqb s "" then (0, Some ErrSyntax) else ParseUint_loop s 0.

(** [strconv.Atoi], which is [ParseInt(s, 10, 0)]: the sign is picked off,
    the rest is read by [ParseUint], and the value is checked against the
    range of [int]. *)
Definition strconv_Atoi {Q : Strconv} (s : string) : Z * option error :=
  if String.eqb s "" then (0, Some (numError s ErrSyntax))
  else
    let '(neg, digits) :=
      match s with
      | String "+" rest => (false, rest)
      | String "-" rest => (true, rest)
      | _ => (false, s)
      end in
    let '(un, err) := ParseUint digits in
    if match err with
       | Some err => negb (bool_decide (err = ErrRange))
       | None => false
       end
    then (0, Some (numError s ErrSyntax))
    else
      let cutoff := 2 ^ 63 in
      if negb neg && (cutoff <=? un) then (cutoff - 1, Some (numError s ErrRange))
      else if neg && (cutoff <? un) then (- cutoff, Some (numError s ErrRange))
      else (if neg then - un else un, None).

(** What a command leaves behind: its error, the lines it printed on the
    standard output, what it did to the outside, the calls made to the
    collaborators of the migrator, and their state. *)
Record outcome (St DB : Type) : Type := mkOutcome
  { cmdErr : option error;
    printed : list string;
    cmdIO : list ioEvent;
    cmdTrace : list event;
    cmdWorld : world St DB }.

Arguments mkOutcome {St DB}.
Arguments cmdErr {St DB}.
Arguments printed {St DB}.
Arguments cmdIO {St DB}.
Arguments cmdTrace {St DB}.
Arguments cmdWorld {St DB}.

(** The calls to [Close] in a trace. *)
Definition isClose (e : event) : bool :=
  match e with
  | StorageClose => true
  | _ => false
  end.

Definition closes (ev : list event) : nat := length (List.filter isClose ev).

(** A computation that never calls [Close]. *)
Definition neverCloses {St DB A : Type} (c : M St DB A) : Prop :=
  forall w, closes (snd (c w)) = 0%nat.

(** A call through a nil [Migrator]: the panic of the Go runtime. [New]
    returns a migrator whenever it returns no error, so that no command
    gets there. *)
Definition nilMigrator : error :=
  errorsNew "runtime error: invalid memory address or nil pointer dereference".

Section Commands.
Context {G : GoLib} {Q : Strconv} {St DB : Type} (neo4j : Neo4j St DB)
  (getenv : string -> string).

(** The frame that the source repeats in the commands [up], [down],
    [up-to], [down-to] and [version]: the configuration is read from the
    environment, the migrator is created, [Close] is deferred, and [run],
    the rest of the command, gives the error and what is printed. The
    error of [Close] is dropped. *)
Definition withMigrator (w : world St DB)
    (run : migrator St DB -> M St DB (option error * list string)) : outcome St DB :=
  match getConfigFromEnv getenv with
  | (_, Some err) => mkOutcome (Some err) [] [] [] w
  | (cfg, None) =>
      match New neo4j cfg with
      | (_, Some err, io) =>
          mkOutcome (Some (Errorf "failed to create migrator: " err "")) [] io [] w
      | (None, None, io) => mkOutcome (Some nilMigrator) [] io [] w
      | (Some migrator, None, io) =>
          let '(result, w1, ev1) := run migrator w in
          let '(_, w2, ev2) := Close_migrator migrator w1 in
          mkOutcome (fst result) (snd result) io (ev1 ++ ev2) w2
      end
  end.

Definition upCmd (w : world St DB) : outcome St DB :=
  withMigrator w (fun migrator =>
    err <- Up migrator ;;
    match err with
    | Some err => ret (Some (Errorf "failed to run migrations: " err ""), [])
    | None => ret (None, ["All migrations applied successfully"])
    end).

Definition downCmd (w : world St DB) : outcome St DB :=
  withMigrator w (fun migrator =>
    err <- Down migrator ;;
    match err with
    | Some err => ret (Some (Errorf "failed to rollback migration: " err ""), [])
    | None => ret (None, ["Migration rolled back successfully"])
    end).

Definition upToCmd (arg : string) (w : world St DB) : outcome St DB :=
  match strconv_Atoi arg with
  | (_, Some err) => mkOutcome (Some (Errorf "invalid version number: " err "")) [] [] [] w
  | (version, None) =>
      withMigrator w (fun migrator =>
        err <- UpTo migrator version ;;
        match err with
        | Some err =>
            ret (Some (Errorf ("failed to migrate to version " +:+ itoa version +:+ ": ")
                         err ""), [])
        | None => ret (None, ["Migrated to version " +:+ itoa version +:+ " successfully"])
        end)
  end.

Definition downToCmd (arg : string) (w : world St DB) : outcome St DB :=
  match strconv_Atoi arg with
  | (_, Some err) => mkOutcome (Some (Errorf "invalid version number: " err "")) [] [] [] w
  | (version, None) =>
      withMigrator w (fun migrator =>
        err <- DownTo migrator version ;;
        match err with
        | Some err =>
            ret (Some (Errorf ("failed to rollback to version " +:+ itoa version +:+ ": ")
                         err ""), [])
        | None => ret (None, ["Rolled back to version " +:+ itoa version +:+ " successfully"])
        end)
  end.

Definition versionCmd (w : world St DB) : outcome St DB :=
  withMigrator w (fun migrator =>
    r <- Version migrator ;;
    let '(version, err) := r in
    match err with
    | Some err => ret (Some (Errorf "failed to get version: " err ""), [])
    | None =>
        if version =? 0 then ret (None, ["No migrations applied yet"])
        else ret (None, ["Current version: " +:+ itoa version])
    end).
End Commands.

(** The commands of the root command that work through a migrator and
    print one line, with their argument. *)
Inductive command : Type :=
| cmdUp
| cmdDown
| cmdUpTo (arg : string)
| cmdDownTo (arg : string)
| cmdVersion.

Definition runCommand {G : GoLib} {Q : Strconv} {St DB : Type} (neo4j : Neo4j St DB)
    (getenv : string -> string) (c : command) (w : world St DB) : outcome St DB :=
  match c with
  | cmdUp => upCmd neo4j getenv w
  | cmdDown => downCmd neo4j getenv w
  | cmdUpTo arg => upToCmd neo4j getenv arg w
  | cmdDownTo arg => downToCmd neo4j getenv arg w
  | cmdVersion => versionCmd neo4j getenv w
  end.

(** The [create] command. [Disk] is the state of the file system; the
    environment, [os.MkdirAll], the clock and [os.WriteFile] are its
    collaborators. *)
Record OS (Disk : Type) : Type := mkOS
  { os_Getenv : string -> string;
    os_MkdirAll : string -> Disk -> option error * Disk;
    time_Now_Unix : Z;
    os_WriteFile : string -> string -> Disk -> option error * Disk }.

Arguments os_Getenv {Disk}.
Arguments os_MkdirAll {Disk}.
Arguments time_Now_Unix {Disk}.
Arguments os_WriteFile {Disk}.

(** The content written to a new migration file. *)
Definition migrationTemplate : string :=
  joinLines ["-- +neo4go Up"; "-- Add your up migration statements here"; ""; "";
             "-- +neo4go Down"; "-- Add your down migration statements here"; ""].

(** The name of a new migration file: [%d_%s.cypher]. *)
Definition newFileName (version : Z) (name : string) : string :=
  itoa version +:+ "_" +:+ name +:+ ".cypher".

Definition createCmd {G : GoLib} {Disk : Type} (os : OS Disk) (name : string) (disk : Disk)
    : option error * list string * Disk :=
  let migrationsDir := os_Getenv os "NEO4J_MIGRATIONS_DIR" in
  let migrationsDir := if String.eqb migrationsDir "" then "./migrations" else migrationsDir in
  match os_MkdirAll os migrationsDir disk with
  | (Some err, disk1) =>
      (Some (Errorf "failed to create migrations directory: " err ""), [], disk1)
  | (None, disk1) =>
      let version := time_Now_Unix os in
      let filename := newFileName version name in
      let filePath := filepath_Join migrationsDir filename in
      match os_WriteFile os filePath migrationTemplate disk1 with
      | (Some err, disk2) =>
          (Some (Errorf "failed to create migration file: " err ""), [], disk2)
      | (None, disk2) => (None, ["Created migration: " +:+ filePath], disk2)
      end
  end.

(** ** More of the behaviour the parser and the commands are compared with *)

Section Failures.
Context {St DB : Type} (m : migrator St DB).

(** The failure of a loop of [Up]: the migration it stopped at, and
    why. *)
Definition stoppedAt (ms : list Migration) (e : error) (ev : list event) : Prop :=
  exists mg,
    In mg ms
    /\ ((exists cause,
            e = applyError mg cause /\ errors_Is e ErrTransactionFailed = true
            /\ last (effects ev) = Some (Executing (Migration.UpSQL mg)))
        \/ (exists cause s s',
              e = recordError mg cause
              /\ RecordMigration (storage m) mg s = (Some cause, s')
              /\ last (effects ev) = Some (StorageRecordMigration mg))).
End Failures.

(** The value of a decimal numeral, digit by digit from [acc]. *)
Fixpoint uintValue (acc : Z) (d : Decimal.uint) : Z :=
  match d with
  | Decimal.Nil => acc
  | Decimal.D0 l => uintValue (10 * acc + 0) l
  | Decimal.D1 l => uintValue (10 * acc + 1) l
  | Decimal.D2 l => uintValue (10 * acc + 2) l
  | Decimal.D3 l => uintValue (10 * acc + 3) l
  | Decimal.D4 l => uintValue (10 * acc + 4) l
  | Decimal.D5 l => uintValue (10 * acc + 5) l
  | Decimal.D6 l => uintValue (10 * acc + 6) l
  | Decimal.D7 l => uintValue (10 * acc + 7) l
  | Decimal.D8 l => uintValue (10 * acc + 8) l
  | Decimal.D9 l => uintValue (10 * acc + 9) l
  end.

(** ** Fixtures: the migrations and doubles of the test suite *)

Definition initial : Migration :=
  Migration.mk 1 "initial" "CREATE CONSTRAINT c1;" "DROP CONSTRAINT c1;" "abc".

Definition indexes : Migration :=
  Migration.mk 2 "indexes" "CREATE INDEX i1;" "DROP INDEX i1;" "def".

Definition more : Migration :=
  Migration.mk 3 "more" "CREATE INDEX i2;" "DROP INDEX i2;" "ghi".

(** The migrator of the unit tests: no driver, the storage double. *)
Definition testMigrator (ms : list Migration) : migrator mockStorage unit :=
  mkMigrator None mockStorage_Storage ms "neo4j".

Definition worldOf (s : mockStorage) : world mockStorage unit := World s tt.

Definition freshWorld : world mockStorage unit := worldOf newMockStorage.

(** The double with [GetAppliedFunc] set to return the given records, as
    the unit tests set it. *)
Definition withApplied (records : list MigrationRecord) : mockStorage :=
  mkMockStorage None (Some (records, None)) None None None None ∅ 0.

Definition testRecord (version : Z) : MigrationRecord :=
  MigrationRecord.mk version "test" 0 "test".

(** The double whose [Init] fails. *)
Definition initFails : mockStorage :=
  mkMockStorage (Some (Some (errorsNew "init failed"))) None None None None None ∅ 0.

(** A file system given by its files, listed in the given order. *)
Definition mapFS (files : list (string * string)) : FS :=
  mkFS (fun _ => (map (fun file => DirEntry.mk (fst file) false) files, None))
       (fun path =>
          match List.find (fun file => String.eqb (fst file) path) files with
          | Some file => FileBytes (snd file)
          | None => OpenFails (errorsNew "file does not exist")
          end).

(** The library as the examples use it: paths below ["."], the content
    itself standing for its digest, and the insertion sort of short
    slices. *)
Definition exampleLib : GoLib :=
  mkGoLib (fun dir name => if String.eqb dir "." then name else dir +:+ "/" +:+ name)
          (fun content => content)
          (insertionSort (A := Migration)).

Definition line (s : string) : string := s +:+ String "010" EmptyString.

Definition wellFormed (upSQL downSQL : string) : string :=
  line upMarker +:+ line upSQL +:+ line "" +:+ line downMarker +:+ downSQL.

Definition bothSources : Config :=
  mkConfig "bolt://localhost:7687" "neo4j" "testpassword" "neo4j" "./test_migrations"
    (Some (mapFS [("001_initial.cypher",
                   wellFormed "CREATE CONSTRAINT c1;" "DROP CONSTRAINT c1;")])).

Definition noURI : Config :=
  mkConfig "" "neo4j" "testpassword" "neo4j" "./test_migrations" None.

(** The declared migrations of the tests with the records of versions 1
    and 2 applied, in that order and in the opposite one. *)
Definition declared : migrator mockStorage unit :=
  testMigrator [initial; indexes; more].

Definition appliedAscending : world mockStorage unit :=
  worldOf (withApplied [testRecord 1; testRecord 2; testRecord 3]).

Definition appliedUnordered : world mockStorage unit :=
  worldOf (withApplied [testRecord 3; testRecord 1; testRecord 2]).

Definition onlyUp : string := line upMarker +:+ "CREATE CONSTRAINT c1;".

Definition onlyDown : string := line downMarker +:+ "DROP CONSTRAINT c1;".

Definition goodFile : string := wellFormed "CREATE CONSTRAINT c1;" "DROP CONSTRAINT c1;".

(** Two files of version 1, as [fs.ReadDir] lists them. *)
Definition twiceVersionOne : FS :=
  mapFS [("01_b.cypher", goodFile); ("1_a.cypher", goodFile)].

(** A file whose numeric prefix exceeds the largest [int], and no up
    section in it. *)
Definition hugePrefix : FS :=
  mapFS [("001_initial.cypher", goodFile); ("99999999999999999999_big.cypher", onlyDown)].

Definition missingDown : FS := mapFS [("001_initial.cypher", onlyUp)].

Definition missingUp : FS := mapFS [("001_initial.cypher", onlyDown)].

(** A driver that fails the statement [FAIL] and runs every other one. *)
Definition failingDriver : Driver unit :=
  mkDriver unit (fun _ stmt x =>
                   if String.eqb stmt "FAIL" then (Some (errorsNew "boom"), x) else (None, x)).

Definition withDriver (ms : list Migration) : migrator mockStorage unit :=
  mkMigrator (Some failingDriver) mockStorage_Storage ms "neo4j".

Definition failing : Migration := Migration.mk 2 "indexes" "FAIL;" "DROP INDEX i1;" "def".

(** Two declared migrations of version 1, the second with a failing
    script. *)
Definition firstOfOne : Migration := Migration.mk 1 "b" "CREATE INDEX b;" "DROP INDEX b;" "b".

Definition secondOfOne : Migration := Migration.mk 1 "a" "FAIL;" "DROP INDEX a;" "a".

(** The contents and doubles of the unit tests. *)
Definition createUser : string :=
  "CREATE CONSTRAINT user_id IF NOT EXISTS FOR (u:User) REQUIRE u.id IS UNIQUE;".

Definition createEmail : string :=
  "CREATE INDEX user_email IF NOT EXISTS FOR (u:User) ON (u.email);".

Definition dropUser : string := "DROP CONSTRAINT user_id IF EXISTS;".

Definition dropEmail : string := "DROP INDEX user_email IF EXISTS;".

Definition recordFails : mockStorage :=
  mkMockStorage None (Some ([], None)) (Some (fun _ => Some (errorsNew "record failed")))
    None None None ∅ 0.

Definition currentVersionIs (version : Z) : mockStorage :=
  mkMockStorage None None None None (Some (version, None)) None ∅ 0.

Definition versionFails : mockStorage :=
  mkMockStorage None None None None (Some (0, Some (errorsNew "version failed"))) None ∅ 0.

(** ** Further fixtures *)

(** The double holding the record of version 1, read through the hook. *)
Definition oneApplied : world mockStorage unit := worldOf (withApplied [testRecord 1]).

(** A database that keeps the statements run against it. *)
Definition loggingDriver : Driver (list string) :=
  mkDriver (list string)
    (fun _ stmt x =>
       if String.eqb stmt "FAIL" then (Some (errorsNew "boom"), x) else (None, x ++ [stmt])).

Definition withLoggingDriver (ms : list Migration) : migrator mockStorage (list string) :=
  mkMigrator (Some loggingDriver) mockStorage_Storage ms "neo4j".

(** A script whose second statement fails, with an empty piece and blanks
    around the statements. *)
Definition secondFails : string := " CREATE INDEX a ;; FAIL; CREATE INDEX b;".

(** The double holding the records of versions 1, 3 and 2. *)
Definition threeRecords : mockStorage :=
  setApplied newMockStorage
    (<[2 := testRecord 2]> (<[3 := testRecord 3]> (<[1 := testRecord 1]> ∅))) 3.

(** An environment given by its variables. *)
Definition envOf (vars : list (string * string)) (name : string) : string :=
  match List.find (fun var => String.eqb (fst var) name) vars with
  | Some var => snd var
  | None => ""
  end.

Definition requiredOnly : string -> string :=
  envOf [("NEO4J_URI", "bolt://localhost:7687"); ("NEO4J_USERNAME", "neo4j");
         ("NEO4J_PASSWORD", "testpassword")].

(** A neo4j side whose connection always succeeds, with the storage
    double behind the [Storage] interface and the given file system as the
    directory. *)
Definition reachable (fsys : FS) : Neo4j mockStorage unit :=
  mkNeo4j mockStorage unit (fun _ _ _ => (Some failingDriver, None)) (fun _ => None)
    (fun _ _ => mockStorage_Storage) (fun _ => fsys).

(** A neo4j side whose server does not answer. *)
Definition unreachable : Neo4j mockStorage unit :=
  mkNeo4j mockStorage unit (fun _ _ _ => (Some failingDriver, None))
    (fun _ => Some (errorsNew "connection refused"))
    (fun _ _ => mockStorage_Storage) (fun _ => mapFS []).

(** An operating system that keeps the files written, with no variable set
    and a fixed clock. *)
Definition recordingOS : OS (list (string * string)) :=
  mkOS _ (fun _ => "") (fun _ disk => (None, disk)) 1700000000
    (fun path content disk => (None, (path, content) :: disk)).

(** * The unit tests of the repository, replayed on the embedding *)

(** parser_test.go, TestParserSplitUpDown. *)
Example splitUpDown_valid_migration :
  splitUpDown (wellFormed createUser dropUser) = (createUser, dropUser, None).
Proof. reflexivity. Qed.

Example splitUpDown_multiple_statements :
  splitUpDown (wellFormed (line createUser +:+ createEmail) (line dropUser +:+ dropEmail))
  = (line createUser +:+ createEmail, line dropUser +:+ dropEmail, None).
Proof. reflexivity. Qed.

(** parser_test.go, TestParserParseMigrations. *)
Example parse_valid_single_migration :
  @parseMigrations exampleLib (mapFS [("001_initial.cypher", wellFormed createUser dropUser)]) "."
  = ([Migration.mk 1 "initial" createUser dropUser (wellFormed createUser dropUser)], None).
Proof. reflexivity. Qed.

Example parse_no_migrations :
  @parseMigrations exampleLib (mapFS []) "." = ([], Some ErrNoMigrations).
Proof. reflexivity. Qed.

(** parser_test.go, TestParserMigrationOrdering and
    TestParserInvalidFilenames. *)
Example parse_orders_by_version :
  map Migration.Version
    (fst (@parseMigrations exampleLib
            (mapFS [("003_third.cypher", goodFile); ("001_first.cypher", goodFile);
                    ("002_second.cypher", goodFile)]) "."))
  = [1; 2; 3].
Proof. reflexivity. Qed.

Example parse_skips_other_files :
  map Migration.Version
    (fst (@parseMigrations exampleLib
            (mapFS [("001_valid.cypher", goodFile); ("invalid.cypher", goodFile);
                    ("notamigration.txt", "some text")]) "."))
  = [1].
Proof. reflexivity. Qed.

(** migrator_test.go, TestMigratorUp. *)
Example Up_all_already_applied :
  fst (fst (Up (testMigrator [initial]) (worldOf (withApplied [testRecord 1])))) = None.
Proof. reflexivity. Qed.

Example Up_storage_init_error :
  fst (fst (Up (testMigrator [initial]) (worldOf initFails)))
  = Some (errorsNew "init failed").
Proof. reflexivity. Qed.

Example Up_storage_record_error :
  fst (fst (Up (testMigrator [initial]) (worldOf recordFails)))
  = Some (recordError initial (errorsNew "record failed")).
Proof. reflexivity. Qed.

(** migrator_test.go, TestMigratorDown. *)
Example Down_rollback_last_migration :
  Down (testMigrator [initial; indexes]) (worldOf (currentVersionIs 2))
  = (None, worldOf (currentVersionIs 2),
     [StorageInit; StorageGetCurrentVersion; rollingBack indexes;
      Executing "DROP INDEX i1;"; StorageRemoveMigration 2; rolledBack indexes]).
Proof. reflexivity. Qed.

Example Down_no_migrations_to_rollback :
  fst (fst (Down (testMigrator [initial]) (worldOf (currentVersionIs 0)))) = None
  /\ effects (snd (Down (testMigrator [initial]) (worldOf (currentVersionIs 0)))) = [].
Proof. split; reflexivity. Qed.

Example Down_migration_not_found :
  fst (fst (Down (testMigrator [initial]) (worldOf (currentVersionIs 3))))
  = Some (Errorf "" ErrMigrationNotFound ": version 3").
Proof. reflexivity. Qed.

(** migrator_test.go, TestMigratorUpTo and TestMigratorDownTo. *)
Example UpTo_specific_version :
  recorded (snd (UpTo (testMigrator [initial; indexes; more]) 2 (worldOf (withApplied []))))
  = [initial; indexes].
Proof. reflexivity. Qed.

Example UpTo_skips_already_applied :
  recorded (snd (UpTo (testMigrator [initial; indexes; more]) 2
                   (worldOf (withApplied [testRecord 1]))))
  = [indexes].
Proof. reflexivity. Qed.

Example DownTo_specific_version :
  removed (snd (DownTo (testMigrator [initial; indexes; more]) 1
                  (worldOf (withApplied [testRecord 1; testRecord 2; testRecord 3]))))
  = [3; 2].
Proof. reflexivity. Qed.

Example DownTo_no_rollback_needed :
  DownTo (testMigrator [initial; indexes]) 2 (worldOf (withApplied [testRecord 1; testRecord 2]))
  = (None, worldOf (withApplied [testRecord 1; testRecord 2]),
     [StorageInit; StorageGetAppliedMigrations]).
Proof. reflexivity. Qed.

(** migrator_test.go, TestMigratorVersion. *)
Example Version_current :
  fst (fst (Version (testMigrator []) (worldOf (currentVersionIs 5)))) = (5, None).
Proof. reflexivity. Qed.

Example Version_storage_error :
  fst (fst (Version (testMigrator []) (worldOf versionFails)))
  = (0, Some (errorsNew "version failed"))
  /\ fst (fst (Version (testMigrator []) (worldOf initFails)))
     = (0, Some (errorsNew "init failed")).
Proof. split; reflexivity. Qed.

(** migrator_test.go, TestNewMigrator. *)
Example newMigrator_valid :
  @newMigrator exampleLib mockStorage unit None mockStorage_Storage
    (mapFS [("001_initial.cypher", goodFile)]) "." "neo4j"
  = (Some (testMigrator [Migration.mk 1 "initial" "CREATE CONSTRAINT c1;"
                           "DROP CONSTRAINT c1;" goodFile]), None).
Proof. reflexivity. Qed.

Example newMigrator_no_migrations :
  @newMigrator exampleLib mockStorage unit None mockStorage_Storage (mapFS []) "." "neo4j"
  = (None, Some ErrNoMigrations).
Proof. reflexivity. Qed.

(** The white space that [strings.TrimSpace] removes, a scan that meets a
    carriage return, and the file names the pattern takes. *)
Example TrimSpace_unicode :
  TrimSpace (String "194" (String "160" (" a b" +:+ String "009" (String "226"
              (String "128" (String "168" EmptyString))))))
  = "a b".
Proof. reflexivity. Qed.

Example rawLines_carriage_return :
  map dropCR (rawLines ("a" +:+ String "013" (String "010" (String "010" "b"))))
  = ["a"; ""; "b"].
Proof. reflexivity. Qed.

Example pattern_examples :
  FindStringSubmatch "001_initial.cypher" = Some ("001", "initial")
  /\ FindStringSubmatch "12_3_x.cypher" = Some ("12", "3_x")
  /\ FindStringSubmatch "001_.cypher" = None
  /\ FindStringSubmatch "invalid.cypher" = None
  /\ FindStringSubmatch "1_x.cypher.txt" = None.
Proof. repeat split; reflexivity. Qed.

(** * Properties *)

(** ** The computation monad *)

Section MonadFacts.
Context {St DB : Type}.

Lemma bind_run {A B : Type} (c : M St DB A) (k : A -> M St DB B) w a w1 ev1 :
  c w = (a, w1, ev1) ->
  bind c k w = (let '(b, w2, ev2) := k a w1 in (b, w2, ev1 ++ ev2)).
Proof. intros H. unfold bind. rewrite H. reflexivity. Qed.

Lemma bind_inv {A B : Type} (c : M St DB A) (k : A -> M St DB B) w b w2 ev :
  bind c k w = (b, w2, ev) ->
  exists a w1 ev1 ev2,
    c w = (a, w1, ev1) /\ k a w1 = (b, w2, ev2) /\ ev = ev1 ++ ev2.
Proof.
  unfold bind. destruct (c w) as [[a w1] ev1].
  destruct (k a w1) as [[b' w2'] ev2] eqn:Hk.
  intros H. inversion H; subst. eauto 10.
Qed.
End MonadFacts.

(** ** Configuration (migrate.go) *)

Lemma eqb_empty_false (s : string) : s <> "" -> String.eqb s "" = false.
Proof. intros H. apply String.eqb_neq. exact H. Qed.

(** The part of the validation that the code carries out: it fails with
    the invalid-configuration error whenever the URI, the user name or the
    password is missing, and whenever neither a migrations directory nor a
    migrations file system is given; [New] and [NewWithDriver] then return
    that error without any input or output. Every other configuration is
    accepted. *)
Theorem validateConfig_rejects_missing (cfg : Config) :
  (URI cfg = "" \/ Username cfg = "" \/ Password cfg = ""
   \/ (MigrationsDir cfg = "" /\ MigrationsFS cfg = None) ->
   exists err,
     validateConfig cfg = Some err
     /\ errors_Is err ErrInvalidConfig = true
     /\ forall (G : GoLib) (St DB : Type) (neo4j : Neo4j St DB) drv,
         New neo4j cfg = (None, Some err, [])
         /\ NewWithDriver neo4j drv cfg = (None, Some err, []))
  /\ (URI cfg <> "" -> Username cfg <> "" -> Password cfg <> "" ->
      MigrationsDir cfg <> "" \/ MigrationsFS cfg <> None ->
      validateConfig cfg = None).
Proof.
  split.
  - intros H.
    assert (Hv : exists err, validateConfig cfg = Some err
                             /\ errors_Is err ErrInvalidConfig = true).
    { unfold validateConfig.
      destruct (String.eqb_spec (URI cfg) "") as [|Hu]; [eexists; split; reflexivity|].
      destruct (String.eqb_spec (Username cfg) "") as [|Hn]; [eexists; split; reflexivity|].
      destruct (String.eqb_spec (Password cfg) "") as [|Hp]; [eexists; split; reflexivity|].
      destruct H as [H|[H|[H|[Hd Hf]]]]; try contradiction.
      rewrite Hd, Hf. simpl. eexists; split; reflexivity. }
    destruct Hv as (err & Hv & His). exists err. split; [exact Hv|]. split; [exact His|].
    intros G St DB neo4j drv. unfold New, NewWithDriver. rewrite Hv. split; reflexivity.
  - intros Hu Hn Hp Hsrc. unfold validateConfig.
    rewrite (eqb_empty_false _ Hu), (eqb_empty_false _ Hn), (eqb_empty_false _ Hp).
    destruct Hsrc as [Hd|Hf].
    + rewrite (eqb_empty_false _ Hd). reflexivity.
    + destruct (MigrationsFS cfg); [|contradiction].
      simpl. rewrite andb_false_r. reflexivity.
Qed.

Lemma validateConfig_rejects_missing_witness :
  exists err,
    validateConfig noURI = Some err
    /\ errors_Is err ErrInvalidConfig = true
    /\ forall (G : GoLib) (St DB : Type) (neo4j : Neo4j St DB) drv,
        New neo4j noURI = (None, Some err, [])
        /\ NewWithDriver neo4j drv noURI = (None, Some err, []).
Proof.
  apply (proj1 (validateConfig_rejects_missing noURI)). left. reflexivity.
Defined.

(** C9. The claim asks validation to fail when both a migrations directory
    and a migrations file system are given, and the documentation of
    [Config] calls the two mutually exclusive; the code accepts such a
    configuration. *)
Lemma validateConfig_accepts_both_sources :
  MigrationsDir bothSources <> "" /\ MigrationsFS bothSources <> None
  /\ validateConfig bothSources = None.
Proof. repeat split; discriminate. Qed.

(** ** Negative targets (migrator.go) *)

(** C2 (as amended). For a negative target [UpTo] and [DownTo] first call
    [Init] on the storage; they return the error of [Init] when it fails
    and the invalid-version error otherwise, and make no other call: no
    record is read, written or removed and no script is executed. *)
Theorem negative_target_rejected_after_Init {St DB : Type} (m : migrator St DB)
    (targetVersion : Z) (w : world St DB) :
  targetVersion < 0 ->
  let '(initErr, s) := Init (storage m) (store w) in
  UpTo m targetVersion w
    = (Some (default ErrInvalidVersion initErr), World s (db w), [StorageInit])
  /\ DownTo m targetVersion w
    = (Some (default ErrInvalidVersion initErr), World s (db w), [StorageInit]).
Proof.
  intros Hneg.
  destruct (Init (storage m) (store w)) as [initErr s] eqn:HInit.
  assert (Hlt : (targetVersion <? 0) = true) by (apply Z.ltb_lt; exact Hneg).
  unfold UpTo, DownTo, bind, storage_Init. rewrite HInit.
  destruct initErr as [err|]; simpl; [split; reflexivity|].
  rewrite Hlt. simpl. split; reflexivity.
Qed.

Lemma negative_target_rejected_after_Init_witness :
  UpTo (testMigrator [initial]) (-1) freshWorld
    = (Some ErrInvalidVersion, freshWorld, [StorageInit])
  /\ DownTo (testMigrator [initial]) (-1) freshWorld
    = (Some ErrInvalidVersion, freshWorld, [StorageInit]).
Proof.
  apply (negative_target_rejected_after_Init (testMigrator [initial]) (-1) freshWorld).
  reflexivity.
Defined.

(** C2, as stated, fails: the storage is called before the target is
    looked at, and when that call fails its error is the one returned. *)
Lemma negative_target_calls_storage_first :
  storageCalls (snd (UpTo (testMigrator [initial]) (-1) freshWorld)) <> []
  /\ storageCalls (snd (DownTo (testMigrator [initial]) (-1) freshWorld)) <> []
  /\ fst (fst (UpTo (testMigrator [initial]) (-1) (worldOf initFails)))
     <> Some ErrInvalidVersion
  /\ fst (fst (DownTo (testMigrator [initial]) (-1) (worldOf initFails)))
     <> Some ErrInvalidVersion.
Proof. repeat split; discriminate. Qed.

(** ** Traces *)

Lemma recorded_app ev1 ev2 : recorded (ev1 ++ ev2) = recorded ev1 ++ recorded ev2.
Proof. apply omap_app. Qed.

Lemma removed_app ev1 ev2 : removed (ev1 ++ ev2) = removed ev1 ++ removed ev2.
Proof. apply omap_app. Qed.

Lemma executed_app ev1 ev2 : executed (ev1 ++ ev2) = executed ev1 ++ executed ev2.
Proof. apply omap_app. Qed.

Lemma statements_app ev1 ev2 : statements (ev1 ++ ev2) = statements ev1 ++ statements ev2.
Proof. apply omap_app. Qed.

Lemma attempted_app ev1 ev2 : attempted (ev1 ++ ev2) = attempted ev1 ++ attempted ev2.
Proof. apply omap_app. Qed.

Lemma effects_app ev1 ev2 : effects (ev1 ++ ev2) = effects ev1 ++ effects ev2.
Proof. apply List.filter_app. Qed.

Lemma storageCalls_app ev1 ev2 :
  storageCalls (ev1 ++ ev2) = storageCalls ev1 ++ storageCalls ev2.
Proof. apply List.filter_app. Qed.

Lemma recorded_effects ev : recorded (effects ev) = recorded ev.
Proof.
  induction ev as [|e ev IH]; [reflexivity|].
  destruct e; simpl; try exact IH. unfold recorded in *. simpl. f_equal. exact IH.
Qed.

Lemma removed_effects ev : removed (effects ev) = removed ev.
Proof.
  induction ev as [|e ev IH]; [reflexivity|].
  destruct e; simpl; try exact IH. unfold removed in *. simpl. f_equal. exact IH.
Qed.

Lemma executed_effects ev : executed (effects ev) = executed ev.
Proof.
  induction ev as [|e ev IH]; [reflexivity|].
  destruct e; simpl; try exact IH. unfold executed in *. simpl. f_equal. exact IH.
Qed.

Lemma driverEvents_silent ev :
  forallb isDriverEvent ev = true ->
  effects ev = [] /\ attempted ev = [] /\ storageCalls ev = []
  /\ List.filter isWarning ev = [].
Proof.
  induction ev as [|e ev IH]; [repeat split|].
  simpl. intros H. apply andb_prop in H as [He Hev]. specialize (IH Hev).
  destruct IH as (IH1 & IH2 & IH3 & IH4).
  destruct e as [| | | | | | | |lvl msg args]; try discriminate He.
  - repeat split; assumption.
  - destruct lvl; try discriminate He. repeat split; assumption.
Qed.

(** ** Script execution *)

Section Execution.
Context {St DB : Type} (m : migrator St DB).

Lemma runStatements_run (d : Driver DB) (stmts : list string) (w : world St DB) :
  exists err w' ev,
    runStatements m d stmts w = (err, w', ev)
    /\ store w' = store w
    /\ forallb isDriverEvent ev = true
    /\ ((forall databaseName stmt x, fst (Run d databaseName stmt x) = None) -> err = None).
Proof.
  revert w. induction stmts as [|stmt rest IH]; intros w.
  - exists None, w, []. repeat split.
  - simpl. destruct (String.eqb (TrimSpace stmt) ""); [apply IH|].
    unfold bind, logger, emit, tx_Run.
    destruct (Run d (database m) (TrimSpace stmt) (db w)) as [rerr db'] eqn:HRun.
    destruct rerr as [cause|].
    + simpl. eexists _, _, _. split; [reflexivity|]. repeat split.
      intros Hnever. specialize (Hnever (database m) (TrimSpace stmt) (db w)).
      rewrite HRun in Hnever. simpl in Hnever. discriminate Hnever.
    + destruct (IH (World (store w) db')) as (err & w' & ev & Hrun & Hstore & Hev & Hok).
      rewrite Hrun. simpl. eexists _, _, _. split; [reflexivity|].
      repeat split; assumption.
Qed.

(** What one script execution does: it is entered, touches no applied
    record, and only statements and their log lines follow. *)
Lemma executeMigration_run (sql : string) (w : world St DB) :
  exists err w' ev,
    executeMigration m sql w = (err, w', Executing sql :: ev)
    /\ store w' = store w
    /\ forallb isDriverEvent ev = true
    /\ (driverNeverFails m -> err = None)
    /\ (driver m = None -> err = None /\ w' = w /\ ev = []).
Proof.
  unfold executeMigration, driverNeverFails, bind, emit.
  destruct (driver m) as [d|].
  - unfold ExecuteWrite.
    destruct (runStatements_run d (splitStatements sql) w)
      as (err & w' & ev & Hrun & Hstore & Hev & Hok).
    rewrite Hrun. destruct err as [cause|].
    + eexists _, _, _. split; [reflexivity|]. simpl.
      split; [exact Hstore|]. split; [exact Hev|]. split; [exact Hok|discriminate].
    + eexists _, _, _. split; [reflexivity|].
      split; [exact Hstore|]. split; [exact Hev|]. split; [reflexivity|discriminate].
  - exists None, w, []. repeat split.
Qed.

(** The three ways one application ends: the script fails; the script
    runs and the record is refused; the script runs and the record is
    written. *)
Lemma applyMigration_cases (mg : Migration) (w : world St DB) :
  exists xerr wx evx,
    executeMigration m (Migration.UpSQL mg) w
      = (xerr, wx, Executing (Migration.UpSQL mg) :: evx)
    /\ store wx = store w
    /\ forallb isDriverEvent evx = true
    /\ match xerr with
       | Some cause =>
           applyMigration m mg w
             = (Some (applyError mg cause), wx,
                applying mg :: Executing (Migration.UpSQL mg) :: evx)
       | None =>
           exists rerr s',
             RecordMigration (storage m) mg (store w) = (rerr, s')
             /\ applyMigration m mg w
                = (option_map (recordError mg) rerr, World s' (db wx),
                   applying mg :: Executing (Migration.UpSQL mg) :: evx
                     ++ StorageRecordMigration mg
                        :: match rerr with None => [applied_ok mg] | Some _ => [] end)
       end.
Proof.
  destruct (executeMigration_run (Migration.UpSQL mg) w)
    as (xerr & wx & evx & Hrun & Hstore & Hev & _).
  exists xerr, wx, evx. repeat split; try assumption.
  unfold applyMigration, bind, logger, emit. rewrite Hrun.
  destruct xerr as [cause|]; [unfold ret; simpl; rewrite app_nil_r; reflexivity|].
  unfold storage_RecordMigration. rewrite Hstore.
  destruct (RecordMigration (storage m) mg (store w)) as [rerr s'] eqn:HRec.
  exists rerr, s'. split; [reflexivity|].
  destruct rerr; unfold ret; simpl; rewrite ?app_nil_r; reflexivity.
Qed.

Lemma rollbackMigration_cases (mg : Migration) (w : world St DB) :
  exists xerr wx evx,
    executeMigration m (Migration.DownSQL mg) w
      = (xerr, wx, Executing (Migration.DownSQL mg) :: evx)
    /\ store wx = store w
    /\ forallb isDriverEvent evx = true
    /\ match xerr with
       | Some cause =>
           rollbackMigration m mg w
             = (Some (rollbackError mg cause), wx,
                rollingBack mg :: Executing (Migration.DownSQL mg) :: evx)
       | None =>
           exists rerr s',
             RemoveMigration (storage m) (Migration.Version mg) (store w) = (rerr, s')
             /\ rollbackMigration m mg w
                = (option_map (removeError mg) rerr, World s' (db wx),
                   rollingBack mg :: Executing (Migration.DownSQL mg) :: evx
                     ++ StorageRemoveMigration (Migration.Version mg)
                        :: match rerr with None => [rolledBack mg] | Some _ => [] end)
       end.
Proof.
  destruct (executeMigration_run (Migration.DownSQL mg) w)
    as (xerr & wx & evx & Hrun & Hstore & Hev & _).
  exists xerr, wx, evx. repeat split; try assumption.
  unfold rollbackMigration, bind, logger, emit. rewrite Hrun.
  destruct xerr as [cause|]; [unfold ret; simpl; rewrite app_nil_r; reflexivity|].
  unfold storage_RemoveMigration. rewrite Hstore.
  destruct (RemoveMigration (storage m) (Migration.Version mg) (store w))
    as [rerr s'] eqn:HRem.
  exists rerr, s'. split; [reflexivity|].
  destruct rerr; unfold ret; simpl; rewrite ?app_nil_r; reflexivity.
Qed.
End Execution.

(** ** The applied versions *)

Lemma isApplied_foldl (applied : list MigrationRecord) (acc : gmap Z bool) (v : Z) :
  isApplied
    (foldl (fun versions record => <[MigrationRecord.Version record := true]> versions)
       acc applied) v
  = versionApplied applied v || isApplied acc v.
Proof.
  revert acc. induction applied as [|r applied IH]; intros acc; [reflexivity|].
  simpl. rewrite IH. unfold isApplied.
  destruct (Z.eqb_spec (MigrationRecord.Version r) v) as [->|Hne].
  - rewrite lookup_insert_eq. simpl. rewrite orb_true_r. reflexivity.
  - rewrite lookup_insert_ne by exact Hne. reflexivity.
Qed.

Lemma isApplied_appliedVersionsOf (applied : list MigrationRecord) (v : Z) :
  isApplied (appliedVersionsOf applied) v = versionApplied applied v.
Proof.
  unfold appliedVersionsOf. rewrite isApplied_foldl.
  unfold isApplied. rewrite lookup_empty. simpl. apply orb_false_r.
Qed.

Lemma versionApplied_true (applied : list MigrationRecord) (v : Z) :
  versionApplied applied v = true
  <-> exists record, In record applied /\ MigrationRecord.Version record = v.
Proof.
  unfold versionApplied. rewrite existsb_exists.
  split; intros (r & Hin & Hv); exists r; split; try exact Hin.
  - apply Z.eqb_eq. exact Hv.
  - apply Z.eqb_eq. exact Hv.
Qed.

(** ** Sorted declared sequences *)

#[global] Instance ascending_transitive : Transitive ascending.
Proof. intros a b c. unfold ascending. lia. Qed.

Lemma ascending_tail (mg : Migration) (rest : list Migration) :
  Sorted ascending (mg :: rest) ->
  Sorted ascending rest /\ Forall (ascending mg) rest.
Proof.
  intros H. apply (Sorted_StronglySorted _) in H. inversion H; subst.
  split; [apply StronglySorted_Sorted|]; assumption.
Qed.

Lemma pendingUpTo_above (targetVersion : Z) applied (ms : list Migration) :
  Forall (fun mg => targetVersion < Migration.Version mg) ms ->
  pendingUpTo targetVersion applied ms = [].
Proof.
  induction 1 as [|mg rest Hmg _ IH]; [reflexivity|].
  unfold pendingUpTo in *. simpl.
  replace (Migration.Version mg <=? targetVersion) with false
    by (symmetry; apply Z.leb_gt; exact Hmg).
  exact IH.
Qed.

Lemma pendingUpTo_all (targetVersion : Z) applied (ms : list Migration) :
  Forall (fun mg => Migration.Version mg <= targetVersion) ms ->
  pendingUpTo targetVersion applied ms = pending applied ms.
Proof.
  induction 1 as [|mg rest Hmg _ IH]; [reflexivity|].
  unfold pendingUpTo, pending in *. simpl.
  replace (Migration.Version mg <=? targetVersion) with true
    by (symmetry; apply Z.leb_le; exact Hmg).
  simpl. rewrite IH. reflexivity.
Qed.

(** ** The loops of [Up] and [UpTo] *)

Section Applying.
Context {St DB : Type} (m : migrator St DB).

Lemma applyMigration_effects (mg : Migration) (w w' : world St DB) ev :
  applyMigration m mg w = (None, w', ev) ->
  effects ev = [Executing (Migration.UpSQL mg); StorageRecordMigration mg]
  /\ attempted ev = [Migration.Version mg]
  /\ exists s', RecordMigration (storage m) mg (store w) = (None, s') /\ store w' = s'.
Proof.
  destruct (applyMigration_cases m mg w) as (xerr & wx & evx & _ & _ & Hev & Hcase).
  apply driverEvents_silent in Hev as (Heff & Hatt & _ & _).
  destruct xerr as [cause|].
  - rewrite Hcase. discriminate.
  - destruct Hcase as (rerr & s' & HRec & ->). destruct rerr; [discriminate|].
    intros H. inversion H; subst. split; [|split].
    + change (applying mg :: Executing (Migration.UpSQL mg)
                :: evx ++ [StorageRecordMigration mg; applied_ok mg])
        with ([applying mg; Executing (Migration.UpSQL mg)]
                ++ evx ++ [StorageRecordMigration mg; applied_ok mg]).
      rewrite !effects_app, Heff. reflexivity.
    + change (applying mg :: Executing (Migration.UpSQL mg)
                :: evx ++ [StorageRecordMigration mg; applied_ok mg])
        with ([applying mg; Executing (Migration.UpSQL mg)]
                ++ evx ++ [StorageRecordMigration mg; applied_ok mg]).
      rewrite !attempted_app, Hatt. reflexivity.
    + exists s'. split; [exact HRec|reflexivity].
Qed.

Lemma UpTo_loop_effects (targetVersion : Z) (applied : list MigrationRecord)
    (ms : list Migration) (w w' : world St DB) ev :
  Sorted ascending ms ->
  UpTo_loop m targetVersion (appliedVersionsOf applied) ms w = (None, w', ev) ->
  effects ev = applyEffects (pendingUpTo targetVersion applied ms).
Proof.
  revert w ev. induction ms as [|mg rest IH]; intros w ev Hsorted Hrun.
  - inversion Hrun; subst. reflexivity.
  - apply ascending_tail in Hsorted as [Hrest Hall]. simpl in Hrun.
    destruct (Z.ltb_spec targetVersion (Migration.Version mg)) as [Habove|Hbelow].
    + inversion Hrun; subst. rewrite pendingUpTo_above; [reflexivity|].
      constructor; [exact Habove|].
      eapply Forall_impl; [exact Hall|]. unfold ascending. intros; lia.
    + unfold pendingUpTo. simpl.
      replace (Migration.Version mg <=? targetVersion) with true
        by (symmetry; apply Z.leb_le; exact Hbelow).
      rewrite isApplied_appliedVersionsOf in Hrun. simpl.
      destruct (versionApplied applied (Migration.Version mg)); simpl.
      * apply bind_inv in Hrun as (? & w1 & ev1 & ev2 & Hskip & Hloop & ->).
        inversion Hskip; subst. rewrite effects_app. simpl.
        apply (IH _ _ Hrest Hloop).
      * apply bind_inv in Hrun as (err & w1 & ev1 & ev2 & Happly & Hloop & ->).
        destruct err as [err|]; [discriminate Hloop|].
        apply applyMigration_effects in Happly as (Heff & _).
        rewrite effects_app, Heff. simpl. do 2 f_equal.
        apply (IH _ _ Hrest Hloop).
Qed.

Lemma Up_loop_effects (applied : list MigrationRecord) (ms : list Migration)
    (w w' : world St DB) ev :
  Up_loop m (appliedVersionsOf applied) ms w = (None, w', ev) ->
  effects ev = applyEffects (pending applied ms).
Proof.
  revert w ev. induction ms as [|mg rest IH]; intros w ev Hrun.
  - inversion Hrun; subst. reflexivity.
  - simpl in Hrun. unfold pending. simpl.
    rewrite isApplied_appliedVersionsOf in Hrun.
    destruct (versionApplied applied (Migration.Version mg)); simpl.
    + apply bind_inv in Hrun as (? & w1 & ev1 & ev2 & Hskip & Hloop & ->).
      inversion Hskip; subst. rewrite effects_app. simpl. apply (IH _ _ Hloop).
    + apply bind_inv in Hrun as (err & w1 & ev1 & ev2 & Happly & Hloop & ->).
      destruct err as [err|]; [discriminate Hloop|].
      apply applyMigration_effects in Happly as (Heff & _).
      rewrite effects_app, Heff. simpl. do 2 f_equal. apply (IH _ _ Hloop).
Qed.

Lemma UpTo_loop_all (targetVersion : Z) (versions : gmap Z bool) (ms : list Migration)
    (w : world St DB) :
  Forall (fun mg => Migration.Version mg <= targetVersion) ms ->
  UpTo_loop m targetVersion versions ms w = Up_loop m versions ms w.
Proof.
  intros Hall. revert w. induction Hall as [|mg rest Hmg _ IH]; intros w; [reflexivity|].
  simpl.
  replace (targetVersion <? Migration.Version mg) with false
    by (symmetry; apply Z.ltb_ge; exact Hmg).
  destruct (isApplied versions (Migration.Version mg)).
  - unfold bind. destruct (skipMigration mg w) as [[u w1] ev1]. rewrite IH. reflexivity.
  - unfold bind. destruct (applyMigration m mg w) as [[err w1] ev1].
    destruct err; [reflexivity|]. rewrite IH. reflexivity.
Qed.

(** With collaborators that do not fail the loop goes through. *)
Lemma UpTo_loop_succeeds (ok : St -> Prop) (targetVersion : Z) (versions : gmap Z bool)
    (ms : list Migration) (w : world St DB) :
  driverNeverFails m ->
  (forall mg s, ok s -> exists s', RecordMigration (storage m) mg s = (None, s') /\ ok s') ->
  ok (store w) ->
  fst (fst (UpTo_loop m targetVersion versions ms w)) = None.
Proof.
  intros Hdrv Hrec Hok0. revert w Hok0.
  induction ms as [|mg rest IH]; intros w Hok0; [reflexivity|].
  simpl. destruct (targetVersion <? Migration.Version mg); [reflexivity|].
  destruct (isApplied versions (Migration.Version mg)).
  - unfold bind, skipMigration, logger, emit. specialize (IH w Hok0).
    destruct (UpTo_loop m targetVersion versions rest w) as [[e w2] ev2].
    exact IH.
  - destruct (applyMigration_cases m mg w) as (xerr & wx & evx & Hx & _ & _ & Hcase).
    destruct (executeMigration_run m (Migration.UpSQL mg) w)
      as (xerr' & wx' & evx' & Hx' & _ & _ & Hok & _).
    rewrite Hx in Hx'. inversion Hx'; subst xerr'. rewrite (Hok Hdrv) in Hcase.
    destruct Hcase as (rerr & s' & HRec & Happly).
    destruct (Hrec mg _ Hok0) as (s'' & HRec' & Hok1).
    rewrite HRec in HRec'. inversion HRec'; subst rerr s''.
    unfold bind. rewrite Happly. simpl.
    specialize (IH (World s' (db wx)) Hok1).
    destruct (UpTo_loop m targetVersion versions rest (World s' (db wx))) as [[e w2] ev2].
    exact IH.
Qed.
End Applying.

(** ** The storage double *)

Lemma mockStorage_neverFails : neverFails mockStorage_Storage noHooks.
Proof.
  unfold neverFails, noHooks. simpl.
  unfold mock_Init, mock_GetAppliedMigrations, mock_RecordMigration, mock_RemoveMigration.
  repeat split; intros;
    repeat match goal with H : _ /\ _ |- _ => destruct H end;
    repeat match goal with H : _ = None |- _ => rewrite H end;
    eauto 10.
Qed.

(** ** [UpTo] *)

Lemma recorded_applyEffects (ms : list Migration) : recorded (applyEffects ms) = ms.
Proof. induction ms as [|mg ms IH]; [reflexivity|]. simpl. f_equal. exact IH. Qed.

Lemma executed_applyEffects (ms : list Migration) :
  executed (applyEffects ms) = map Migration.UpSQL ms.
Proof. induction ms as [|mg ms IH]; [reflexivity|]. simpl. f_equal. exact IH. Qed.

Lemma removed_applyEffects (ms : list Migration) : removed (applyEffects ms) = [].
Proof. induction ms as [|mg ms IH]; [reflexivity|]. simpl. exact IH. Qed.

Section UpToFacts.
Context {St DB : Type} (m : migrator St DB).

Lemma UpTo_run (targetVersion : Z) (w : world St DB) s1 applied s2 :
  0 <= targetVersion ->
  Init (storage m) (store w) = (None, s1) ->
  GetAppliedMigrations (storage m) s1 = (applied, None, s2) ->
  UpTo m targetVersion w
  = (let '(err, w', ev) :=
       UpTo_loop m targetVersion (appliedVersionsOf applied) (migrations m)
         (World s2 (db w)) in
     (err, w', [StorageInit; StorageGetAppliedMigrations] ++ ev)).
Proof.
  intros Hpos HInit HGet.
  unfold UpTo, bind, storage_Init, storage_GetAppliedMigrations. rewrite HInit. simpl.
  replace (targetVersion <? 0) with false by (symmetry; apply Z.ltb_ge; exact Hpos).
  cbn [store db]. rewrite HGet. simpl.
  destruct (UpTo_loop m targetVersion (appliedVersionsOf applied) (migrations m)
              (World s2 (db w))) as [[err w'] ev].
  reflexivity.
Qed.

Lemma Up_run (w : world St DB) s1 applied s2 :
  Init (storage m) (store w) = (None, s1) ->
  GetAppliedMigrations (storage m) s1 = (applied, None, s2) ->
  Up m w
  = (let '(err, w', ev) :=
       Up_loop m (appliedVersionsOf applied) (migrations m) (World s2 (db w)) in
     (err, w', [StorageInit; StorageGetAppliedMigrations] ++ ev)).
Proof.
  intros HInit HGet.
  unfold Up, bind, storage_Init, storage_GetAppliedMigrations. rewrite HInit. simpl.
  cbn [store db]. rewrite HGet. simpl.
  destruct (Up_loop m (appliedVersionsOf applied) (migrations m) (World s2 (db w)))
    as [[err w'] ev].
  reflexivity.
Qed.

Lemma UpTo_all (targetVersion : Z) (w : world St DB) :
  0 <= targetVersion ->
  Forall (fun mg => Migration.Version mg <= targetVersion) (migrations m) ->
  UpTo m targetVersion w = Up m w.
Proof.
  intros Hpos Hall. unfold UpTo, Up, bind.
  destruct (storage_Init m w) as [[ierr w1] ev1]. destruct ierr; [reflexivity|].
  replace (targetVersion <? 0) with false by (symmetry; apply Z.ltb_ge; exact Hpos).
  destruct (storage_GetAppliedMigrations m w1) as [[[applied gerr] w2] ev2].
  destruct gerr; [reflexivity|].
  rewrite UpTo_loop_all by exact Hall. reflexivity.
Qed.
End UpToFacts.

(** C5. For a target that is not negative and a declared sequence in
    ascending order (as the parser leaves it): a successful [UpTo] executes
    and records, in declared order, exactly the declared migrations of a
    version at most the target that were not among the applied records, and
    nothing else; when no declared version exceeds the target [UpTo] is
    [Up]; and whether the target is a declared version plays no role: with
    collaborators that do not fail, [UpTo] returns no error. *)
Theorem UpTo_applies_up_to_target {St DB : Type} (m : migrator St DB)
    (targetVersion : Z) (w : world St DB) :
  0 <= targetVersion ->
  Sorted ascending (migrations m) ->
  (forall s1 applied s2 w' ev,
      Init (storage m) (store w) = (None, s1) ->
      GetAppliedMigrations (storage m) s1 = (applied, None, s2) ->
      UpTo m targetVersion w = (None, w', ev) ->
      effects ev = applyEffects (pendingUpTo targetVersion applied (migrations m))
      /\ recorded ev = pendingUpTo targetVersion applied (migrations m)
      /\ executed ev
         = map Migration.UpSQL (pendingUpTo targetVersion applied (migrations m))
      /\ removed ev = [])
  /\ (Forall (fun mg => Migration.Version mg <= targetVersion) (migrations m) ->
      UpTo m targetVersion w = Up m w)
  /\ (forall ok : St -> Prop,
      driverNeverFails m -> neverFails (storage m) ok -> ok (store w) ->
      fst (fst (UpTo m targetVersion w)) = None).
Proof.
  intros Hpos Hsorted. split; [|split].
  - intros s1 applied s2 w' ev HInit HGet Hrun.
    rewrite (UpTo_run m targetVersion w s1 applied s2 Hpos HInit HGet) in Hrun.
    destruct (UpTo_loop m targetVersion (appliedVersionsOf applied) (migrations m)
                (World s2 (db w))) as [[err w1] ev1] eqn:Hloop.
    injection Hrun as -> _ <-.
    assert (Heff : effects (StorageInit :: StorageGetAppliedMigrations :: ev1)
                   = applyEffects (pendingUpTo targetVersion applied (migrations m))).
    { apply (UpTo_loop_effects m _ _ _ _ _ _ Hsorted Hloop). }
    split; [exact Heff|].
    rewrite <- recorded_effects, <- executed_effects, <- removed_effects, Heff.
    rewrite recorded_applyEffects, executed_applyEffects, removed_applyEffects.
    repeat split.
  - apply UpTo_all. exact Hpos.
  - intros ok Hdrv (HInit & HGet & HRec & _) Hok0.
    destruct (HInit _ Hok0) as (s1 & HI & Hok1).
    destruct (HGet _ Hok1) as (applied & s2 & HG & Hok2).
    rewrite (UpTo_run m targetVersion w s1 applied s2 Hpos HI HG).
    pose proof (UpTo_loop_succeeds m ok targetVersion (appliedVersionsOf applied)
                  (migrations m) (World s2 (db w)) Hdrv HRec Hok2) as Hok.
    destruct (UpTo_loop m targetVersion (appliedVersionsOf applied) (migrations m)
                (World s2 (db w))) as [[err w1] ev1].
    exact Hok.
Qed.

Lemma declared_sorted : Sorted ascending [initial; indexes; more].
Proof. repeat constructor; unfold ascending; simpl; lia. Qed.

Lemma UpTo_applies_up_to_target_witness :
  recorded (snd (UpTo (testMigrator [initial; indexes; more]) 2 freshWorld))
  = [initial; indexes]
  /\ UpTo (testMigrator [initial; indexes; more]) 3 freshWorld
     = Up (testMigrator [initial; indexes; more]) freshWorld.
Proof.
  destruct (UpTo_applies_up_to_target (testMigrator [initial; indexes; more]) 2 freshWorld
              ltac:(lia) declared_sorted) as (Hexact & _ & _).
  destruct (UpTo_applies_up_to_target (testMigrator [initial; indexes; more]) 3 freshWorld
              ltac:(lia) declared_sorted) as (_ & Hall & _).
  split.
  - destruct (UpTo (testMigrator [initial; indexes; more]) 2 freshWorld)
      as [[err w'] ev] eqn:Hrun.
    assert (Herr : err = None) by (vm_compute in Hrun; congruence). subst err.
    destruct (Hexact newMockStorage [] newMockStorage w' ev eq_refl eq_refl eq_refl)
      as (_ & Hrec & _).
    exact Hrec.
  - apply Hall. repeat constructor; simpl; lia.
Defined.

(** ** Without a driver *)

Section NilDriver.
Context {St DB : Type} (m : migrator St DB).

Lemma Up_loop_nil_driver (ok : St -> Prop) (versions : gmap Z bool)
    (ms : list Migration) (w : world St DB) :
  driver m = None ->
  (forall mg s, ok s -> exists s', RecordMigration (storage m) mg s = (None, s') /\ ok s') ->
  ok (store w) ->
  (forall v, isApplied versions v = false) ->
  exists w' ev,
    Up_loop m versions ms w = (None, w', ev)
    /\ recorded ev = ms /\ statements ev = [] /\ db w' = db w.
Proof.
  intros Hnil Hrec Hok0 Hnone. revert w Hok0.
  induction ms as [|mg rest IH]; intros w Hok0.
  - exists w, []. repeat split.
  - simpl. rewrite Hnone.
    destruct (applyMigration_cases m mg w) as (xerr & wx & evx & Hx & _ & _ & Hcase).
    destruct (executeMigration_run m (Migration.UpSQL mg) w)
      as (xerr' & wx' & evx' & Hx' & _ & _ & _ & Hok).
    rewrite Hx in Hx'. inversion Hx'; subst xerr' wx' evx'.
    destruct (Hok Hnil) as (-> & -> & ->).
    destruct Hcase as (rerr & s' & HRec & Happly).
    destruct (Hrec mg _ Hok0) as (s'' & HRec' & Hok1).
    rewrite HRec in HRec'. inversion HRec'; subst rerr s''.
    unfold bind. rewrite Happly. simpl.
    destruct (IH (World s' (db w)) Hok1) as (w' & ev & Hloop & Hrecd & Hst & Hdb).
    rewrite Hloop. eexists _, _. split; [reflexivity|].
    split; [|split].
    + unfold recorded in *. simpl. f_equal. exact Hrecd.
    + unfold statements in *. simpl. exact Hst.
    + exact Hdb.
Qed.
End NilDriver.

(** C10. With a nil driver [executeMigration] does nothing and returns no
    error; so [Up], on a storage that holds no applied record and accepts
    the records it is given, hands every declared migration to
    [RecordMigration], in declared order, runs no statement, leaves the
    database alone and returns no error. *)
Theorem nil_driver_records_without_executing {St DB : Type} (m : migrator St DB)
    (w : world St DB) (s1 s2 : St) (ok : St -> Prop) :
  driver m = None ->
  Init (storage m) (store w) = (None, s1) ->
  GetAppliedMigrations (storage m) s1 = ([], None, s2) ->
  neverFails (storage m) ok -> ok s2 ->
  (forall sql w0, executeMigration m sql w0 = (None, w0, [Executing sql]))
  /\ exists w' ev,
      Up m w = (None, w', ev)
      /\ recorded ev = migrations m /\ statements ev = [] /\ db w' = db w.
Proof.
  intros Hnil HInit HGet (_ & _ & HRec & _) Hok. split.
  - intros sql w0. unfold executeMigration. rewrite Hnil. reflexivity.
  - rewrite (Up_run m w s1 [] s2 HInit HGet).
    destruct (Up_loop_nil_driver m ok (appliedVersionsOf []) (migrations m)
                (World s2 (db w)) Hnil HRec Hok)
      as (w' & ev & Hloop & Hrecd & Hst & Hdb).
    { intros v. rewrite isApplied_appliedVersionsOf. reflexivity. }
    rewrite Hloop. eexists _, _. split; [reflexivity|].
    repeat split; assumption.
Qed.

Lemma nil_driver_records_without_executing_witness :
  exists w' ev,
    Up (testMigrator [initial; indexes; more]) freshWorld = (None, w', ev)
    /\ recorded ev = [initial; indexes; more] /\ statements ev = [] /\ db w' = tt.
Proof.
  apply (nil_driver_records_without_executing (testMigrator [initial; indexes; more])
           freshWorld newMockStorage newMockStorage noHooks eq_refl eq_refl eq_refl
           mockStorage_neverFails).
  repeat split.
Defined.

(** ** Status *)

Lemma find_app_first {A : Type} (p : A -> bool) (l1 l2 : list A) :
  List.find p (l1 ++ l2)
  = match List.find p l1 with
    | Some x => Some x
    | None => List.find p l2
    end.
Proof.
  induction l1 as [|x l1 IH]; [reflexivity|].
  simpl. destruct (p x); [reflexivity|exact IH].
Qed.

Lemma lookup_appliedMap_foldl (applied : list MigrationRecord)
    (acc : gmap Z MigrationRecord) (v : Z) :
  foldl (fun records record => <[MigrationRecord.Version record := record]> records)
    acc applied !! v
  = match lastRecord applied v with
    | Some record => Some record
    | None => acc !! v
    end.
Proof.
  revert acc. induction applied as [|r applied IH]; intros acc; [reflexivity|].
  simpl. rewrite IH. unfold lastRecord. simpl. rewrite find_app_first.
  destruct (List.find _ (rev applied)); [reflexivity|].
  simpl. destruct (Z.eqb_spec (MigrationRecord.Version r) v) as [->|Hne].
  - apply lookup_insert_eq.
  - apply lookup_insert_ne. exact Hne.
Qed.

Lemma lookup_appliedMapOf (applied : list MigrationRecord) (v : Z) :
  appliedMapOf applied !! v = lastRecord applied v.
Proof.
  unfold appliedMapOf. rewrite lookup_appliedMap_foldl.
  destruct (lastRecord applied v); [reflexivity|apply lookup_empty].
Qed.

Lemma lastRecord_Some (applied : list MigrationRecord) (v : Z) (record : MigrationRecord) :
  lastRecord applied v = Some record ->
  In record applied /\ MigrationRecord.Version record = v.
Proof.
  unfold lastRecord. intros H. apply find_some in H as [Hin Hv].
  split; [apply in_rev; exact Hin|apply Z.eqb_eq; exact Hv].
Qed.

Lemma lastRecord_None (applied : list MigrationRecord) (v : Z) :
  lastRecord applied v = None ->
  forall record, In record applied -> MigrationRecord.Version record <> v.
Proof.
  unfold lastRecord. intros H record Hin.
  apply Z.eqb_neq. apply (find_none _ _ H). apply in_rev in Hin. exact Hin.
Qed.

Section StatusFacts.
Context {St DB : Type}.

Lemma Status_loop_run (applied : list MigrationRecord) (ms : list Migration)
    (statuses : list MigrationStatus) (w : world St DB) :
  Status_loop (appliedMapOf applied) ms statuses w
  = (statuses ++ map (statusRow applied) ms, w,
     map checksumMismatch (drifted applied ms)).
Proof.
  revert statuses. induction ms as [|mg rest IH]; intros statuses.
  - simpl. rewrite app_nil_r. reflexivity.
  - simpl. unfold statusRow at 1. unfold drifted. simpl.
    rewrite lookup_appliedMapOf.
    destruct (lastRecord applied (Migration.Version mg)) as [record|].
    + unfold bind.
      destruct (String.eqb (MigrationRecord.Checksum record) (Migration.Checksum mg));
        simpl; rewrite IH, <- app_assoc; reflexivity.
    + rewrite IH, <- app_assoc. reflexivity.
Qed.
End StatusFacts.

(** C8. When the storage answers, [Status] returns no error and one row per
    declared migration, in declared order (ascending when the declared
    sequence is): the row has the declared version, name and checksum; it
    is applied exactly when an applied record has its version, and then
    carries the time of that record (of the last one of them in the order
    of the storage); a stored checksum that differs from the declared one
    only adds a warning to the log. *)
Theorem Status_reports_declared {St DB : Type} (m : migrator St DB) (w : world St DB)
    (s1 s2 : St) (applied : list MigrationRecord) :
  Init (storage m) (store w) = (None, s1) ->
  GetAppliedMigrations (storage m) s1 = (applied, None, s2) ->
  let rows := map (statusRow applied) (migrations m) in
  Status m w
  = ((rows, None), World s2 (db w),
     [StorageInit; StorageGetAppliedMigrations]
       ++ map checksumMismatch (drifted applied (migrations m)))
  /\ length rows = length (migrations m)
  /\ map MigrationStatus.Version rows = map Migration.Version (migrations m)
  /\ map MigrationStatus.Checksum rows = map Migration.Checksum (migrations m)
  /\ (forall mg,
        (MigrationStatus.Applied (statusRow applied mg) = true
         <-> exists record,
              In record applied
              /\ MigrationRecord.Version record = Migration.Version mg)
        /\ match MigrationStatus.AppliedAt (statusRow applied mg) with
           | Some time =>
               MigrationStatus.Applied (statusRow applied mg) = true
               /\ exists record,
                    lastRecord applied (Migration.Version mg) = Some record
                    /\ In record applied
                    /\ MigrationRecord.AppliedAt record = time
           | None => MigrationStatus.Applied (statusRow applied mg) = false
           end)
  /\ (Sorted ascending (migrations m) ->
      Sorted Z.le (map MigrationStatus.Version rows)).
Proof.
  intros HInit HGet rows. split; [|split; [|split; [|split; [|split]]]].
  - unfold Status, bind, storage_Init, storage_GetAppliedMigrations.
    rewrite HInit. cbn [store db]. rewrite HGet. simpl.
    rewrite Status_loop_run. unfold ret. simpl. rewrite app_nil_r. reflexivity.
  - unfold rows. apply length_map.
  - unfold rows. rewrite map_map. apply map_ext.
    intros mg. unfold statusRow. destruct (lastRecord applied _); reflexivity.
  - unfold rows. rewrite map_map. apply map_ext.
    intros mg. unfold statusRow. destruct (lastRecord applied _); reflexivity.
  - intros mg. unfold statusRow.
    destruct (lastRecord applied (Migration.Version mg)) as [record|] eqn:Hlast; simpl.
    + destruct (lastRecord_Some _ _ _ Hlast) as [Hin Hv].
      split; [split; [intros _; exists record; split; assumption|reflexivity]|].
      split; [reflexivity|]. exists record. repeat split; assumption.
    + split; [|reflexivity]. split; [discriminate|].
      intros (record & Hin & Hv). exfalso.
      exact (lastRecord_None _ _ Hlast record Hin Hv).
  - intros Hsorted.
    assert (Hv : map MigrationStatus.Version rows = map Migration.Version (migrations m)).
    { unfold rows. rewrite map_map. apply map_ext.
      intros mg. unfold statusRow. destruct (lastRecord applied _); reflexivity. }
    rewrite Hv. clear Hv rows. induction Hsorted as [|mg rest Hs IH Hhd]; [constructor|].
    simpl. constructor; [exact IH|].
    destruct Hhd; simpl; constructor. assumption.
Qed.

Lemma Status_reports_declared_witness :
  fst (fst (Status declared (worldOf (withApplied [testRecord 1; testRecord 2]))))
  = ([MigrationStatus.mk 1 "initial" true (Some 0) "abc";
      MigrationStatus.mk 2 "indexes" true (Some 0) "def";
      MigrationStatus.mk 3 "more" false None "ghi"], None)
  /\ List.filter isWarning
       (snd (Status declared (worldOf (withApplied [testRecord 1; testRecord 2]))))
     = [checksumMismatch initial; checksumMismatch indexes].
Proof.
  destruct (Status_reports_declared declared
              (worldOf (withApplied [testRecord 1; testRecord 2]))
              (withApplied [testRecord 1; testRecord 2])
              (withApplied [testRecord 1; testRecord 2])
              [testRecord 1; testRecord 2] eq_refl eq_refl) as (Hrun & _).
  rewrite Hrun. split; reflexivity.
Defined.

(** ** Rolling back *)

#[global] Instance recordDescending_transitive : Transitive recordDescending.
Proof. intros a b c. unfold recordDescending. lia. Qed.

Lemma rev_descending (applied : list MigrationRecord) :
  Sorted recordAscending applied -> StronglySorted recordDescending (rev applied).
Proof.
  intros H. apply (Sorted_StronglySorted _). rewrite rev_alt.
  apply (Sorted_reverse recordAscending). exact H.
Qed.

Lemma StronglySorted_filter_bool {A : Type} (R : relation A) (p : A -> bool) (l : list A) :
  StronglySorted R l -> StronglySorted R (List.filter p l).
Proof.
  induction 1 as [|x l Hl IH Hx]; [constructor|].
  simpl. destruct (p x); [|exact IH].
  constructor; [exact IH|].
  rewrite List.Forall_forall in *. intros y Hy. apply Hx.
  apply List.filter_In in Hy as [Hy _]. exact Hy.
Qed.

Lemma none_above (targetVersion : Z) (record : MigrationRecord)
    (rest : list MigrationRecord) :
  MigrationRecord.Version record <= targetVersion ->
  Forall (recordDescending record) rest ->
  List.filter (recordAbove targetVersion) (record :: rest) = [].
Proof.
  intros Hle Hall. simpl. unfold recordAbove at 1.
  replace (targetVersion <? MigrationRecord.Version record) with false
    by (symmetry; apply Z.ltb_ge; exact Hle).
  induction Hall as [|r rest Hr _ IH]; [reflexivity|].
  simpl. unfold recordAbove at 1. unfold recordDescending in Hr.
  replace (targetVersion <? MigrationRecord.Version r) with false
    by (symmetry; apply Z.ltb_ge; lia).
  exact IH.
Qed.

Lemma removed_rollbackEffects_In {St DB : Type} (m : migrator St DB)
    (records : list MigrationRecord) (v : Z) :
  In v (removed (rollbackEffects m records)) ->
  exists record, In record records /\ MigrationRecord.Version record = v.
Proof.
  induction records as [|r records IH]; [intros []|].
  simpl. rewrite removed_app. intros H. apply in_app_or in H as [H|H].
  - destruct (findMigration m (MigrationRecord.Version r)); [|destruct H].
    simpl in H. destruct H as [<-|[]]. exists r. split; [left|]; reflexivity.
  - destruct (IH H) as (record & Hin & Hv). exists record. split; [right|]; assumption.
Qed.

Section RollingBack.
Context {St DB : Type} (m : migrator St DB).

Lemma rollbackEffects_cons (record : MigrationRecord) (records : list MigrationRecord) :
  rollbackEffects m (record :: records)
  = match findMigration m (MigrationRecord.Version record) with
    | Some mg => [Executing (Migration.DownSQL mg);
                  StorageRemoveMigration (MigrationRecord.Version record)]
    | None => []
    end ++ rollbackEffects m records.
Proof. reflexivity. Qed.

Lemma findMigration_version (v : Z) (mg : Migration) :
  findMigration m v = Some mg -> In mg (migrations m) /\ Migration.Version mg = v.
Proof.
  unfold findMigration. intros H. apply find_some in H as [Hin Hv].
  split; [exact Hin|apply Z.eqb_eq; exact Hv].
Qed.

Lemma rollbackMigration_effects (mg : Migration) (w w' : world St DB) err ev :
  rollbackMigration m mg w = (err, w', ev) ->
  effects ev `prefix_of`
    [Executing (Migration.DownSQL mg); StorageRemoveMigration (Migration.Version mg)]
  /\ (err = None ->
      effects ev
      = [Executing (Migration.DownSQL mg); StorageRemoveMigration (Migration.Version mg)]).
Proof.
  destruct (rollbackMigration_cases m mg w) as (xerr & wx & evx & _ & _ & Hev & Hcase).
  apply driverEvents_silent in Hev as (Heff & _).
  destruct xerr as [cause|].
  - rewrite Hcase. intros H. injection H as <- _ <-.
    change (rollingBack mg :: Executing (Migration.DownSQL mg) :: evx)
      with ([rollingBack mg; Executing (Migration.DownSQL mg)] ++ evx).
    rewrite effects_app, Heff. simpl. split; [|discriminate].
    exists [StorageRemoveMigration (Migration.Version mg)]. reflexivity.
  - destruct Hcase as (rerr & s' & _ & ->). intros H. injection H as _ _ <-.
    assert (Hall : effects
              (rollingBack mg :: Executing (Migration.DownSQL mg) :: evx
                 ++ StorageRemoveMigration (Migration.Version mg)
                    :: match rerr with None => [rolledBack mg] | Some _ => [] end)
            = [Executing (Migration.DownSQL mg);
               StorageRemoveMigration (Migration.Version mg)]).
    { change (effects ([rollingBack mg; Executing (Migration.DownSQL mg)] ++ evx
                 ++ StorageRemoveMigration (Migration.Version mg)
                    :: match rerr with None => [rolledBack mg] | Some _ => [] end)
              = [Executing (Migration.DownSQL mg);
                 StorageRemoveMigration (Migration.Version mg)]).
      rewrite !effects_app, Heff. destruct rerr; reflexivity. }
    rewrite Hall. split; [reflexivity|intros _; reflexivity].
Qed.

Lemma DownTo_loop_effects (targetVersion : Z) (records : list MigrationRecord)
    (w w' : world St DB) err ev :
  StronglySorted recordDescending records ->
  DownTo_loop m targetVersion records w = (err, w', ev) ->
  effects ev `prefix_of`
    rollbackEffects m (List.filter (recordAbove targetVersion) records)
  /\ (err = None ->
      effects ev = rollbackEffects m (List.filter (recordAbove targetVersion) records)
      /\ removed ev
         = map MigrationRecord.Version (List.filter (recordAbove targetVersion) records)).
Proof.
  intros Hsorted. revert w ev. induction Hsorted as [|record rest Hrest IH Hall];
    intros w ev Hrun.
  - injection Hrun as _ _ <-. split; [apply prefix_nil|]. intros _. split; reflexivity.
  - simpl in Hrun.
    destruct (Z.leb_spec (MigrationRecord.Version record) targetVersion) as [Hle|Hgt].
    + injection Hrun as _ _ <-. rewrite (none_above _ _ _ Hle Hall).
      split; [apply prefix_nil|]. intros _. split; reflexivity.
    + assert (Habove : recordAbove targetVersion record = true)
        by (apply Z.ltb_lt; exact Hgt).
      cbn [List.filter]. rewrite Habove, rollbackEffects_cons. cbn [map].
      destruct (findMigration m (MigrationRecord.Version record)) as [mg|] eqn:Hfind.
      * apply findMigration_version in Hfind as [_ Hv].
        apply bind_inv in Hrun as (rerr & w1 & ev1 & ev2 & Hroll & Hloop & ->).
        apply rollbackMigration_effects in Hroll as [Hpre Hok]. rewrite Hv in *.
        rewrite effects_app, removed_app.
        destruct rerr as [cause|].
        -- injection Hloop as <- _ <-. simpl. rewrite app_nil_r.
           split; [|discriminate].
           destruct Hpre as [k Hk]. exists (k ++ rollbackEffects m
             (List.filter (recordAbove targetVersion) rest)).
           change (?a :: ?b :: ?l) with ([a; b] ++ l). rewrite Hk, <- app_assoc.
           reflexivity.
        -- specialize (Hok eq_refl). destruct (IH _ _ Hloop) as [IHpre IHok].
           rewrite Hok. split.
           ++ apply (prefix_app [_; _]). exact IHpre.
           ++ intros Herr. destruct (IHok Herr) as [-> Hrem]. split; [reflexivity|].
              rewrite <- removed_effects, Hok, Hrem. reflexivity.
      * injection Hrun as <- _ <-. split; [apply prefix_nil|discriminate].
Qed.

(** With collaborators that do not fail, the loop stops only where a
    declared migration is missing. *)
Lemma DownTo_loop_succeeds (ok : St -> Prop) (targetVersion : Z)
    (records : list MigrationRecord) (w : world St DB) :
  driverNeverFails m ->
  (forall v s, ok s -> exists s', RemoveMigration (storage m) v s = (None, s') /\ ok s') ->
  ok (store w) ->
  (forall record, In record records -> targetVersion < MigrationRecord.Version record ->
                  findMigration m (MigrationRecord.Version record) <> None) ->
  fst (fst (DownTo_loop m targetVersion records w)) = None.
Proof.
  intros Hdrv Hrem Hok0 Hfound. revert w Hok0.
  induction records as [|record rest IH]; intros w Hok0; [reflexivity|].
  simpl.
  destruct (Z.leb_spec (MigrationRecord.Version record) targetVersion) as [Hle|Hgt];
    [reflexivity|].
  destruct (findMigration m (MigrationRecord.Version record)) as [mg|] eqn:Hfind;
    [|exfalso; exact (Hfound record (or_introl eq_refl) Hgt Hfind)].
  destruct (rollbackMigration_cases m mg w) as (xerr & wx & evx & Hx & _ & _ & Hcase).
  destruct (executeMigration_run m (Migration.DownSQL mg) w)
    as (xerr' & wx' & evx' & Hx' & _ & _ & Hok & _).
  rewrite Hx in Hx'. injection Hx' as <- _ _. rewrite (Hok Hdrv) in Hcase.
  destruct Hcase as (rerr & s' & HRem & Hroll).
  destruct (Hrem (Migration.Version mg) _ Hok0) as (s'' & HRem' & Hok1).
  rewrite HRem in HRem'. injection HRem' as -> ->.
  unfold bind. rewrite Hroll. simpl.
  assert (Hrest : forall r, In r rest -> targetVersion < MigrationRecord.Version r ->
                            findMigration m (MigrationRecord.Version r) <> None)
    by (intros r Hr; apply Hfound; right; exact Hr).
  specialize (IH Hrest (World s'' (db wx)) Hok1).
  destruct (DownTo_loop m targetVersion rest (World s'' (db wx))) as [[e w2] ev2].
  exact IH.
Qed.

Lemma DownTo_run (targetVersion : Z) (w : world St DB) s1 applied s2 :
  0 <= targetVersion ->
  Init (storage m) (store w) = (None, s1) ->
  GetAppliedMigrations (storage m) s1 = (applied, None, s2) ->
  DownTo m targetVersion w
  = (let '(err, w', ev) := DownTo_loop m targetVersion (rev applied) (World s2 (db w)) in
     (err, w', StorageInit :: StorageGetAppliedMigrations :: ev)).
Proof.
  intros Hpos HInit HGet.
  unfold DownTo, bind, storage_Init, storage_GetAppliedMigrations. rewrite HInit. simpl.
  replace (targetVersion <? 0) with false by (symmetry; apply Z.ltb_ge; exact Hpos).
  cbn [store db]. rewrite HGet. simpl.
  destruct (DownTo_loop m targetVersion (rev applied) (World s2 (db w))) as [[err w'] ev].
  reflexivity.
Qed.
End RollingBack.

(** C1 (as amended). For a target that is not negative, when the storage
    returns the applied records in ascending version order: [DownTo] rolls
    back records only from the list of the applied records above the
    target taken from the highest version down, in that order, each by
    executing the reverse script of its declared migration and then
    removing the record; a run that returns no error has rolled back that
    whole list; no record at or below the target is ever rolled back; and
    with collaborators that do not fail and a declared migration for every
    record above the target, the run returns no error. *)
Theorem DownTo_rolls_back_above_target {St DB : Type} (m : migrator St DB)
    (targetVersion : Z) (w w' : world St DB) (s1 s2 : St)
    (applied : list MigrationRecord) (err : option error) (ev : list event) :
  0 <= targetVersion ->
  Init (storage m) (store w) = (None, s1) ->
  GetAppliedMigrations (storage m) s1 = (applied, None, s2) ->
  Sorted recordAscending applied ->
  DownTo m targetVersion w = (err, w', ev) ->
  effects ev `prefix_of` rollbackEffects m (toRollBack targetVersion applied)
  /\ (err = None ->
      effects ev = rollbackEffects m (toRollBack targetVersion applied)
      /\ removed ev = map MigrationRecord.Version (toRollBack targetVersion applied))
  /\ (forall v, In v (removed ev) ->
        targetVersion < v
        /\ exists record, In record applied /\ MigrationRecord.Version record = v)
  /\ StronglySorted recordDescending (toRollBack targetVersion applied)
  /\ (forall record, In record (toRollBack targetVersion applied)
        <-> In record applied /\ targetVersion < MigrationRecord.Version record)
  /\ (forall ok : St -> Prop,
        driverNeverFails m -> neverFails (storage m) ok -> ok s2 ->
        (forall record, In record (toRollBack targetVersion applied) ->
                        findMigration m (MigrationRecord.Version record) <> None) ->
        err = None).
Proof.
  intros Hpos HInit HGet Hsorted Hrun.
  rewrite (DownTo_run m targetVersion w s1 applied s2 Hpos HInit HGet) in Hrun.
  destruct (DownTo_loop m targetVersion (rev applied) (World s2 (db w)))
    as [[err1 w1] ev1] eqn:Hloop.
  injection Hrun as <- _ <-.
  pose proof (rev_descending applied Hsorted) as Hdesc.
  destruct (DownTo_loop_effects m targetVersion (rev applied) _ _ _ _ Hdesc Hloop)
    as [Hpre Hok].
  assert (Hmem : forall record, In record (toRollBack targetVersion applied)
                   <-> In record applied /\ targetVersion < MigrationRecord.Version record).
  { intros record. unfold toRollBack, recordAbove. rewrite List.filter_In, <- in_rev.
    rewrite Z.ltb_lt. reflexivity. }
  split; [exact Hpre|]. split; [exact Hok|]. split; [|split; [|split]].
  - intros v Hv. change (In v (removed ev1)) in Hv.
    rewrite <- removed_effects in Hv. destruct Hpre as [k Hk].
    assert (Hin : In v (removed (rollbackEffects m (toRollBack targetVersion applied)))).
    { unfold toRollBack. rewrite Hk, removed_app.
      apply in_or_app. left. exact Hv. }
    apply removed_rollbackEffects_In in Hin as (record & Hin & <-).
    apply Hmem in Hin as [Hin Habove]. split; [exact Habove|].
    exists record. split; [exact Hin|reflexivity].
  - apply StronglySorted_filter_bool. exact Hdesc.
  - exact Hmem.
  - intros ok Hdrv (_ & _ & _ & HRem) Hok2 Hfound.
    pose proof (DownTo_loop_succeeds m ok targetVersion (rev applied) (World s2 (db w))
                  Hdrv HRem Hok2) as Hsucc.
    rewrite Hloop in Hsucc. apply Hsucc.
    intros record Hin Habove. apply Hfound. apply Hmem.
    split; [apply in_rev; exact Hin|exact Habove].
Qed.

Lemma appliedAscending_sorted :
  Sorted recordAscending [testRecord 1; testRecord 2; testRecord 3].
Proof. repeat constructor; unfold recordAscending; simpl; lia. Qed.

Lemma DownTo_rolls_back_above_target_witness :
  fst (fst (DownTo declared 1 appliedAscending)) = None
  /\ effects (snd (DownTo declared 1 appliedAscending))
     = [Executing "DROP INDEX i2;"; StorageRemoveMigration 3;
        Executing "DROP INDEX i1;"; StorageRemoveMigration 2].
Proof.
  destruct (DownTo declared 1 appliedAscending) as [[err w'] ev] eqn:Hrun.
  destruct (DownTo_rolls_back_above_target declared 1 appliedAscending w'
              (withApplied [testRecord 1; testRecord 2; testRecord 3])
              (withApplied [testRecord 1; testRecord 2; testRecord 3])
              [testRecord 1; testRecord 2; testRecord 3] err ev
              ltac:(lia) eq_refl eq_refl appliedAscending_sorted Hrun)
    as (_ & Hok & _).
  assert (Herr : err = None) by (vm_compute in Hrun; congruence).
  split; [exact Herr|]. destruct (Hok Herr) as [Heff _]. exact Heff.
Defined.

(** C1, as stated, fails: when the storage returns the records of versions
    3, 1 and 2 in that order, [DownTo 1] rolls back version 2 alone and
    returns no error; the record of version 3 stays. *)
Lemma DownTo_depends_on_storage_order :
  fst (fst (DownTo declared 1 appliedUnordered)) = None
  /\ removed (snd (DownTo declared 1 appliedUnordered)) = [2]
  /\ In (testRecord 3) [testRecord 3; testRecord 1; testRecord 2]
  /\ 1 < MigrationRecord.Version (testRecord 3)
  /\ ~ In 3 (removed (snd (DownTo declared 1 appliedUnordered))).
Proof.
  split; [reflexivity|]. split; [reflexivity|]. split; [left; reflexivity|].
  split; [reflexivity|]. intros [H|[]]. discriminate H.
Qed.

(** ** The insertion sort of short slices meets the contract of [sort.Slice] *)

Lemma sink_Permutation {A : Type} (less : A -> A -> bool) (x : A) (sortedRev : list A) :
  Permutation (sink less x sortedRev) (x :: sortedRev).
Proof.
  induction sortedRev as [|y r IH]; [reflexivity|].
  simpl. destruct (less x y); [|reflexivity].
  rewrite IH. apply perm_swap.
Qed.

Lemma foldl_sink_Permutation {A : Type} (less : A -> A -> bool) (l acc : list A) :
  Permutation (foldl (fun sortedRev x => sink less x sortedRev) acc l) (l ++ acc).
Proof.
  revert acc. induction l as [|x l IH]; intros acc; [reflexivity|].
  simpl. rewrite IH, sink_Permutation. symmetry. apply Permutation_middle.
Qed.

Lemma insertionSort_Permutation {A : Type} (less : A -> A -> bool) (l : list A) :
  Permutation (insertionSort less l) l.
Proof.
  unfold insertionSort. rewrite <- Permutation_rev, foldl_sink_Permutation.
  rewrite app_nil_r. reflexivity.
Qed.

Lemma sink_descending (x : Migration) (sortedRev : list Migration) :
  Sorted descending sortedRev -> Sorted descending (sink versionLess x sortedRev).
Proof.
  induction 1 as [|y r Hr IH Hhd]; [repeat constructor|].
  simpl. unfold versionLess at 1.
  destruct (Z.ltb_spec (Migration.Version x) (Migration.Version y)) as [Hlt|Hge].
  - constructor; [exact IH|].
    destruct Hhd as [|y' r' Hy']; simpl.
    + constructor. unfold descending. lia.
    + destruct (versionLess x y'); constructor; [exact Hy'|unfold descending; lia].
  - constructor; [constructor; assumption|]. constructor. exact Hge.
Qed.

Lemma foldl_sink_descending (l acc : list Migration) :
  Sorted descending acc ->
  Sorted descending (foldl (fun sortedRev x => sink versionLess x sortedRev) acc l).
Proof.
  revert acc. induction l as [|x l IH]; intros acc Hacc; [exact Hacc|].
  simpl. apply IH. apply sink_descending. exact Hacc.
Qed.

Lemma insertionSort_ascending (l : list Migration) :
  Sorted ascending (insertionSort versionLess l).
Proof.
  unfold insertionSort. rewrite rev_alt.
  apply (Sorted_reverse descending). apply foldl_sink_descending. constructor.
Qed.

#[global] Instance exampleLib_contract : GoLibContract exampleLib.
Proof.
  constructor; intros l; simpl.
  - apply insertionSort_Permutation.
  - apply insertionSort_ascending.
Qed.

(** ** The parser *)

Lemma ascending_strict (ms : list Migration) :
  Sorted ascending ms -> NoDup (map Migration.Version ms) -> Sorted strictlyAscending ms.
Proof.
  induction 1 as [|mg rest Hrest IH Hhd]; intros Hnodup; [constructor|].
  simpl in Hnodup. apply NoDup_cons in Hnodup as [Hnotin Hnodup].
  constructor; [apply IH; exact Hnodup|].
  destruct Hhd as [|mg' rest' Hle]; constructor.
  unfold strictlyAscending, ascending in *.
  assert (Migration.Version mg <> Migration.Version mg')
    by (intros Heq; apply Hnotin; rewrite Heq; simpl; left).
  lia.
Qed.

Lemma strictlyAscending_versions (ms : list Migration) :
  Sorted strictlyAscending ms -> Sorted Z.lt (map Migration.Version ms).
Proof.
  induction 1 as [|mg rest Hrest IH Hhd]; [constructor|].
  simpl. constructor; [exact IH|]. destruct Hhd; simpl; constructor. assumption.
Qed.

Section ParserFacts.
Context {G : GoLib}.

Lemma parseEntries_app (fsys : FS) (dir : string) (pre rest : list DirEntry)
    (migrations : list Migration) :
  parseEntries fsys dir (pre ++ rest) migrations
  = match parseEntries fsys dir pre migrations with
    | (parsed, None) => parseEntries fsys dir rest parsed
    | (parsed, Some err) => (parsed, Some err)
    end.
Proof.
  revert migrations. induction pre as [|entry pre IH]; intros migrations; [reflexivity|].
  simpl. destruct (DirEntry.IsDir entry); [apply IH|].
  destruct (FindStringSubmatch (DirEntry.Name entry)) as [[digits name]|]; [|apply IH].
  destruct (Atoi digits) as [version|]; [|apply IH].
  destruct (parseMigrationFile fsys _ version name) as [mg [err|]]; [reflexivity|apply IH].
Qed.

(** A successful parse returns the migrations of the files it went
    through, rearranged into ascending order, and at least one. *)
Lemma parseMigrations_sorted `{!GoLibContract G} (fsys : FS) (dir : string)
    (ms : list Migration) :
  parseMigrations fsys dir = (ms, None) ->
  Sorted ascending ms /\ ms <> []
  /\ exists entries parsed,
       ReadDir fsys dir = (entries, None)
       /\ parseEntries fsys dir entries [] = (parsed, None)
       /\ Permutation ms parsed.
Proof.
  unfold parseMigrations.
  destruct (ReadDir fsys dir) as [entries [err|]]; [discriminate|].
  destruct (parseEntries fsys dir entries []) as [parsed [err|]] eqn:Hentries;
    [discriminate|].
  destruct parsed as [|mg parsed]; [discriminate|]. simpl.
  intros H. injection H as <-.
  pose proof (sort_Slice_Permutation (mg :: parsed)) as Hperm.
  split; [apply sort_Slice_Sorted|]. split.
  - intros Hnil. rewrite Hnil in Hperm. apply Permutation_nil_l in Hperm.
    discriminate Hperm.
  - exists entries, (mg :: parsed). split; [reflexivity|]. split; [exact Hentries|exact Hperm].
Qed.
End ParserFacts.

(** What [newMigrator] hands to the orchestrator is in ascending order. *)
Lemma newMigrator_sorted {G : GoLib} `{!GoLibContract G} {St DB : Type}
    (drv : option (Driver DB)) (sto : Storage St) (filesystem : FS)
    (migrationsDir databaseName : string) (m : migrator St DB) :
  newMigrator drv sto filesystem migrationsDir databaseName = (Some m, None) ->
  Sorted ascending (migrations m).
Proof.
  unfold newMigrator.
  destruct (parseMigrations filesystem migrationsDir) as [parsed [err|]] eqn:Hparse;
    [discriminate|].
  intros H. injection H as <-. simpl.
  apply (parseMigrations_sorted filesystem migrationsDir parsed Hparse).
Qed.

(** C6 (as amended). Whatever the listing order of the directory, the
    sequence [parseMigrations] returns is ascending by version: no element
    has a version above the next one's. It is strictly ascending when the
    versions in it are pairwise distinct; two files of one version are both
    kept: the sequence is a rearrangement of the migrations parsed from the
    listing. *)
Theorem parseMigrations_ascending (G : GoLib) (fsys : FS) (dir : string)
    (ms : list Migration) :
  GoLibContract G ->
  parseMigrations fsys dir = (ms, None) ->
  Sorted ascending ms
  /\ (NoDup (map Migration.Version ms) -> Sorted strictlyAscending ms)
  /\ exists entries parsed,
       ReadDir fsys dir = (entries, None)
       /\ parseEntries fsys dir entries [] = (parsed, None)
       /\ Permutation ms parsed.
Proof.
  intros Hcontract Hparse.
  destruct (parseMigrations_sorted fsys dir ms Hparse) as (Hsorted & _ & Hperm).
  split; [exact Hsorted|]. split; [|exact Hperm]. apply ascending_strict. exact Hsorted.
Qed.

Lemma parseMigrations_ascending_witness :
  Sorted strictlyAscending
    (fst (@parseMigrations exampleLib
            (mapFS [("003_third.cypher", goodFile); ("001_first.cypher", goodFile);
                    ("002_second.cypher", goodFile)]) ".")).
Proof.
  destruct (@parseMigrations exampleLib
              (mapFS [("003_third.cypher", goodFile); ("001_first.cypher", goodFile);
                      ("002_second.cypher", goodFile)]) ".") as [ms err] eqn:Hparse.
  pose proof Hparse as Hval. vm_compute in Hval. injection Hval as <- <-.
  destruct (parseMigrations_ascending exampleLib _ _ _ exampleLib_contract Hparse)
    as (_ & Hstrict & _).
  apply Hstrict. simpl.
  repeat (apply NoDup_cons_2; [rewrite ?elem_of_cons, elem_of_nil; intuition discriminate|]).
  apply NoDup_nil_2.
Defined.

(** C6, as stated, fails: two files of version 1 are both parsed, and the
    sequence returned is not strictly ascending. *)
Lemma parseMigrations_keeps_duplicates :
  snd (@parseMigrations exampleLib twiceVersionOne ".") = None
  /\ map Migration.Version (fst (@parseMigrations exampleLib twiceVersionOne ".")) = [1; 1]
  /\ ~ Sorted strictlyAscending (fst (@parseMigrations exampleLib twiceVersionOne ".")).
Proof.
  split; [reflexivity|]. split; [reflexivity|].
  intros H. apply strictlyAscending_versions in H.
  change (Sorted Z.lt [1; 1]) in H. inversion H as [|? ? _ Hhd]; subst.
  inversion Hhd as [|? ? Hlt]; subst. lia.
Qed.

(** C7 (as amended). Take a file of the listing that is no directory, whose
    name matches the pattern with a numeric prefix that fits an [int], that
    can be read and scanned, and before which every entry was parsed.
    If its trimmed up section is empty, [parseMigrations] returns no
    sequence and the missing-up-statement error wrapped with the file name;
    otherwise, if its trimmed down section is empty, no sequence and the
    missing-down-statement error wrapped with the file name. *)
Theorem missing_section_aborts_parse (G : GoLib) (fsys : FS) (dir : string)
    (pre post : list DirEntry) (entry : DirEntry) (parsed : list Migration)
    (digits name content : string) (version : Z) :
  ReadDir fsys dir = (pre ++ entry :: post, None) ->
  parseEntries fsys dir pre [] = (parsed, None) ->
  DirEntry.IsDir entry = false ->
  FindStringSubmatch (DirEntry.Name entry) = Some (digits, name) ->
  Atoi digits = Some version ->
  OpenRead fsys (filepath_Join dir (DirEntry.Name entry)) = FileBytes content ->
  snd (scanTokens (rawLines content)) = None ->
  (TrimSpace (fst (sectionsOf content)) = "" ->
   parseMigrations fsys dir
   = ([], Some (parseError (DirEntry.Name entry) ErrNoUpStatement))
   /\ errors_Is (parseError (DirEntry.Name entry) ErrNoUpStatement) ErrNoUpStatement = true)
  /\ (TrimSpace (fst (sectionsOf content)) <> "" ->
      TrimSpace (snd (sectionsOf content)) = "" ->
      parseMigrations fsys dir
      = ([], Some (parseError (DirEntry.Name entry) ErrNoDownStatement))
      /\ errors_Is (parseError (DirEntry.Name entry) ErrNoDownStatement) ErrNoDownStatement
         = true).
Proof.
  intros HReadDir Hpre Hfile Hmatch Hatoi Hopen Hscan.
  assert (Hsplit : TrimSpace (fst (sectionsOf content)) = "" ->
                   splitUpDown content = (EmptyString, EmptyString, Some ErrNoUpStatement)).
  { unfold splitUpDown, sectionsOf.
    destruct (scanTokens (rawLines content)) as [lines scanErr]. simpl in *. subst scanErr.
    destruct (splitLoop lines EmptyString EmptyString noSection) as [upSQL downSQL].
    simpl. intros ->. reflexivity. }
  assert (Hsplit' : TrimSpace (fst (sectionsOf content)) <> "" ->
                    TrimSpace (snd (sectionsOf content)) = "" ->
                    splitUpDown content
                    = (EmptyString, EmptyString, Some ErrNoDownStatement)).
  { unfold splitUpDown, sectionsOf.
    destruct (scanTokens (rawLines content)) as [lines scanErr]. simpl in *. subst scanErr.
    destruct (splitLoop lines EmptyString EmptyString noSection) as [upSQL downSQL].
    simpl. intros Hup ->. apply String.eqb_neq in Hup. rewrite Hup. reflexivity. }
  assert (Hparse : forall cause,
             splitUpDown content = (EmptyString, EmptyString, Some cause) ->
             parseMigrations fsys dir = ([], Some (parseError (DirEntry.Name entry) cause))).
  { intros cause Hs. unfold parseMigrations. rewrite HReadDir, parseEntries_app, Hpre.
    simpl. rewrite Hfile, Hmatch, Hatoi. unfold parseMigrationFile. rewrite Hopen, Hs.
    reflexivity. }
  split.
  - intros Hup. split; [apply Hparse, Hsplit, Hup|reflexivity].
  - intros Hup Hdown. split; [apply Hparse, Hsplit'; assumption|reflexivity].
Qed.

Lemma missing_section_aborts_parse_witness :
  @parseMigrations exampleLib missingUp "."
  = ([], Some (parseError "001_initial.cypher" ErrNoUpStatement))
  /\ @parseMigrations exampleLib missingDown "."
     = ([], Some (parseError "001_initial.cypher" ErrNoDownStatement)).
Proof.
  split.
  - apply (missing_section_aborts_parse exampleLib missingUp "." []
             [] (DirEntry.mk "001_initial.cypher" false) [] "001" "initial" onlyDown 1
             eq_refl eq_refl eq_refl eq_refl eq_refl eq_refl eq_refl).
    reflexivity.
  - apply (missing_section_aborts_parse exampleLib missingDown "." []
             [] (DirEntry.mk "001_initial.cypher" false) [] "001" "initial" onlyUp 1
             eq_refl eq_refl eq_refl eq_refl eq_refl eq_refl eq_refl).
    + vm_compute. discriminate.
    + reflexivity.
Defined.

(** C7, as stated, fails: a file whose name matches the pattern but whose
    numeric prefix exceeds the largest [int] is skipped; its empty up
    section fails nothing, and the sequence of the other files is
    returned. *)
Lemma huge_prefix_is_skipped :
  FindStringSubmatch "99999999999999999999_big.cypher"
  = Some ("99999999999999999999", "big")
  /\ OpenRead hugePrefix "99999999999999999999_big.cypher" = FileBytes onlyDown
  /\ TrimSpace (fst (sectionsOf onlyDown)) = ""
  /\ snd (@parseMigrations exampleLib hugePrefix ".") = None
  /\ map Migration.Version (fst (@parseMigrations exampleLib hugePrefix ".")) = [1].
Proof. repeat split; reflexivity. Qed.

(** ** The storage double keeps its records faithfully *)

Lemma mock_records_versions (s : mockStorage) (v : Z) :
  mockSound s ->
  v ∈ dom (appliedMigrations s)
  <-> versionApplied (map snd (map_to_list (appliedMigrations s))) v = true.
Proof.
  intros [_ Hkeys]. rewrite versionApplied_true, elem_of_dom. split.
  - intros [record Hrecord]. exists record. split; [|apply (Hkeys _ _ Hrecord)].
    apply in_map_iff. exists (v, record). split; [reflexivity|].
    apply list_elem_of_In, elem_of_map_to_list. exact Hrecord.
  - intros (record & Hin & Hv). apply in_map_iff in Hin as ([k r] & Heq & Hin).
    simpl in Heq. subst r. apply list_elem_of_In, elem_of_map_to_list in Hin.
    rewrite <- Hv, (Hkeys _ _ Hin). exists record. exact Hin.
Qed.

#[global] Program Instance mockStorage_faithful : FaithfulStorage mockStorage_Storage :=
  {| sound := mockSound; appliedSet := fun s => dom (appliedMigrations s) |}.
Next Obligation.
  intros s Hs. exists s. destruct Hs as [(HI & HG & HRec & HRem) Hkeys].
  simpl. unfold mock_Init. rewrite HI. repeat split; assumption.
Qed.
Next Obligation.
  intros s Hs. exists (map snd (map_to_list (appliedMigrations s))), s.
  pose proof Hs as [(HI & HG & HRec & HRem) Hkeys].
  simpl. unfold mock_GetAppliedMigrations. rewrite HG.
  split; [reflexivity|]. split; [exact Hs|]. split; [reflexivity|].
  intros v. apply mock_records_versions. exact Hs.
Qed.
Next Obligation.
  intros mg s s' [(HI & HG & HRec & HRem) Hkeys]. simpl.
  unfold mock_RecordMigration. rewrite HRec. intros H. injection H as <-. simpl.
  split; [|apply dom_insert_L]. split; [repeat split; assumption|].
  intros version record. unfold setApplied. cbn [appliedMigrations].
  rewrite lookup_insert. destruct (decide _) as [<-|Hne].
  - intros H. injection H as <-. reflexivity.
  - apply Hkeys.
Qed.
Next Obligation.
  intros v s s' [(HI & HG & HRec & HRem) Hkeys]. simpl.
  unfold mock_RemoveMigration. rewrite HRem. intros H. injection H as <-. simpl.
  split; [|apply dom_delete_L]. split; [repeat split; assumption|].
  intros version record. unfold setApplied. cbn [appliedMigrations].
  rewrite lookup_delete. destruct (decide _) as [<-|Hne].
  - discriminate.
  - apply Hkeys.
Qed.

Lemma newMockStorage_sound : mockSound newMockStorage.
Proof.
  split; [repeat split|]. intros version record. simpl. rewrite lookup_empty. discriminate.
Qed.

(** ** Running [Up] again *)

Section UpLoop.
Context {St DB : Type} (m : migrator St DB).

Lemma Up_loop_app (versions : gmap Z bool) (pre rest : list Migration) (w : world St DB) :
  Up_loop m versions (pre ++ rest) w
  = (let '(err, w1, ev1) := Up_loop m versions pre w in
     match err with
     | Some err => (Some err, w1, ev1)
     | None =>
         let '(err2, w2, ev2) := Up_loop m versions rest w1 in (err2, w2, ev1 ++ ev2)
     end).
Proof.
  revert w. induction pre as [|mg pre IH]; intros w.
  - simpl. destruct (Up_loop m versions rest w) as [[err2 w2] ev2]. reflexivity.
  - simpl. destruct (isApplied versions (Migration.Version mg)).
    + unfold bind, skipMigration, logger, emit. rewrite IH.
      destruct (Up_loop m versions pre w) as [[err w1] ev1].
      destruct err; [reflexivity|].
      destruct (Up_loop m versions rest w1) as [[err2 w2] ev2]. reflexivity.
    + unfold bind. destruct (applyMigration m mg w) as [[aerr wa] eva].
      destruct aerr; [reflexivity|]. rewrite IH.
      destruct (Up_loop m versions pre wa) as [[err w1] ev1].
      destruct err; [reflexivity|].
      destruct (Up_loop m versions rest w1) as [[err2 w2] ev2].
      rewrite app_assoc. reflexivity.
Qed.

Lemma Up_loop_all_applied (versions : gmap Z bool) (ms : list Migration)
    (w : world St DB) :
  (forall mg, In mg ms -> isApplied versions (Migration.Version mg) = true) ->
  Up_loop m versions ms w = (None, w, map skipped ms).
Proof.
  induction ms as [|mg rest IH]; intros Hall; [reflexivity|].
  simpl. rewrite (Hall mg (or_introl eq_refl)).
  unfold bind, skipMigration, logger, emit. rewrite IH; [reflexivity|].
  intros mg' Hin. apply Hall. right. exact Hin.
Qed.

Lemma withMigrations_same : withMigrations m (migrations m) = m.
Proof. destruct m. reflexivity. Qed.
End UpLoop.

Section Faithful.
Context {St DB : Type} (m : migrator St DB) {F : FaithfulStorage (storage m)}.

(** A successful loop leaves a sound store that holds, besides the
    versions it held, those of the migrations recorded. *)
Lemma Up_loop_store (versions : gmap Z bool) (ms : list Migration)
    (w w' : world St DB) ev :
  sound (store w) ->
  Up_loop m versions ms w = (None, w', ev) ->
  sound (store w')
  /\ (forall v, v ∈ appliedSet (store w')
                <-> v ∈ appliedSet (store w)
                    \/ exists mg, In mg (recorded ev) /\ Migration.Version mg = v)
  /\ (forall mg, In mg (recorded ev) -> In mg ms)
  /\ (forall mg, In mg ms ->
                 isApplied versions (Migration.Version mg) = true
                 \/ In mg (recorded ev))
  /\ (forall v, In v (attempted ev) -> exists mg, In mg ms /\ Migration.Version mg = v).
Proof.
  revert w ev. induction ms as [|mg rest IH]; intros w ev Hsound Hrun.
  - injection Hrun as <- <-. split; [exact Hsound|].
    split; [intros v; split; [left; assumption|intros [H|(? & [] & _)]; exact H]|].
    split; [intros ? []|]. split; [intros ? []|intros ? []].
  - simpl in Hrun.
    destruct (isApplied versions (Migration.Version mg)) eqn:Happlied.
    + apply bind_inv in Hrun as (? & w1 & ev1 & ev2 & Hskip & Hloop & ->).
      injection Hskip as _ <- <-.
      destruct (IH _ _ Hsound Hloop) as (Hs & Hset & Hrec & Hall & Hatt).
      split; [exact Hs|]. split; [exact Hset|].
      split; [intros mg' Hin; right; apply Hrec; exact Hin|].
      split; [|intros v Hv; destruct (Hatt v Hv) as (mg' & Hin & Hmg');
               exists mg'; split; [right|]; assumption].
      intros mg' [<-|Hin]; [left; exact Happlied|apply Hall; exact Hin].
    + apply bind_inv in Hrun as (err & w1 & ev1 & ev2 & Happly & Hloop & ->).
      destruct err as [err|]; [discriminate Hloop|].
      apply applyMigration_effects in Happly as (Heff & Hatt1 & s' & HRec & Hstore).
      destruct (RecordMigration_faithful mg _ _ Hsound HRec) as [Hs1 Hset1].
      rewrite <- Hstore in Hs1, Hset1.
      destruct (IH _ _ Hs1 Hloop) as (Hs & Hset & Hrec & Hall & Hatt).
      assert (Hrec1 : recorded ev1 = [mg]) by (rewrite <- recorded_effects, Heff; reflexivity).
      rewrite recorded_app, attempted_app, Hrec1, Hatt1.
      split; [exact Hs|]. split; [|split; [|split]].
      * intros v. rewrite Hset, Hset1, elem_of_union, elem_of_singleton. split.
        -- intros [[->|H]|(mg' & Hin & Hv)].
           ++ right. exists mg. split; [left|]; reflexivity.
           ++ left. exact H.
           ++ right. exists mg'. split; [right|]; assumption.
        -- intros [H|(mg' & [<-|Hin] & Hv)].
           ++ left. right. exact H.
           ++ left. left. symmetry. exact Hv.
           ++ right. exists mg'. split; assumption.
      * intros mg' [<-|Hin]; [left; reflexivity|right; apply Hrec; exact Hin].
      * intros mg' [<-|Hin]; [right; left; reflexivity|].
        destruct (Hall mg' Hin) as [H|H]; [left; exact H|right; right; exact H].
      * intros v [<-|Hv]; [exists mg; split; [left|]; reflexivity|].
        destruct (Hatt v Hv) as (mg' & Hin & Hmg'). exists mg'. split; [right|]; assumption.
Qed.

(** The start of [Up] on a sound store. *)
Lemma Up_start (w : world St DB) :
  sound (store w) ->
  exists applied s2,
    sound s2 /\ appliedSet s2 = appliedSet (store w)
    /\ (forall v, v ∈ appliedSet (store w) <-> versionApplied applied v = true)
    /\ forall ms,
         Up (withMigrations m ms) w
         = (let '(err, w', ev) :=
              Up_loop m (appliedVersionsOf applied) ms (World s2 (db w)) in
            (err, w', [StorageInit; StorageGetAppliedMigrations] ++ ev)).
Proof.
  intros Hsound.
  destruct (Init_faithful _ Hsound) as (s1 & HInit & Hs1 & Hset1).
  destruct (GetAppliedMigrations_faithful _ Hs1) as (applied & s2 & HGet & Hs2 & Hset2 & Hrecs).
  exists applied, s2. split; [exact Hs2|]. split; [congruence|].
  split; [intros v; rewrite <- Hset1; apply Hrecs|].
  intros ms. apply (Up_run (withMigrations m ms) w s1 applied s2 HInit HGet).
Qed.
End Faithful.

Lemma skipped_silent (ms : list Migration) :
  effects (map skipped ms) = [] /\ attempted (map skipped ms) = []
  /\ executed (map skipped ms) = [] /\ statements (map skipped ms) = []
  /\ recorded (map skipped ms) = [].
Proof. induction ms as [|mg ms IH]; [repeat split|exact IH]. Qed.

Lemma attempted_start (ev : list event) :
  attempted (StorageInit :: StorageGetAppliedMigrations :: ev) = attempted ev.
Proof. reflexivity. Qed.

Lemma executed_start (ev : list event) :
  executed (StorageInit :: StorageGetAppliedMigrations :: ev) = executed ev.
Proof. reflexivity. Qed.

Lemma versionApplied_false (applied : list MigrationRecord) (P : Prop) (v : Z) :
  (P <-> versionApplied applied v = true) -> ~ P -> versionApplied applied v = false.
Proof. intros H Hn. destruct (versionApplied applied v); [exfalso; apply Hn, H|]; reflexivity. Qed.

(** C3. On a storage that keeps its records faithfully: when [Up] has
    returned no error, calling it again returns no error, executes no
    script, runs no statement, writes and removes no record (every declared
    version is among the applied ones and is skipped) and leaves the
    database and the applied set as they were. *)
Theorem Up_twice_applies_nothing {St DB : Type} (m : migrator St DB)
    (F : FaithfulStorage (storage m)) (w w1 : world St DB) (ev1 : list event) :
  sound (store w) ->
  Up m w = (None, w1, ev1) ->
  exists w2 ev2,
    Up m w1 = (None, w2, ev2)
    /\ ev2 = StorageInit :: StorageGetAppliedMigrations :: map skipped (migrations m)
    /\ executed ev2 = [] /\ recorded ev2 = [] /\ removed ev2 = [] /\ statements ev2 = []
    /\ db w2 = db w1
    /\ appliedSet (store w2) = appliedSet (store w1)
    /\ forall mg, In mg (migrations m) -> Migration.Version mg ∈ appliedSet (store w1).
Proof.
  intros Hsound Hrun.
  destruct (Up_start m w Hsound) as (applied & s2 & Hs2 & Hset2 & Hrecs & Hup).
  specialize (Hup (migrations m)). rewrite withMigrations_same in Hup.
  rewrite Hup in Hrun. clear Hup.
  destruct (Up_loop m (appliedVersionsOf applied) (migrations m) (World s2 (db w)))
    as [[err wl] evl] eqn:Hloop.
  injection Hrun as -> -> _.
  destruct (Up_loop_store m _ _ (World s2 (db w)) _ _ Hs2 Hloop)
    as (Hs1 & Hset1 & _ & Hall & _).
  assert (Hin1 : forall mg, In mg (migrations m) ->
                            Migration.Version mg ∈ appliedSet (store w1)).
  { intros mg Hin. apply Hset1. destruct (Hall mg Hin) as [Happlied|Hrec].
    - left. cbn [store]. rewrite Hset2. apply Hrecs.
      rewrite <- isApplied_appliedVersionsOf. exact Happlied.
    - right. exists mg. split; [exact Hrec|reflexivity]. }
  destruct (Up_start m w1 Hs1) as (applied' & s2' & Hs2' & Hset2' & Hrecs' & Hup').
  specialize (Hup' (migrations m)). rewrite withMigrations_same in Hup'.
  rewrite Up_loop_all_applied in Hup'.
  - exists (World s2' (db w1)), (StorageInit :: StorageGetAppliedMigrations
                                    :: map skipped (migrations m)).
    destruct (skipped_silent (migrations m)) as (Heff & _ & Hex & Hst & Hrec).
    split; [exact Hup'|]. split; [reflexivity|].
    split; [exact Hex|]. split; [exact Hrec|].
    split; [rewrite <- removed_effects; simpl; fold (effects (map skipped (migrations m)));
            rewrite Heff; reflexivity|].
    split; [exact Hst|]. split; [reflexivity|]. split; [exact Hset2'|exact Hin1].
  - intros mg Hin. rewrite isApplied_appliedVersionsOf. apply Hrecs', Hin1, Hin.
Qed.

Lemma Up_twice_applies_nothing_witness :
  exists w1 ev1 w2,
    Up declared freshWorld = (None, w1, ev1)
    /\ Up declared w1
       = (None, w2, [StorageInit; StorageGetAppliedMigrations;
                     skipped initial; skipped indexes; skipped more]).
Proof.
  destruct (Up declared freshWorld) as [[err w1] ev1] eqn:Hrun.
  assert (Herr : err = None) by (vm_compute in Hrun; congruence). subst err.
  destruct (Up_twice_applies_nothing declared mockStorage_faithful freshWorld w1 ev1
              newMockStorage_sound Hrun) as (w2 & ev2 & Hrun2 & -> & _).
  exists w1, ev1, w2. split; [reflexivity|exact Hrun2].
Defined.

Section Retry.
Context {St DB : Type} (m : migrator St DB).

(** Every application starts by announcing the migration and entering
    its forward script. *)
Lemma applyMigration_starts (mg : Migration) (w : world St DB) :
  exists err w' rest,
    applyMigration m mg w
    = (err, w', applying mg :: Executing (Migration.UpSQL mg) :: rest).
Proof.
  destruct (applyMigration_cases m mg w) as (xerr & wx & evx & _ & _ & _ & Hcase).
  destruct xerr as [cause|].
  - eexists _, _, _. exact Hcase.
  - destruct Hcase as (rerr & s' & _ & Hcase). eexists _, _, _. exact Hcase.
Qed.

Lemma Up_loop_first_pending (versions : gmap Z bool) (pre post : list Migration)
    (failed : Migration) (w : world St DB) :
  (forall mg, In mg pre -> isApplied versions (Migration.Version mg) = true) ->
  isApplied versions (Migration.Version failed) = false ->
  exists err w' rest,
    Up_loop m versions (pre ++ failed :: post) w
    = (err, w', map skipped pre
                  ++ applying failed :: Executing (Migration.UpSQL failed) :: rest).
Proof.
  intros Hpre Hfailed. rewrite Up_loop_app, (Up_loop_all_applied m _ _ _ Hpre).
  simpl. rewrite Hfailed.
  destruct (applyMigration_starts failed w) as (aerr & wa & rest & Happly).
  unfold bind. rewrite Happly. destruct aerr as [cause|].
  - simpl. eexists _, _, _. reflexivity.
  - destruct (Up_loop m versions post wa) as [[err2 w2] ev2]. simpl.
    eexists _, _, _. reflexivity.
Qed.
End Retry.

(** C4 (as amended). On a storage that keeps its records faithfully and for
    declared versions that are pairwise distinct: let [failed] be a declared
    migration that is not applied, let [Up] go through the migrations
    declared before it, and let its forward script fail. Then [Up] returns
    that failure at once: nothing follows the failed execution in its
    trace, so no record is written for [failed], its version is not in the
    applied set, and no migration declared after it is attempted or
    recorded. The next [Up] attempts [failed] before any other migration:
    its forward script is the first one executed. *)
Theorem failed_script_is_retried {St DB : Type} (m : migrator St DB)
    (F : FaithfulStorage (storage m)) (w wpre wf : world St DB)
    (pre post : list Migration) (failed : Migration) (cause : error)
    (evpre evf : list event) :
  sound (store w) ->
  NoDup (map Migration.Version (migrations m)) ->
  migrations m = pre ++ failed :: post ->
  (Migration.Version failed ∉ appliedSet (store w)) ->
  Up (withMigrations m pre) w = (None, wpre, evpre) ->
  executeMigration m (Migration.UpSQL failed) wpre = (Some cause, wf, evf) ->
  Up m w = (Some (applyError failed cause), wf, evpre ++ applying failed :: evf)
  /\ ~ In failed (recorded (evpre ++ applying failed :: evf))
  /\ (Migration.Version failed ∉ appliedSet (store wf))
  /\ (forall mg, In mg post ->
        (~ In (Migration.Version mg) (attempted (evpre ++ applying failed :: evf)))
        /\ (~ In mg (recorded (evpre ++ applying failed :: evf))))
  /\ (forall err2 w2 ev2,
        Up m wf = (err2, w2, ev2) ->
        exists restAttempted restExecuted,
          attempted ev2 = Migration.Version failed :: restAttempted
          /\ executed ev2 = Migration.UpSQL failed :: restExecuted).
Proof.
  intros Hsound Hnodup Hdecl Hfresh Hpre Hexec.
  rewrite Hdecl, map_app in Hnodup. simpl in Hnodup.
  apply NoDup_app in Hnodup as (_ & Hdisj & Hnodup).
  apply NoDup_cons in Hnodup as (Hpost & _).
  assert (F1 : forall mg, In mg pre -> Migration.Version mg <> Migration.Version failed).
  { intros mg Hin Heq. apply (Hdisj (Migration.Version mg)).
    - apply list_elem_of_In, in_map, Hin.
    - rewrite Heq. left. }
  assert (F2 : forall mg, In mg post -> Migration.Version mg <> Migration.Version failed).
  { intros mg Hin Heq. apply Hpost. rewrite <- Heq. apply list_elem_of_In, in_map, Hin. }
  assert (F3 : forall a b, In a pre -> In b post -> Migration.Version a <> Migration.Version b).
  { intros a b Ha Hb Heq. apply (Hdisj (Migration.Version a)).
    - apply list_elem_of_In, in_map, Ha.
    - rewrite Heq. right. apply list_elem_of_In, in_map, Hb. }
  destruct (Up_start m w Hsound) as (applied & s2 & Hs2 & Hset2 & Hrecs & Hup).
  pose proof (Hup pre) as Hup_pre. rewrite Hpre in Hup_pre.
  destruct (Up_loop m (appliedVersionsOf applied) pre (World s2 (db w)))
    as [[errp wp] evp] eqn:Hloop.
  injection Hup_pre as Herr Hw Hevpre. subst errp wp.
  destruct (Up_loop_store m _ _ (World s2 (db w)) _ _ Hs2 Hloop)
    as (Hsp & Hsetp & Hrecp & Hallp & Hattp).
  destruct (executeMigration_run m (Migration.UpSQL failed) wpre)
    as (xerr & wx & evx & Hx & Hstore & Hev & _).
  rewrite Hexec in Hx. injection Hx as Hxerr Hwx Hevf. subst xerr wx.
  apply driverEvents_silent in Hev as (Heffx & Hattx & _ & _).
  assert (Hrecx : recorded evx = []) by (rewrite <- recorded_effects, Heffx; reflexivity).
  assert (Hnot : isApplied (appliedVersionsOf applied) (Migration.Version failed) = false).
  { rewrite isApplied_appliedVersionsOf.
    apply (versionApplied_false _ _ _ (Hrecs (Migration.Version failed)) Hfresh). }
  assert (Hrec1 : recorded (evpre ++ applying failed :: evf) = recorded evp).
  { rewrite Hevpre, Hevf, !recorded_app.
    change (recorded (applying failed :: Executing (Migration.UpSQL failed) :: evx))
      with (recorded evx).
    rewrite Hrecx, app_nil_r. reflexivity. }
  assert (Hatt1 : attempted (evpre ++ applying failed :: evf)
                  = attempted evp ++ [Migration.Version failed]).
  { rewrite Hevpre, Hevf, !attempted_app.
    change (attempted (applying failed :: Executing (Migration.UpSQL failed) :: evx))
      with (Migration.Version failed :: attempted evx).
    rewrite Hattx. reflexivity. }
  assert (Hsetf : Migration.Version failed ∉ appliedSet (store wf)).
  { rewrite Hstore. intros Hin. apply Hsetp in Hin as [Hin|(mg & Hin & Hv)].
    - apply Hfresh. rewrite <- Hset2. exact Hin.
    - exact (F1 mg (Hrecp mg Hin) Hv). }
  split; [|split; [|split; [|split]]].
  - specialize (Hup (migrations m)). rewrite withMigrations_same in Hup.
    rewrite Hup, Hdecl, Up_loop_app, Hloop. simpl. rewrite Hnot.
    destruct (applyMigration_cases m failed wpre) as (xerr & wx & evx' & Hx & _ & _ & Hcase).
    rewrite Hexec in Hx. injection Hx as <- <- Hevx'.
    rewrite Hevf in Hevx'. injection Hevx' as <-.
    unfold bind. rewrite Hcase. simpl. rewrite app_nil_r, Hevpre, Hevf. reflexivity.
  - rewrite Hrec1. intros Hin. exact (F1 failed (Hrecp _ Hin) eq_refl).
  - exact Hsetf.
  - intros mg Hin. rewrite Hrec1, Hatt1. split.
    + intros Hatt. apply in_app_or in Hatt as [Hatt|[Hatt|[]]].
      * destruct (Hattp _ Hatt) as (mg' & Hin' & Hv). exact (F3 mg' mg Hin' Hin Hv).
      * exact (F2 mg Hin (eq_sym Hatt)).
    + intros Hrec. exact (F3 mg mg (Hrecp _ Hrec) Hin eq_refl).
  - intros err2 w2 ev2 Hrun2.
    assert (Hsf : sound (store wf)) by (rewrite Hstore; exact Hsp).
    destruct (Up_start m wf Hsf) as (applied' & s2' & Hs2' & Hset2' & Hrecs' & Hup').
    specialize (Hup' (migrations m)). rewrite withMigrations_same in Hup'.
    rewrite Hup', Hdecl in Hrun2.
    destruct (Up_loop_first_pending m (appliedVersionsOf applied') pre post failed
                (World s2' (db wf))) as (err & w' & rest & Hfirst).
    + intros mg Hin. rewrite isApplied_appliedVersionsOf. apply Hrecs'.
      rewrite Hstore. apply Hsetp. destruct (Hallp mg Hin) as [Happlied|Hrec].
      * left. cbn [store]. rewrite Hset2. apply Hrecs.
        rewrite <- isApplied_appliedVersionsOf. exact Happlied.
      * right. exists mg. split; [exact Hrec|reflexivity].
    + rewrite isApplied_appliedVersionsOf.
      apply (versionApplied_false _ _ _ (Hrecs' (Migration.Version failed)) Hsetf).
    + rewrite Hfirst in Hrun2. injection Hrun2 as _ _ <-.
      destruct (skipped_silent pre) as (_ & Hatt & Hex & _).
      exists (attempted rest), (executed rest).
      rewrite attempted_start, executed_start, attempted_app, executed_app, Hatt, Hex.
      split; reflexivity.
Qed.

Lemma failed_script_is_retried_witness :
  exists wf ev1,
    Up (withDriver [initial; failing; more]) freshWorld
    = (Some (applyError failing (Errorf "" ErrTransactionFailed ": boom")), wf, ev1)
    /\ forall err2 w2 ev2,
         Up (withDriver [initial; failing; more]) wf = (err2, w2, ev2) ->
         exists restAttempted restExecuted,
           attempted ev2 = 2 :: restAttempted /\ executed ev2 = "FAIL;" :: restExecuted.
Proof.
  pose (before := Up (withMigrations (withDriver [initial; failing; more]) [initial])
                    freshWorld).
  pose (failure := executeMigration (withDriver [initial; failing; more]) "FAIL;"
                     (snd (fst before))).
  assert (Hpre : Up (withMigrations (withDriver [initial; failing; more]) [initial])
                   freshWorld
                 = (None, snd (fst before), snd before)) by (vm_compute; reflexivity).
  assert (Hexec : executeMigration (withDriver [initial; failing; more])
                    (Migration.UpSQL failing) (snd (fst before))
                  = (Some (Errorf "" ErrTransactionFailed ": boom"),
                     snd (fst failure), snd failure)) by (vm_compute; reflexivity).
  assert (Hnodup : NoDup (map Migration.Version
                            (migrations (withDriver [initial; failing; more])))).
  { simpl.
    repeat (apply NoDup_cons_2; [rewrite ?elem_of_cons, elem_of_nil; intuition discriminate|]).
    apply NoDup_nil_2. }
  assert (Hfresh : Migration.Version failing ∉ appliedSet (store freshWorld)).
  { simpl. rewrite dom_empty_L. apply not_elem_of_empty. }
  destruct (failed_script_is_retried (withDriver [initial; failing; more])
              mockStorage_faithful freshWorld (snd (fst before)) (snd (fst failure))
              [initial] [more] failing (Errorf "" ErrTransactionFailed ": boom")
              (snd before) (snd failure)
              newMockStorage_sound Hnodup eq_refl Hfresh Hpre Hexec)
    as (Hrun & _ & _ & _ & Hretry).
  eexists _, _. split; [exact Hrun|exact Hretry].
Defined.

(** C4, as stated, fails: with two declared migrations of version 1 (the
    files [01_b.cypher] and [1_a.cypher]), the first is applied and
    recorded, the forward script of the second fails, and the next [Up]
    finds version 1 applied: it skips both and executes nothing. *)
Lemma same_version_is_not_retried :
  fst (fst (Up (withDriver [firstOfOne; secondOfOne]) freshWorld))
  = Some (applyError secondOfOne (Errorf "" ErrTransactionFailed ": boom"))
  /\ executed (snd (Up (withDriver [firstOfOne; secondOfOne]) freshWorld))
     = ["CREATE INDEX b;"; "FAIL;"]
  /\ recorded (snd (Up (withDriver [firstOfOne; secondOfOne]) freshWorld)) = [firstOfOne]
  /\ fst (fst (Up (withDriver [firstOfOne; secondOfOne])
                 (snd (fst (Up (withDriver [firstOfOne; secondOfOne]) freshWorld)))))
     = None
  /\ executed (snd (Up (withDriver [firstOfOne; secondOfOne])
                      (snd (fst (Up (withDriver [firstOfOne; secondOfOne]) freshWorld)))))
     = []
  /\ attempted (snd (Up (withDriver [firstOfOne; secondOfOne])
                       (snd (fst (Up (withDriver [firstOfOne; secondOfOne]) freshWorld)))))
     = [].
Proof. repeat split; vm_compute; reflexivity. Qed.

(** * Further properties of the engine *)

(** ** One script in one transaction (migrator.go, executeMigration) *)

Lemma errors_Is_refl (e : error) : errors_Is e e = true.
Proof.
  destruct e; try reflexivity.
  - change (errors_Is (errorsNew text) (errorsNew text))
      with (if decide (errorsNew text = errorsNew text) then true else false).
    destruct (decide _); congruence.
  - change (errors_Is (Errorf pre e post) (Errorf pre e post))
      with (if decide (Errorf pre e post = Errorf pre e post) then true
            else errors_Is e (Errorf pre e post)).
    destruct (decide _); congruence.
Qed.

Lemma errors_Is_Errorf (pre post : string) (wrapped target : error) :
  errors_Is wrapped target = true -> errors_Is (Errorf pre wrapped post) target = true.
Proof.
  intros H.
  change (errors_Is (Errorf pre wrapped post) target)
    with (if decide (Errorf pre wrapped post = target) then true
          else errors_Is wrapped target).
  destruct (decide _); [reflexivity|exact H].
Qed.

Lemma world_eta {St DB : Type} (w w' : world St DB) :
  store w' = store w -> db w' = db w -> w' = w.
Proof. destruct w, w'. simpl. intros -> ->. reflexivity. Qed.

Section Transaction.
Context {St DB : Type} (m : migrator St DB).

Lemma runStatements_outcome (d : Driver DB) (stmts : list string) (w : world St DB) :
  exists err w' ev,
    runStatements m d stmts w = (err, w', ev)
    /\ store w' = store w
    /\ runsAgainst (database m) ev
    /\ statements ev `prefix_of`
         List.filter (fun stmt => negb (String.eqb stmt "")) (map TrimSpace stmts)
    /\ match runAll d (database m)
               (List.filter (fun stmt => negb (String.eqb stmt "")) (map TrimSpace stmts))
               (db w) with
       | Some x =>
           err = None /\ db w' = x
           /\ statements ev
              = List.filter (fun stmt => negb (String.eqb stmt "")) (map TrimSpace stmts)
       | None =>
           exists stmt x cause x',
             last (statements ev) = Some stmt
             /\ Run d (database m) stmt x = (Some cause, x')
             /\ err = Some (Errorf "" ErrTransactionFailed (": " +:+ Error cause))
       end.
Proof.
  revert w. induction stmts as [|stmt rest IH]; intros w.
  - exists None, w, []. simpl. repeat split; try constructor. apply prefix_nil.
  - simpl. destruct (String.eqb (TrimSpace stmt) "") eqn:Hempty; simpl; [apply IH|].
    unfold bind, logger, emit, tx_Run.
    destruct (Run d (database m) (TrimSpace stmt) (db w)) as [rerr x'] eqn:HRun.
    destruct rerr as [cause|].
    + eexists _, _, _. split; [reflexivity|]. simpl.
      split; [reflexivity|]. split; [repeat constructor|].
      split; [apply prefix_cons, prefix_nil|].
      exists (TrimSpace stmt), (db w), cause, x'. repeat split. exact HRun.
    + destruct (IH (World (store w) x')) as (err & w' & ev & Hrun & Hstore & Hdb & Hpre & Hall).
      rewrite Hrun. eexists _, _, _. split; [reflexivity|]. simpl.
      split; [exact Hstore|]. split; [repeat constructor; exact Hdb|].
      split; [apply prefix_cons; exact Hpre|].
      simpl in Hall.
      destruct (runAll d (database m) _ x') as [x|].
      * destruct Hall as (-> & Hx & Hst). repeat split; [exact Hx|].
        unfold statements in *. simpl. f_equal. exact Hst.
      * destruct Hall as (failed & x & cause & x'' & Hlast & HRunf & ->).
        exists failed, x, cause, x''. repeat split; [|exact HRunf].
        unfold statements in *. simpl.
        destruct (omap _ ev) as [|s l]; [discriminate Hlast|exact Hlast].
Qed.
End Transaction.

(** X1. With a driver, a script is all or nothing. Its statements are the
    pieces between semicolons, trimmed, the empty ones left out; they run
    in order against the migrator's database. When all of them succeed the
    database is the one they leave and every one of them was sent; when one
    fails the database is left as it was before the script, the error is
    the transaction-failed error carrying the driver's message, and the
    failed statement is the last one sent. The applied records are never
    touched. *)
Theorem executeMigration_all_or_nothing {St DB : Type} (m : migrator St DB)
    (d : Driver DB) (sql : string) (w w' : world St DB) (err : option error)
    (ev : list event) :
  driver m = Some d ->
  executeMigration m sql w = (err, w', ev) ->
  store w' = store w
  /\ runsAgainst (database m) ev
  /\ statements ev `prefix_of` nonEmptyStatements sql
  /\ match runAll d (database m) (nonEmptyStatements sql) (db w) with
     | Some x =>
         err = None /\ db w' = x /\ statements ev = nonEmptyStatements sql
     | None =>
         w' = w
         /\ exists stmt x cause x',
              last (statements ev) = Some stmt
              /\ Run d (database m) stmt x = (Some cause, x')
              /\ err = Some (Errorf "" ErrTransactionFailed (": " +:+ Error cause))
              /\ errors_Is (Errorf "" ErrTransactionFailed (": " +:+ Error cause))
                   ErrTransactionFailed = true
     end.
Proof.
  intros Hd Hrun. unfold executeMigration, bind, emit in Hrun. rewrite Hd in Hrun.
  unfold ExecuteWrite in Hrun.
  destruct (runStatements_outcome m d (splitStatements sql) w)
    as (rerr & w1 & ev1 & Hstmts & Hstore & Hdb & Hpre & Hall).
  rewrite Hstmts in Hrun. fold (nonEmptyStatements sql) in Hpre, Hall.
  destruct (runAll d (database m) (nonEmptyStatements sql) (db w)) as [x|].
  - destruct Hall as (-> & Hx & Hst). injection Hrun as <- <- <-.
    split; [exact Hstore|]. split; [constructor; [exact I|exact Hdb]|].
    split; [exact Hpre|]. repeat split; assumption.
  - destruct Hall as (stmt & x & cause & x' & Hlast & HRun & ->).
    injection Hrun as <- <- <-. simpl.
    split; [exact Hstore|]. split; [constructor; [exact I|exact Hdb]|].
    split; [exact Hpre|].
    split; [apply world_eta; [exact Hstore|reflexivity]|].
    exists stmt, x, cause, x'. repeat split; try assumption.
Qed.

Lemma executeMigration_all_or_nothing_witness :
  snd (fst (executeMigration (withLoggingDriver []) secondFails (World newMockStorage [])))
  = World newMockStorage []
  /\ statements (snd (executeMigration (withLoggingDriver []) secondFails
                        (World newMockStorage [])))
     `prefix_of` ["CREATE INDEX a"; "FAIL"; "CREATE INDEX b"].
Proof.
  destruct (executeMigration (withLoggingDriver []) secondFails (World newMockStorage []))
    as [[err w'] ev] eqn:Hrun.
  destruct (executeMigration_all_or_nothing (withLoggingDriver []) loggingDriver secondFails
              (World newMockStorage []) w' err ev eq_refl Hrun) as (_ & _ & Hpre & Hall).
  split; [exact (proj1 Hall)|exact Hpre].
Defined.

(** ** How [Up] ends, whatever the collaborators do *)

Lemma prefix_of_two {A : Type} (a b : A) (l k : list A) :
  l `prefix_of` k -> (a :: b :: l) `prefix_of` (a :: b :: k).
Proof. intros H. apply prefix_cons, prefix_cons, H. Qed.

Lemma removed_prefix_applyEffects (ev : list event) (ms : list Migration) :
  effects ev `prefix_of` applyEffects ms -> removed ev = [].
Proof.
  intros [k Hk]. apply (f_equal removed) in Hk.
  rewrite removed_applyEffects, removed_app, removed_effects in Hk.
  symmetry in Hk. apply app_eq_nil in Hk as [H _]. exact H.
Qed.

Lemma last_snoc_event (l : list event) (e : event) : last (l ++ [e]) = Some e.
Proof. apply last_snoc. Qed.

Section Outcomes.
Context {St DB : Type} (m : migrator St DB).

Lemma executeMigration_error (sql : string) (w w' : world St DB) cause ev :
  executeMigration m sql w = (Some cause, w', ev) ->
  errors_Is cause ErrTransactionFailed = true /\ w' = w /\ driver m <> None.
Proof.
  unfold executeMigration, bind, emit. destruct (driver m) as [d|]; [|discriminate].
  unfold ExecuteWrite.
  destruct (runStatements_outcome m d (splitStatements sql) w)
    as (rerr & w1 & ev1 & Hstmts & Hstore & _ & _ & Hall).
  rewrite Hstmts.
  destruct (runAll d (database m) _ (db w)) as [x|].
  - destruct Hall as (-> & _). discriminate.
  - destruct Hall as (stmt & x & c & x' & _ & _ & ->). intros H. injection H as <- <- _.
    split; [apply errors_Is_Errorf, errors_Is_refl|].
    split; [apply world_eta; [exact Hstore|reflexivity]|discriminate].
Qed.

(** How one application ends, read off its trace. *)
Lemma applyMigration_outcome (mg : Migration) (w w' : world St DB) err ev :
  applyMigration m mg w = (err, w', ev) ->
  effects ev `prefix_of` [Executing (Migration.UpSQL mg); StorageRecordMigration mg]
  /\ match err with
     | None => effects ev = [Executing (Migration.UpSQL mg); StorageRecordMigration mg]
     | Some e =>
         (exists cause,
             e = applyError mg cause /\ errors_Is e ErrTransactionFailed = true
             /\ effects ev = [Executing (Migration.UpSQL mg)] /\ w' = w)
         \/ (exists cause s',
               e = recordError mg cause
               /\ RecordMigration (storage m) mg (store w) = (Some cause, s')
               /\ effects ev = [Executing (Migration.UpSQL mg); StorageRecordMigration mg])
     end.
Proof.
  destruct (applyMigration_cases m mg w) as (xerr & wx & evx & Hexec & _ & Hev & Hcase).
  apply driverEvents_silent in Hev as (Heff & _).
  destruct xerr as [cause|].
  - rewrite Hcase. intros H. injection H as <- <- <-.
    change (applying mg :: Executing (Migration.UpSQL mg) :: evx)
      with ([applying mg; Executing (Migration.UpSQL mg)] ++ evx).
    rewrite effects_app, Heff. simpl.
    split; [apply prefix_cons, prefix_nil|]. left. exists cause.
    apply executeMigration_error in Hexec as (His & Hw & _).
    split; [reflexivity|]. split; [exact His|].
    split; [reflexivity|exact Hw].
  - destruct Hcase as (rerr & s' & HRec & ->). intros H. injection H as <- <- <-.
    assert (Heq : effects (applying mg :: Executing (Migration.UpSQL mg)
                             :: evx ++ StorageRecordMigration mg
                                  :: match rerr with
                                     | None => [applied_ok mg]
                                     | Some _ => []
                                     end)
                  = [Executing (Migration.UpSQL mg); StorageRecordMigration mg]).
    { change (applying mg :: Executing (Migration.UpSQL mg)
                :: evx ++ StorageRecordMigration mg
                     :: match rerr with None => [applied_ok mg] | Some _ => [] end)
        with ([applying mg; Executing (Migration.UpSQL mg)]
                ++ evx ++ StorageRecordMigration mg
                     :: match rerr with None => [applied_ok mg] | Some _ => [] end).
      rewrite !effects_app, Heff. destruct rerr; reflexivity. }
    rewrite Heq. split; [reflexivity|].
    destruct rerr as [cause|]; simpl; [|reflexivity].
    right. exists cause, s'. repeat split. exact HRec.
Qed.

Lemma stoppedAt_later (mg : Migration) (ms : list Migration) e (ev1 ev2 : list event) :
  stoppedAt m ms e ev2 -> stoppedAt m (mg :: ms) e (ev1 ++ ev2).
Proof.
  intros (mg' & Hin & Hcase). exists mg'. split; [right; exact Hin|].
  assert (Hlast : forall x, last (effects ev2) = Some x ->
                            last (effects (ev1 ++ ev2)) = Some x).
  { intros x Hx. rewrite effects_app.
    destruct (effects ev2) as [|y l] eqn:Hev2; [discriminate Hx|].
    rewrite last_app, Hx. reflexivity. }
  destruct Hcase as [(cause & He & His & Hl)|(cause & s & s' & He & HRec & Hl)].
  - left. exists cause. repeat split; try assumption. apply Hlast, Hl.
  - right. exists cause, s, s'. repeat split; try assumption. apply Hlast, Hl.
Qed.

Lemma stoppedAt_first (mg : Migration) (ms : list Migration) (w w' : world St DB) e ev :
  applyMigration m mg w = (Some e, w', ev) -> stoppedAt m (mg :: ms) e (ev ++ []).
Proof.
  intros Happly. rewrite app_nil_r.
  apply applyMigration_outcome in Happly as (_ & Hcase).
  exists mg. split; [left; reflexivity|].
  destruct Hcase as [(cause & He & His & Heff & _)|(cause & s' & He & HRec & Heff)].
  - left. exists cause. rewrite Heff. repeat split; assumption.
  - right. exists cause, (store w), s'. rewrite Heff. repeat split; assumption.
Qed.

Lemma Up_loop_outcome (applied : list MigrationRecord) (ms : list Migration)
    (w w' : world St DB) err ev :
  Up_loop m (appliedVersionsOf applied) ms w = (err, w', ev) ->
  effects ev `prefix_of` applyEffects (pending applied ms)
  /\ forall e, err = Some e -> stoppedAt m ms e ev.
Proof.
  revert w ev. induction ms as [|mg rest IH]; intros w ev Hrun.
  - injection Hrun as <- <- <-. split; [apply prefix_nil|discriminate].
  - simpl in Hrun. unfold pending. simpl.
    rewrite isApplied_appliedVersionsOf in Hrun.
    destruct (versionApplied applied (Migration.Version mg)); simpl.
    + apply bind_inv in Hrun as (? & w1 & ev1 & ev2 & Hskip & Hloop & ->).
      injection Hskip as _ <- <-. rewrite effects_app. simpl.
      destruct (IH _ _ Hloop) as [Hpre Hstop]. split; [exact Hpre|].
      intros e He. apply (stoppedAt_later mg rest e [skipped mg] ev2), Hstop, He.
    + apply bind_inv in Hrun as (aerr & w1 & ev1 & ev2 & Happly & Hloop & ->).
      pose proof (applyMigration_outcome _ _ _ _ _ Happly) as [Hpre1 Hcase].
      destruct aerr as [e1|].
      * injection Hloop as <- <- <-. rewrite app_nil_r. split.
        -- destruct Hpre1 as [k Hk]. exists (k ++ applyEffects (pending applied rest)).
           change (Executing (Migration.UpSQL mg) :: StorageRecordMigration mg
                     :: applyEffects (List.filter _ rest))
             with ([Executing (Migration.UpSQL mg); StorageRecordMigration mg]
                     ++ applyEffects (pending applied rest)).
           rewrite Hk, <- app_assoc. reflexivity.
        -- intros e He. injection He as <-.
           rewrite <- (app_nil_r ev1). apply (stoppedAt_first mg rest w w1), Happly.
      * destruct (IH _ _ Hloop) as [Hpre Hstop]. rewrite effects_app, Hcase. split.
        -- apply prefix_of_two, Hpre.
        -- intros e He. apply stoppedAt_later, Hstop, He.
Qed.

Lemma UpTo_loop_outcome (targetVersion : Z) (applied : list MigrationRecord)
    (ms : list Migration) (w w' : world St DB) err ev :
  UpTo_loop m targetVersion (appliedVersionsOf applied) ms w = (err, w', ev) ->
  effects ev `prefix_of` applyEffects (pending applied ms).
Proof.
  revert w ev. induction ms as [|mg rest IH]; intros w ev Hrun.
  - injection Hrun as <- <- <-. apply prefix_nil.
  - simpl in Hrun.
    destruct (targetVersion <? Migration.Version mg).
    { injection Hrun as <- <- <-. apply prefix_nil. }
    unfold pending. simpl.
    rewrite isApplied_appliedVersionsOf in Hrun.
    destruct (versionApplied applied (Migration.Version mg)); simpl.
    + apply bind_inv in Hrun as (? & w1 & ev1 & ev2 & Hskip & Hloop & ->).
      injection Hskip as _ <- <-. rewrite effects_app. simpl. apply (IH _ _ Hloop).
    + apply bind_inv in Hrun as (aerr & w1 & ev1 & ev2 & Happly & Hloop & ->).
      pose proof (applyMigration_outcome _ _ _ _ _ Happly) as [Hpre1 Hcase].
      destruct aerr as [e1|].
      * injection Hloop as <- <- <-. rewrite app_nil_r.
        destruct Hpre1 as [k Hk]. exists (k ++ applyEffects (pending applied rest)).
        change (Executing (Migration.UpSQL mg) :: StorageRecordMigration mg
                  :: applyEffects (List.filter _ rest))
          with ([Executing (Migration.UpSQL mg); StorageRecordMigration mg]
                  ++ applyEffects (pending applied rest)).
        rewrite Hk, <- app_assoc. reflexivity.
      * rewrite effects_app, Hcase. apply prefix_of_two, (IH _ _ Hloop).
Qed.

(** The rollbacks of a loop of [DownTo] write no record. *)
Lemma DownTo_loop_records_nothing (targetVersion : Z) (records : list MigrationRecord)
    (w : world St DB) :
  recorded (snd (DownTo_loop m targetVersion records w)) = [].
Proof.
  revert w. induction records as [|record rest IH]; intros w; [reflexivity|].
  simpl. destruct (MigrationRecord.Version record <=? targetVersion); [reflexivity|].
  destruct (findMigration m (MigrationRecord.Version record)) as [mg|]; [|reflexivity].
  unfold bind.
  destruct (rollbackMigration m mg w) as [[rerr w1] ev1] eqn:Hroll.
  apply rollbackMigration_effects in Hroll as [[k Hk] _].
  assert (Hrec : recorded ev1 = []).
  { apply (f_equal recorded) in Hk. rewrite recorded_app, recorded_effects in Hk.
    simpl in Hk. symmetry in Hk. apply app_eq_nil in Hk as [H _]. exact H. }
  destruct rerr as [e|].
  - simpl. rewrite app_nil_r. exact Hrec.
  - specialize (IH w1).
    destruct (DownTo_loop m targetVersion rest w1) as [[err w2] ev2].
    simpl in *. rewrite recorded_app, Hrec, IH. reflexivity.
Qed.
End Outcomes.

(** X2. What [Up] does, however it ends: the scripts it enters and the
    records it writes follow, in declared order, the declared migrations of
    which the storage reported no record, each script before its record;
    a run that returns no error has gone through all of them; nothing is
    ever removed. *)
Theorem Up_applies_pending {St DB : Type} (m : migrator St DB) (w w' : world St DB)
    (s1 s2 : St) (applied : list MigrationRecord) (err : option error) (ev : list event) :
  Init (storage m) (store w) = (None, s1) ->
  GetAppliedMigrations (storage m) s1 = (applied, None, s2) ->
  Up m w = (err, w', ev) ->
  effects ev `prefix_of` applyEffects (pending applied (migrations m))
  /\ (err = None ->
      effects ev = applyEffects (pending applied (migrations m))
      /\ recorded ev = pending applied (migrations m)
      /\ executed ev = map Migration.UpSQL (pending applied (migrations m)))
  /\ removed ev = []
  /\ forall mg, In mg (pending applied (migrations m)) <->
                In mg (migrations m)
                /\ ~ exists record, In record applied
                                    /\ MigrationRecord.Version record = Migration.Version mg.
Proof.
  intros HInit HGet Hrun. rewrite (Up_run m w s1 applied s2 HInit HGet) in Hrun.
  destruct (Up_loop m (appliedVersionsOf applied) (migrations m) (World s2 (db w)))
    as [[lerr w1] ev1] eqn:Hloop.
  injection Hrun as <- <- <-.
  pose proof (Up_loop_outcome m _ _ _ _ _ _ Hloop) as [Hpre _].
  assert (Heff : effects (StorageInit :: StorageGetAppliedMigrations :: ev1) = effects ev1)
    by reflexivity.
  cbn [app]. rewrite Heff. split; [exact Hpre|]. split; [|split].
  - intros ->. apply Up_loop_effects in Hloop.
    split; [exact Hloop|].
    rewrite <- (recorded_effects (_ :: _ :: ev1)), <- (executed_effects (_ :: _ :: ev1)).
    rewrite Heff, Hloop.
    split; [apply recorded_applyEffects|apply executed_applyEffects].
  - apply (removed_prefix_applyEffects _ (pending applied (migrations m))).
    rewrite Heff. exact Hpre.
  - intros mg. unfold pending. rewrite filter_In, negb_true_iff.
    rewrite <- versionApplied_true.
    destruct (versionApplied applied (Migration.Version mg)); intuition congruence.
Qed.

Lemma Up_applies_pending_witness :
  effects (snd (Up (withDriver [initial; failing; more]) oneApplied))
  `prefix_of` applyEffects [failing; more]
  /\ removed (snd (Up (withDriver [initial; failing; more]) oneApplied)) = [].
Proof.
  destruct (Up (withDriver [initial; failing; more]) oneApplied) as [[err w'] ev] eqn:Hrun.
  destruct (Up_applies_pending (withDriver [initial; failing; more]) oneApplied w'
              (withApplied [testRecord 1]) (withApplied [testRecord 1]) [testRecord 1]
              err ev eq_refl eq_refl Hrun) as (Hpre & _ & Hrem & _).
  split; [exact Hpre|exact Hrem].
Defined.

(** X3. Why [Up] fails. An error of [Up] is the error of [Init], the error
    of [GetAppliedMigrations], the failure of the script of a declared
    migration (it then wraps the transaction-failed error, and that script
    is the last thing done), or the refusal of the record of a declared
    migration by the storage (the record call is then the last thing
    done). *)
Theorem Up_error_causes {St DB : Type} (m : migrator St DB) (w w' : world St DB)
    (e : error) (ev : list event) :
  Up m w = (Some e, w', ev) ->
  (exists s, Init (storage m) (store w) = (Some e, s))
  \/ (exists s1 applied s2,
        Init (storage m) (store w) = (None, s1)
        /\ GetAppliedMigrations (storage m) s1 = (applied, Some e, s2))
  \/ (exists mg cause,
        In mg (migrations m) /\ e = applyError mg cause
        /\ errors_Is e ErrTransactionFailed = true
        /\ last (effects ev) = Some (Executing (Migration.UpSQL mg)))
  \/ (exists mg cause s s',
        In mg (migrations m) /\ e = recordError mg cause
        /\ RecordMigration (storage m) mg s = (Some cause, s')
        /\ last (effects ev) = Some (StorageRecordMigration mg)).
Proof.
  intros Hrun.
  destruct (Init (storage m) (store w)) as [ierr s1] eqn:HInit.
  destruct ierr as [ie|].
  { left. exists s1. unfold Up, bind, storage_Init in Hrun. rewrite HInit in Hrun.
    injection Hrun as <- _ _. reflexivity. }
  destruct (GetAppliedMigrations (storage m) s1) as [[applied gerr] s2] eqn:HGet.
  destruct gerr as [ge|].
  { right. left. exists s1, applied, s2. split; [reflexivity|].
    unfold Up, bind, storage_Init, storage_GetAppliedMigrations in Hrun.
    rewrite HInit in Hrun. cbn [store db] in Hrun. rewrite HGet in Hrun.
    injection Hrun as <- _ _. exact HGet. }
  right. right.
  rewrite (Up_run m w s1 applied s2 HInit HGet) in Hrun.
  destruct (Up_loop m (appliedVersionsOf applied) (migrations m) (World s2 (db w)))
    as [[lerr w1] ev1] eqn:Hloop.
  injection Hrun as -> <- <-.
  pose proof (Up_loop_outcome m _ _ _ _ _ _ Hloop) as [_ Hstop].
  destruct (Hstop e eq_refl) as (mg & Hin & Hcase).
  assert (Heff : effects (StorageInit :: StorageGetAppliedMigrations :: ev1) = effects ev1)
    by reflexivity.
  cbn [app]. rewrite Heff.
  destruct Hcase as [(cause & He & His & Hl)|(cause & s & s' & He & HRec & Hl)].
  - left. exists mg, cause. repeat split; assumption.
  - right. exists mg, cause, s, s'. repeat split; assumption.
Qed.

Lemma Up_error_causes_witness :
  exists cause,
    fst (fst (Up (withDriver [initial; failing; more]) freshWorld))
    = Some (applyError failing cause)
    /\ last (effects (snd (Up (withDriver [initial; failing; more]) freshWorld)))
       = Some (Executing "FAIL;").
Proof.
  destruct (Up (withDriver [initial; failing; more]) freshWorld) as [[err w'] ev] eqn:Hrun.
  assert (Herr : err = Some (applyError failing (Errorf "" ErrTransactionFailed ": boom")))
    by (vm_compute in Hrun; injection Hrun as <- _ _; reflexivity).
  rewrite Herr in Hrun.
  destruct (Up_error_causes _ _ _ _ _ Hrun)
    as [(s & HInit)|[(s1 & applied & s2 & HInit & HGet)
                    |[(mg & cause & Hin & He & _ & Hlast)
                     |(mg & cause & s & s' & _ & He & _)]]].
  - vm_compute in HInit. discriminate HInit.
  - vm_compute in HInit. injection HInit as <-. vm_compute in HGet. discriminate HGet.
  - exists (Errorf "" ErrTransactionFailed ": boom"). split; [exact Herr|].
    destruct Hin as [<-|[<-|[<-|[]]]];
      first [exact Hlast | vm_compute in He; discriminate He].
  - vm_compute in He. discriminate He.
Defined.

(** X4. Each operation keeps to its side: [Up] and [UpTo] never remove a
    record, [Down] and [DownTo] never write one, and [Status] and [Version]
    enter no script, write and remove no record, and run no statement,
    whatever the storage and the driver answer. *)
Theorem operations_keep_to_their_side {St DB : Type} (m : migrator St DB)
    (targetVersion : Z) (w : world St DB) :
  removed (snd (Up m w)) = []
  /\ removed (snd (UpTo m targetVersion w)) = []
  /\ recorded (snd (Down m w)) = []
  /\ recorded (snd (DownTo m targetVersion w)) = []
  /\ effects (snd (Status m w)) = [] /\ statements (snd (Status m w)) = []
  /\ db (snd (fst (Status m w))) = db w
  /\ effects (snd (Version m w)) = [] /\ statements (snd (Version m w)) = []
  /\ db (snd (fst (Version m w))) = db w.
Proof.
  destruct (Init (storage m) (store w)) as [ierr s1] eqn:HInit.
  destruct (GetAppliedMigrations (storage m) s1) as [[applied gerr] s2] eqn:HGet.
  destruct (GetCurrentVersion (storage m) s1) as [[v verr] s3] eqn:HVer.
  repeat split.
  - unfold Up, bind, storage_Init, storage_GetAppliedMigrations. rewrite HInit.
    destruct ierr; [reflexivity|]. cbn [store db]. rewrite HGet.
    destruct gerr; [reflexivity|].
    destruct (Up_loop m _ _ _) as [[lerr w1] ev1] eqn:Hloop. simpl.
    apply Up_loop_outcome in Hloop as [Hpre _].
    apply (removed_prefix_applyEffects _ _ Hpre).
  - unfold UpTo, bind, storage_Init, storage_GetAppliedMigrations. rewrite HInit.
    destruct ierr; [reflexivity|]. destruct (targetVersion <? 0); [reflexivity|].
    cbn [store db]. rewrite HGet. destruct gerr; [reflexivity|].
    destruct (UpTo_loop m _ _ _ _) as [[lerr w1] ev1] eqn:Hloop. simpl.
    apply UpTo_loop_outcome in Hloop.
    apply (removed_prefix_applyEffects _ _ Hloop).
  - unfold Down, bind, storage_Init, storage_GetCurrentVersion. rewrite HInit.
    destruct ierr; [reflexivity|]. cbn [store db]. rewrite HVer.
    destruct verr; [reflexivity|]. destruct (v =? 0); [reflexivity|].
    destruct (findMigration m v) as [mg|]; [|reflexivity].
    destruct (rollbackMigration m mg _) as [[rerr w1] ev1] eqn:Hroll. simpl.
    apply rollbackMigration_effects in Hroll as [[k Hk] _].
    apply (f_equal recorded) in Hk. rewrite recorded_app, recorded_effects in Hk.
    simpl in Hk. symmetry in Hk. apply app_eq_nil in Hk as [H _]. exact H.
  - unfold DownTo, bind, storage_Init, storage_GetAppliedMigrations. rewrite HInit.
    destruct ierr; [reflexivity|]. destruct (targetVersion <? 0); [reflexivity|].
    cbn [store db]. rewrite HGet. destruct gerr; [reflexivity|].
    pose proof (DownTo_loop_records_nothing m targetVersion (rev applied)
                  (World s2 (db w))) as Hrec.
    destruct (DownTo_loop m _ _ _) as [[lerr w1] ev1]. simpl in *. exact Hrec.
  - unfold Status, bind, storage_Init, storage_GetAppliedMigrations. rewrite HInit.
    destruct ierr; [reflexivity|]. cbn [store db]. rewrite HGet.
    destruct gerr; [reflexivity|]. rewrite Status_loop_run. simpl.
    rewrite effects_app. simpl. rewrite app_nil_r.
    induction (drifted applied (migrations m)) as [|mg l IH]; [reflexivity|exact IH].
  - unfold Status, bind, storage_Init, storage_GetAppliedMigrations. rewrite HInit.
    destruct ierr; [reflexivity|]. cbn [store db]. rewrite HGet.
    destruct gerr; [reflexivity|]. rewrite Status_loop_run. simpl.
    rewrite app_nil_r.
    induction (drifted applied (migrations m)) as [|mg l IH]; [reflexivity|exact IH].
  - unfold Status, bind, storage_Init, storage_GetAppliedMigrations. rewrite HInit.
    destruct ierr; [reflexivity|]. cbn [store db]. rewrite HGet.
    destruct gerr; [reflexivity|]. rewrite Status_loop_run. reflexivity.
  - unfold Version, bind, storage_Init, storage_GetCurrentVersion. rewrite HInit.
    destruct ierr; [reflexivity|]. cbn [store db]. rewrite HVer. reflexivity.
  - unfold Version, bind, storage_Init, storage_GetCurrentVersion. rewrite HInit.
    destruct ierr; [reflexivity|]. cbn [store db]. rewrite HVer. reflexivity.
  - unfold Version, bind, storage_Init, storage_GetCurrentVersion. rewrite HInit.
    destruct ierr; [reflexivity|]. cbn [store db]. rewrite HVer. reflexivity.
Qed.

(** X5. Every operation starts with [Init], and an error of the storage
    comes back as it is, with nothing done after the failed call: the error
    of [Init] from all six operations, the error of [GetAppliedMigrations]
    from [Up], [UpTo], [DownTo] and [Status], the error of
    [GetCurrentVersion] from [Down] and [Version]. *)
Theorem storage_errors_come_back_unchanged {St DB : Type} (m : migrator St DB)
    (targetVersion : Z) (w : world St DB) :
  0 <= targetVersion ->
  (forall e s, Init (storage m) (store w) = (Some e, s) ->
     Up m w = (Some e, World s (db w), [StorageInit])
     /\ UpTo m targetVersion w = (Some e, World s (db w), [StorageInit])
     /\ Down m w = (Some e, World s (db w), [StorageInit])
     /\ DownTo m targetVersion w = (Some e, World s (db w), [StorageInit])
     /\ Status m w = (([], Some e), World s (db w), [StorageInit])
     /\ Version m w = ((0, Some e), World s (db w), [StorageInit]))
  /\ (forall s1 applied e s2,
        Init (storage m) (store w) = (None, s1) ->
        GetAppliedMigrations (storage m) s1 = (applied, Some e, s2) ->
        Up m w = (Some e, World s2 (db w), [StorageInit; StorageGetAppliedMigrations])
        /\ UpTo m targetVersion w
           = (Some e, World s2 (db w), [StorageInit; StorageGetAppliedMigrations])
        /\ DownTo m targetVersion w
           = (Some e, World s2 (db w), [StorageInit; StorageGetAppliedMigrations])
        /\ Status m w
           = (([], Some e), World s2 (db w), [StorageInit; StorageGetAppliedMigrations]))
  /\ (forall s1 version e s2,
        Init (storage m) (store w) = (None, s1) ->
        GetCurrentVersion (storage m) s1 = (version, Some e, s2) ->
        Down m w = (Some e, World s2 (db w), [StorageInit; StorageGetCurrentVersion])
        /\ Version m w
           = ((version, Some e), World s2 (db w), [StorageInit; StorageGetCurrentVersion])).
Proof.
  intros Htarget.
  assert (Hneg : (targetVersion <? 0) = false) by (apply Z.ltb_ge; exact Htarget).
  split; [|split].
  - intros e s HInit.
    unfold Up, UpTo, Down, DownTo, Status, Version, bind, storage_Init.
    rewrite HInit. repeat split.
  - intros s1 applied e s2 HInit HGet.
    unfold Up, UpTo, DownTo, Status, bind, storage_Init, storage_GetAppliedMigrations.
    rewrite HInit, Hneg. cbn [store db]. rewrite HGet. repeat split.
  - intros s1 version e s2 HInit HVer.
    unfold Down, Version, bind, storage_Init, storage_GetCurrentVersion.
    rewrite HInit. cbn [store db]. rewrite HVer. repeat split.
Qed.

Lemma storage_errors_come_back_unchanged_witness :
  Up (testMigrator [initial]) (worldOf initFails)
  = (Some (errorsNew "init failed"), worldOf initFails, [StorageInit])
  /\ Version (testMigrator [initial]) (worldOf versionFails)
     = ((0, Some (errorsNew "version failed")), worldOf versionFails,
        [StorageInit; StorageGetCurrentVersion]).
Proof.
  split.
  - apply (storage_errors_come_back_unchanged (testMigrator [initial]) 0
             (worldOf initFails) ltac:(lia)).
    reflexivity.
  - apply (proj2 (proj2 (storage_errors_come_back_unchanged (testMigrator [initial]) 0
                           (worldOf versionFails) ltac:(lia)))
             versionFails 0 (errorsNew "version failed") versionFails eq_refl eq_refl).
Defined.

(** ** [Down] *)

Section DownFacts.
Context {St DB : Type} (m : migrator St DB).

(** How one rollback ends. *)
Lemma rollbackMigration_outcome (mg : Migration) (w w' : world St DB) err ev :
  rollbackMigration m mg w = (err, w', ev) ->
  match err with
  | None =>
      exists s', RemoveMigration (storage m) (Migration.Version mg) (store w) = (None, s')
                 /\ store w' = s'
  | Some e =>
      (exists cause,
          e = rollbackError mg cause /\ errors_Is e ErrTransactionFailed = true
          /\ removed ev = [] /\ w' = w)
      \/ (exists cause s',
            e = removeError mg cause
            /\ RemoveMigration (storage m) (Migration.Version mg) (store w) = (Some cause, s'))
  end.
Proof.
  destruct (rollbackMigration_cases m mg w) as (xerr & wx & evx & Hexec & _ & Hev & Hcase).
  apply driverEvents_silent in Hev as (Heff & _).
  destruct xerr as [cause|].
  - rewrite Hcase. intros H. injection H as <- <- <-. left. exists cause.
    apply executeMigration_error in Hexec as (His & Hw & _).
    split; [reflexivity|].
    split; [unfold rollbackError; apply errors_Is_Errorf; exact His|].
    split; [|exact Hw].
    rewrite <- removed_effects.
    change (rollingBack mg :: Executing (Migration.DownSQL mg) :: evx)
      with ([rollingBack mg; Executing (Migration.DownSQL mg)] ++ evx).
    rewrite effects_app, Heff. reflexivity.
  - destruct Hcase as (rerr & s' & HRem & ->). intros H. injection H as <- <- <-.
    destruct rerr as [cause|]; simpl.
    + right. exists cause, s'. split; [reflexivity|exact HRem].
    + exists s'. split; [exact HRem|reflexivity].
Qed.

Lemma Down_run (w : world St DB) s1 version s2 :
  Init (storage m) (store w) = (None, s1) ->
  GetCurrentVersion (storage m) s1 = (version, None, s2) ->
  Down m w
  = (if version =? 0 then
       (None, World s2 (db w),
        [StorageInit; StorageGetCurrentVersion; Log Info "no migrations to rollback" []])
     else
       match findMigration m version with
       | None =>
           (Some (notFound version), World s2 (db w),
            [StorageInit; StorageGetCurrentVersion])
       | Some mg =>
           let '(err, w', ev) := rollbackMigration m mg (World s2 (db w)) in
           (err, w', StorageInit :: StorageGetCurrentVersion :: ev)
       end).
Proof.
  intros HInit HVer. unfold Down, bind, storage_Init, storage_GetCurrentVersion.
  rewrite HInit. cbn [store db]. rewrite HVer.
  destruct (version =? 0); [reflexivity|].
  destruct (findMigration m version) as [mg|]; [|reflexivity].
  destruct (rollbackMigration m mg (World s2 (db w))) as [[err w'] ev]. reflexivity.
Qed.
End DownFacts.

(** X6. [Down] works on the version the storage reports as current. At
    version 0 it does nothing and returns no error. At a version that is
    not declared it fails with the migration-not-found error and does
    nothing. Otherwise it enters the reverse script of the first declared
    migration of that version and then removes the record of that version,
    and nothing else; when the script fails no record is removed and the
    world is left as it was after the two storage reads. *)
Theorem Down_rolls_back_current_version {St DB : Type} (m : migrator St DB)
    (w w' : world St DB) (s1 s2 : St) (version : Z) (err : option error)
    (ev : list event) :
  Init (storage m) (store w) = (None, s1) ->
  GetCurrentVersion (storage m) s1 = (version, None, s2) ->
  Down m w = (err, w', ev) ->
  (version = 0 -> err = None /\ w' = World s2 (db w) /\ effects ev = [])
  /\ (version <> 0 -> findMigration m version = None ->
      err = Some (notFound version)
      /\ errors_Is (notFound version) ErrMigrationNotFound = true
      /\ w' = World s2 (db w) /\ effects ev = [])
  /\ (forall mg, version <> 0 -> findMigration m version = Some mg ->
      In mg (migrations m) /\ Migration.Version mg = version
      /\ effects ev `prefix_of`
           [Executing (Migration.DownSQL mg); StorageRemoveMigration version]
      /\ match err with
         | None =>
             effects ev = [Executing (Migration.DownSQL mg); StorageRemoveMigration version]
             /\ exists s3, RemoveMigration (storage m) version s2 = (None, s3)
                           /\ store w' = s3
         | Some e =>
             (exists cause,
                 e = rollbackError mg cause /\ errors_Is e ErrTransactionFailed = true
                 /\ removed ev = [] /\ w' = World s2 (db w))
             \/ (exists cause s3,
                   e = removeError mg cause
                   /\ RemoveMigration (storage m) version s2 = (Some cause, s3))
         end).
Proof.
  intros HInit HVer Hrun. rewrite (Down_run m w s1 version s2 HInit HVer) in Hrun.
  split; [|split].
  - intros ->. simpl in Hrun. injection Hrun as <- <- <-. repeat split.
  - intros Hne Hfind. apply Z.eqb_neq in Hne. rewrite Hne, Hfind in Hrun.
    injection Hrun as <- <- <-. repeat split.
  - intros mg Hne Hfind. apply Z.eqb_neq in Hne. rewrite Hne, Hfind in Hrun.
    destruct (findMigration_version m version mg Hfind) as [Hin Hv].
    destruct (rollbackMigration m mg (World s2 (db w))) as [[rerr w1] ev1] eqn:Hroll.
    injection Hrun as <- <- <-.
    split; [exact Hin|]. split; [exact Hv|].
    pose proof (rollbackMigration_effects m mg _ _ _ _ Hroll) as [Hpre Hok].
    pose proof (rollbackMigration_outcome m mg _ _ _ _ Hroll) as Hout.
    rewrite Hv in Hpre, Hok, Hout.
    assert (Heff : effects (StorageInit :: StorageGetCurrentVersion :: ev1) = effects ev1)
      by reflexivity.
    rewrite Heff. split; [exact Hpre|].
    destruct rerr as [e|].
    + destruct Hout as [(cause & He & His & Hrem & Hw)|(cause & s3 & He & HRem)].
      * left. exists cause. repeat split; assumption.
      * right. exists cause, s3. split; assumption.
    + split; [apply Hok; reflexivity|exact Hout].
Qed.

Lemma Down_rolls_back_current_version_witness :
  effects (snd (Down declared (worldOf (currentVersionIs 2))))
  = [Executing "DROP INDEX i1;"; StorageRemoveMigration 2].
Proof.
  destruct (Down declared (worldOf (currentVersionIs 2))) as [[err w'] ev] eqn:Hrun.
  destruct (Down_rolls_back_current_version declared (worldOf (currentVersionIs 2)) w'
              (currentVersionIs 2) (currentVersionIs 2) 2 err ev eq_refl eq_refl Hrun)
    as (_ & _ & Hdeclared).
  destruct (Hdeclared indexes ltac:(lia) eq_refl) as (_ & _ & _ & Hcase).
  assert (Herr : err = None) by (vm_compute in Hrun; congruence).
  rewrite Herr in Hcase. exact (proj1 Hcase).
Defined.

(** ** The storage double reports its highest version *)

Lemma foldl_max_spec (l : list Z) (acc : Z) :
  let v := foldl (fun maxVersion version => if maxVersion <? version then version
                                            else maxVersion) acc l in
  acc <= v /\ (forall k, In k l -> k <= v) /\ (v = acc \/ In v l).
Proof.
  revert acc. induction l as [|x l IH]; intros acc; simpl.
  - split; [lia|]. split; [intros k []|left; reflexivity].
  - destruct (Z.ltb_spec acc x) as [Hlt|Hge].
    + destruct (IH x) as (Hle & Hall & Hmem).
      split; [lia|]. split.
      * intros k [<-|Hin]; [exact Hle|apply Hall, Hin].
      * destruct Hmem as [->|Hin]; right; [left; reflexivity|right; exact Hin].
    + destruct (IH acc) as (Hle & Hall & Hmem).
      split; [lia|]. split.
      * intros k [<-|Hin]; [lia|apply Hall, Hin].
      * destruct Hmem as [->|Hin]; [left; reflexivity|right; right; exact Hin].
Qed.

Lemma mock_GetCurrentVersion_spec (s : mockStorage) :
  GetVersionFunc s = None ->
  exists v,
    mock_GetCurrentVersion s = (v, None, s)
    /\ 0 <= v
    /\ (forall k, k ∈ dom (appliedMigrations s) -> k <= v)
    /\ (v = 0 \/ v ∈ dom (appliedMigrations s)).
Proof.
  intros Hhook. unfold mock_GetCurrentVersion. rewrite Hhook.
  eexists. split; [reflexivity|].
  destruct (foldl_max_spec (map fst (map_to_list (appliedMigrations s))) 0)
    as (Hle & Hall & Hmem).
  assert (Hkeys : forall k, In k (map fst (map_to_list (appliedMigrations s)))
                            <-> k ∈ dom (appliedMigrations s)).
  { intros k. rewrite elem_of_dom, in_map_iff. split.
    - intros ([k' r] & Hk & Hin). simpl in Hk. subst k'.
      apply list_elem_of_In, elem_of_map_to_list in Hin. exists r. exact Hin.
    - intros [r Hr]. exists (k, r). split; [reflexivity|].
      apply list_elem_of_In, elem_of_map_to_list. exact Hr. }
  split; [exact Hle|]. split.
  - intros k Hk. apply Hall, Hkeys, Hk.
  - destruct Hmem as [Hz|Hin]; [left; exact Hz|right; apply Hkeys, Hin].
Qed.

#[local] Program Instance mockReporting_faithful : FaithfulStorage mockStorage_Storage | 10 :=
  {| sound := mockReporting; appliedSet := fun s => dom (appliedMigrations s) |}.
Next Obligation.
  intros s [Hs Hv]. exists s. destruct Hs as [(HI & HG & HRec & HRem) Hkeys].
  simpl. unfold mock_Init. rewrite HI. repeat split; assumption.
Qed.
Next Obligation.
  intros s [Hs Hv]. exists (map snd (map_to_list (appliedMigrations s))), s.
  pose proof Hs as [(HI & HG & HRec & HRem) Hkeys].
  simpl. unfold mock_GetAppliedMigrations. rewrite HG.
  split; [reflexivity|]. split; [split; assumption|]. split; [reflexivity|].
  intros v. apply mock_records_versions. exact Hs.
Qed.
Next Obligation.
  intros mg s s' [[(HI & HG & HRec & HRem) Hkeys] Hv]. simpl.
  unfold mock_RecordMigration. rewrite HRec. intros H. injection H as <-. simpl.
  split; [|apply dom_insert_L]. split; [|exact Hv].
  split; [repeat split; assumption|].
  intros version record. unfold setApplied. cbn [appliedMigrations].
  rewrite lookup_insert. destruct (decide _) as [<-|Hne].
  - intros H. injection H as <-. reflexivity.
  - apply Hkeys.
Qed.
Next Obligation.
  intros v s s' [[(HI & HG & HRec & HRem) Hkeys] Hv]. simpl.
  unfold mock_RemoveMigration. rewrite HRem. intros H. injection H as <-. simpl.
  split; [|apply dom_delete_L]. split; [|exact Hv].
  split; [repeat split; assumption|].
  intros version record. unfold setApplied. cbn [appliedMigrations].
  rewrite lookup_delete. destruct (decide _) as [<-|Hne].
  - discriminate.
  - apply Hkeys.
Qed.

#[local] Program Instance mockStorage_reports : ReportsCurrentVersion mockStorage_Storage :=
  {| keepsRecords := mockReporting_faithful |}.
Next Obligation.
  intros s [Hs Hv].
  destruct (mock_GetCurrentVersion_spec s Hv) as (v & Hrun & _ & Hall & Hmem).
  exists v, s. split; [exact Hrun|]. split; [split; assumption|].
  split; [reflexivity|]. split; [exact Hall|exact Hmem].
Qed.

Lemma newMockStorage_reporting : mockReporting newMockStorage.
Proof. split; [apply newMockStorage_sound|reflexivity]. Qed.

(** X7. Without the [GetVersionFunc] hook the double reports as current
    version the highest key of its map of records, and 0 when the map is
    empty or holds no key above 0; the call fails never and changes
    nothing. *)
Theorem mock_GetCurrentVersion_highest (s : mockStorage) (v : Z) (err : option error)
    (s' : mockStorage) :
  GetVersionFunc s = None ->
  GetCurrentVersion mockStorage_Storage s = (v, err, s') ->
  err = None /\ s' = s /\ 0 <= v
  /\ (forall k, k ∈ dom (appliedMigrations s) -> k <= v)
  /\ (v = 0 \/ v ∈ dom (appliedMigrations s)).
Proof.
  intros Hhook Hrun. simpl in Hrun.
  destruct (mock_GetCurrentVersion_spec s Hhook) as (v' & Hspec & Hle & Hall & Hmem).
  rewrite Hspec in Hrun. injection Hrun as <- <- <-. repeat split; assumption.
Qed.

Lemma mock_GetCurrentVersion_highest_witness :
  snd (fst (GetCurrentVersion mockStorage_Storage threeRecords)) = None
  /\ 3 <= fst (fst (GetCurrentVersion mockStorage_Storage threeRecords)).
Proof.
  destruct (GetCurrentVersion mockStorage_Storage threeRecords) as [[v err] s'] eqn:Hrun.
  destruct (mock_GetCurrentVersion_highest threeRecords v err s' eq_refl Hrun)
    as (Herr & _ & _ & Hall & _).
  split; [exact Herr|]. apply Hall. apply elem_of_dom. exists (testRecord 3).
  vm_compute. reflexivity.
Defined.

(** ** [Up], then [Down], then [Up] again *)

Lemma find_last_version (init : list Migration) (lastM : Migration) :
  Forall (fun mg => Migration.Version mg < Migration.Version lastM) init ->
  List.find (fun migration => Migration.Version migration =? Migration.Version lastM)
    (init ++ [lastM])
  = Some lastM.
Proof.
  induction 1 as [|mg init Hmg _ IH]; simpl.
  - rewrite Z.eqb_refl. reflexivity.
  - replace (Migration.Version mg =? Migration.Version lastM) with false
      by (symmetry; apply Z.eqb_neq; lia).
    exact IH.
Qed.

Lemma pending_only_last (applied : list MigrationRecord) (init : list Migration)
    (lastM : Migration) :
  (forall mg, In mg init -> versionApplied applied (Migration.Version mg) = true) ->
  versionApplied applied (Migration.Version lastM) = false ->
  pending applied (init ++ [lastM]) = [lastM].
Proof.
  intros Hinit Hlast. unfold pending. rewrite List.filter_app. simpl. rewrite Hlast. simpl.
  replace (List.filter _ init) with (@nil Migration); [reflexivity|].
  symmetry. induction init as [|mg init IH]; [reflexivity|].
  simpl. rewrite (Hinit mg (or_introl eq_refl)). simpl.
  apply IH. intros mg' Hin. apply Hinit. right. exact Hin.
Qed.

Section UpOnFaithful.
Context {St DB : Type} (m : migrator St DB) {F : FaithfulStorage (storage m)}.

(** After a successful [Up] the store holds the versions it held and the
    declared ones. *)
Lemma Up_success_store (w w' : world St DB) ev :
  sound (store w) ->
  Up m w = (None, w', ev) ->
  sound (store w')
  /\ forall v, v ∈ appliedSet (store w')
               <-> v ∈ appliedSet (store w)
                   \/ exists mg, In mg (migrations m) /\ Migration.Version mg = v.
Proof.
  intros Hsound Hrun.
  destruct (Up_start m w Hsound) as (applied & s2 & Hs2 & Hset2 & Hrecs & HUp).
  specialize (HUp (migrations m)). rewrite withMigrations_same in HUp.
  rewrite HUp in Hrun.
  destruct (Up_loop m (appliedVersionsOf applied) (migrations m) (World s2 (db w)))
    as [[lerr w1] ev1] eqn:Hloop.
  injection Hrun as -> <- _.
  destruct (Up_loop_store m _ _ (World s2 (db w)) _ _ Hs2 Hloop)
    as (Hs & Hset & Hrec & Hall & _).
  split; [exact Hs|].
  intros v. rewrite Hset. cbn [store]. rewrite Hset2. split.
  - intros [H|(mg & Hin & Hv)]; [left; exact H|].
    right. exists mg. split; [apply Hrec, Hin|exact Hv].
  - intros [H|(mg & Hin & Hv)]; [left; exact H|].
    destruct (Hall mg Hin) as [Happlied|Hin'].
    + left. rewrite isApplied_appliedVersionsOf in Happlied.
      apply Hrecs. rewrite <- Hv. exact Happlied.
    + right. exists mg. split; assumption.
Qed.

(** [Up] on a store that holds every declared version but the last. *)
Lemma Up_applies_last (init : list Migration) (lastM : Migration)
    (w w' : world St DB) err ev :
  migrations m = init ++ [lastM] ->
  sound (store w) ->
  (forall mg, In mg init -> Migration.Version mg ∈ appliedSet (store w)) ->
  Migration.Version lastM ∉ appliedSet (store w) ->
  Up m w = (err, w', ev) ->
  effects ev `prefix_of` applyEffects [lastM]
  /\ (err = None ->
      effects ev = applyEffects [lastM]
      /\ appliedSet (store w') = {[Migration.Version lastM]} ∪ appliedSet (store w)).
Proof.
  intros Hms Hsound Hinit Hlast Hrun.
  destruct (Up_start m w Hsound) as (applied & s2 & Hs2 & Hset2 & Hrecs & HUp).
  specialize (HUp (migrations m)). rewrite withMigrations_same in HUp.
  rewrite HUp in Hrun.
  destruct (Up_loop m (appliedVersionsOf applied) (migrations m) (World s2 (db w)))
    as [[lerr w1] ev1] eqn:Hloop.
  injection Hrun as <- <- <-.
  assert (Hpending : pending applied (migrations m) = [lastM]).
  { rewrite Hms. apply pending_only_last.
    - intros mg Hmg. apply Hrecs, Hinit, Hmg.
    - destruct (versionApplied applied (Migration.Version lastM)) eqn:Happlied;
        [|reflexivity].
      exfalso. apply Hlast, Hrecs, Happlied. }
  assert (Heff : effects (StorageInit :: StorageGetAppliedMigrations :: ev1) = effects ev1)
    by reflexivity.
  cbn [app]. rewrite Heff.
  pose proof (Up_loop_outcome m _ _ _ _ _ _ Hloop) as [Hpre _].
  rewrite Hpending in Hpre. split; [exact Hpre|].
  intros ->. pose proof (Up_loop_effects m _ _ _ _ _ Hloop) as Hall.
  rewrite Hpending in Hall. split; [exact Hall|].
  destruct (Up_loop_store m _ _ (World s2 (db w)) _ _ Hs2 Hloop) as (_ & Hset & _).
  assert (Hrec : recorded ev1 = [lastM])
    by (rewrite <- recorded_effects, Hall; reflexivity).
  apply set_eq. intros v. rewrite Hset, Hrec. cbn [store]. rewrite Hset2.
  rewrite elem_of_union, elem_of_singleton. split.
  - intros [H|(mg & [<-|[]] & Hv)]; [right; exact H|left; symmetry; exact Hv].
  - intros [->|H]; [right; exists lastM; split; [left|]; reflexivity|left; exact H].
Qed.
End UpOnFaithful.

Section RoundTrip.
Context {St DB : Type} (m : migrator St DB) {R : ReportsCurrentVersion (storage m)}.

(** [Down] on a store whose highest version is that of the last declared
    migration. *)
Lemma Down_removes_last (init : list Migration) (lastM : Migration)
    (w w' : world St DB) err ev :
  migrations m = init ++ [lastM] ->
  Forall (fun mg => Migration.Version mg < Migration.Version lastM) init ->
  0 < Migration.Version lastM ->
  sound (store w) ->
  Migration.Version lastM ∈ appliedSet (store w) ->
  (forall k, k ∈ appliedSet (store w) -> k <= Migration.Version lastM) ->
  Down m w = (err, w', ev) ->
  effects ev `prefix_of`
    [Executing (Migration.DownSQL lastM); StorageRemoveMigration (Migration.Version lastM)]
  /\ (err = None ->
      effects ev
      = [Executing (Migration.DownSQL lastM);
         StorageRemoveMigration (Migration.Version lastM)]
      /\ sound (store w')
      /\ appliedSet (store w') = appliedSet (store w) ∖ {[Migration.Version lastM]}).
Proof.
  intros Hms Hinit Hpos Hsound Hin Hmax Hrun.
  destruct (Init_faithful _ Hsound) as (s1 & HInit & Hs1 & Hset1).
  destruct (GetCurrentVersion_faithful _ Hs1) as (v & s2 & HVer & Hs2 & Hset2 & Hall & Hmem).
  assert (Hv : v = Migration.Version lastM).
  { rewrite Hset1 in Hall, Hmem. specialize (Hall _ Hin).
    destruct Hmem as [->|Hmem]; [lia|]. specialize (Hmax _ Hmem). lia. }
  subst v.
  rewrite (Down_run m w s1 _ s2 HInit HVer) in Hrun.
  replace (Migration.Version lastM =? 0) with false in Hrun
    by (symmetry; apply Z.eqb_neq; lia).
  unfold findMigration in Hrun. rewrite Hms, (find_last_version init lastM Hinit) in Hrun.
  destruct (rollbackMigration m lastM (World s2 (db w))) as [[rerr w1] ev1] eqn:Hroll.
  injection Hrun as <- <- <-.
  pose proof (rollbackMigration_effects m lastM _ _ _ _ Hroll) as [Hpre Hok].
  pose proof (rollbackMigration_outcome m lastM _ _ _ _ Hroll) as Hout.
  assert (Heff : effects (StorageInit :: StorageGetCurrentVersion :: ev1) = effects ev1)
    by reflexivity.
  rewrite Heff. split; [exact Hpre|].
  intros ->. split; [apply Hok; reflexivity|].
  destruct Hout as (s3 & HRem & Hstore). cbn [store] in HRem.
  destruct (RemoveMigration_faithful _ _ _ Hs2 HRem) as [Hs3 Hset3].
  rewrite Hstore. split; [exact Hs3|]. rewrite Hset3, Hset2, Hset1. reflexivity.
Qed.

End RoundTrip.

(** X8. On a storage that keeps its records, a successful [Up] leaves every
    declared version applied, keeps the versions that were applied and adds
    no version that is not declared. *)
Theorem Up_leaves_all_declared_applied {St DB : Type} (m : migrator St DB)
    (F : FaithfulStorage (storage m)) (w w' : world St DB) (ev : list event) :
  sound (store w) ->
  Up m w = (None, w', ev) ->
  sound (store w')
  /\ (forall mg, In mg (migrations m) -> Migration.Version mg ∈ appliedSet (store w'))
  /\ (forall v, v ∈ appliedSet (store w') ->
                v ∈ appliedSet (store w)
                \/ exists mg, In mg (migrations m) /\ Migration.Version mg = v)
  /\ appliedSet (store w) ⊆ appliedSet (store w').
Proof.
  intros Hsound Hrun.
  destruct (Up_success_store m w w' ev Hsound Hrun) as [Hs Hset].
  split; [exact Hs|]. split; [|split].
  - intros mg Hin. apply Hset. right. exists mg. split; [exact Hin|reflexivity].
  - intros v Hv. apply Hset, Hv.
  - intros v Hv. apply Hset. left. exact Hv.
Qed.

Lemma Up_leaves_all_declared_applied_witness :
  1 ∈ appliedSet (store (snd (fst (Up declared freshWorld))))
  /\ 2 ∈ appliedSet (store (snd (fst (Up declared freshWorld))))
  /\ 3 ∈ appliedSet (store (snd (fst (Up declared freshWorld)))).
Proof.
  destruct (Up declared freshWorld) as [[err w'] ev] eqn:Hrun.
  assert (Herr : err = None) by (vm_compute in Hrun; congruence).
  rewrite Herr in Hrun.
  destruct (Up_leaves_all_declared_applied declared mockStorage_faithful freshWorld w' ev
              newMockStorage_sound Hrun) as (_ & Hall & _).
  split; [|split].
  - apply (Hall initial). left. reflexivity.
  - apply (Hall indexes). right. left. reflexivity.
  - apply (Hall more). right. right. left. reflexivity.
Defined.

(** X9. [Down] undoes the last step of [Up], and [Up] redoes it. Let the
    last declared migration have the highest declared version, above 0,
    and let no applied version exceed it. After a successful [Up], [Down]
    does nothing but enter the reverse script of that last migration and
    remove its record; when it returns no error the applied versions are
    those left by [Up] without the last one. A further [Up] then does
    nothing but enter the forward script of the last migration and write
    its record, and when it returns no error the applied versions are again
    those the first [Up] left. *)
Theorem Down_undoes_last_of_Up {St DB : Type} (m : migrator St DB)
    (R : ReportsCurrentVersion (storage m)) (init : list Migration) (lastM : Migration)
    (w w1 w2 : world St DB) (ev1 ev2 : list event) (err2 : option error) :
  migrations m = init ++ [lastM] ->
  Forall (fun mg => Migration.Version mg < Migration.Version lastM) init ->
  0 < Migration.Version lastM ->
  sound (store w) ->
  (forall k, k ∈ appliedSet (store w) -> k <= Migration.Version lastM) ->
  Up m w = (None, w1, ev1) ->
  Down m w1 = (err2, w2, ev2) ->
  effects ev2 `prefix_of`
    [Executing (Migration.DownSQL lastM); StorageRemoveMigration (Migration.Version lastM)]
  /\ (err2 = None ->
      effects ev2
      = [Executing (Migration.DownSQL lastM);
         StorageRemoveMigration (Migration.Version lastM)]
      /\ appliedSet (store w2) = appliedSet (store w1) ∖ {[Migration.Version lastM]}
      /\ forall err3 w3 ev3,
           Up m w2 = (err3, w3, ev3) ->
           effects ev3 `prefix_of` applyEffects [lastM]
           /\ (err3 = None ->
               effects ev3 = applyEffects [lastM]
               /\ appliedSet (store w3) = appliedSet (store w1))).
Proof.
  intros Hms Hinit Hpos Hsound Hmax HUp HDown.
  destruct (Up_success_store m w w1 ev1 Hsound HUp) as [Hs1 Hset1].
  assert (Hdeclared : forall mg, In mg (migrations m) ->
                                 Migration.Version mg ∈ appliedSet (store w1)).
  { intros mg Hin. apply Hset1. right. exists mg. split; [exact Hin|reflexivity]. }
  assert (Hlast : Migration.Version lastM ∈ appliedSet (store w1)).
  { apply Hdeclared. rewrite Hms. apply in_or_app. right. left. reflexivity. }
  assert (Hmax1 : forall k, k ∈ appliedSet (store w1) -> k <= Migration.Version lastM).
  { intros k Hk. apply Hset1 in Hk as [Hold|(mg & Hin & <-)]; [apply Hmax, Hold|].
    rewrite Hms in Hin. apply in_app_or in Hin as [Hin|[<-|[]]]; [|lia].
    rewrite List.Forall_forall in Hinit. specialize (Hinit mg Hin). lia. }
  destruct (Down_removes_last m init lastM w1 w2 err2 ev2 Hms Hinit Hpos Hs1 Hlast Hmax1
              HDown) as [Hpre Hok].
  split; [exact Hpre|]. intros Herr. destruct (Hok Herr) as (Heff & Hs2 & Hset2).
  split; [exact Heff|]. split; [exact Hset2|].
  intros err3 w3 ev3 HUp3.
  assert (Hinit2 : forall mg, In mg init -> Migration.Version mg ∈ appliedSet (store w2)).
  { intros mg Hin. rewrite Hset2. apply elem_of_difference. split.
    - apply Hdeclared. rewrite Hms. apply in_or_app. left. exact Hin.
    - rewrite elem_of_singleton. rewrite List.Forall_forall in Hinit.
      specialize (Hinit mg Hin). lia. }
  assert (Hlast2 : Migration.Version lastM ∉ appliedSet (store w2)).
  { rewrite Hset2. intros H. apply elem_of_difference in H as [_ H].
    apply H, elem_of_singleton. reflexivity. }
  destruct (Up_applies_last m init lastM w2 w3 err3 ev3 Hms Hs2 Hinit2 Hlast2 HUp3)
    as [Hpre3 Hok3].
  split; [exact Hpre3|]. intros Herr3. destruct (Hok3 Herr3) as [Heff3 Hset3].
  split; [exact Heff3|]. rewrite Hset3, Hset2. apply set_eq. intros v.
  rewrite elem_of_union, elem_of_difference, elem_of_singleton.
  destruct (decide (v = Migration.Version lastM)) as [->|Hne]; [tauto|tauto].
Qed.

Lemma Down_undoes_last_of_Up_witness :
  effects (snd (Down declared (snd (fst (Up declared freshWorld)))))
  `prefix_of` [Executing "DROP INDEX i2;"; StorageRemoveMigration 3].
Proof.
  destruct (Up declared freshWorld) as [[err1 w1] ev1] eqn:HUp.
  assert (Herr : err1 = None) by (vm_compute in HUp; congruence).
  rewrite Herr in HUp. simpl.
  destruct (Down declared w1) as [[err2 w2] ev2] eqn:HDown.
  assert (Hinit : Forall (fun mg => Migration.Version mg < Migration.Version more)
                    [initial; indexes])
    by (repeat constructor; simpl; lia).
  assert (Hnone : forall k, k ∈ appliedSet (store freshWorld) ->
                            k <= Migration.Version more).
  { intros k Hk. simpl in Hk. apply elem_of_dom in Hk as [record Hrecord].
    rewrite lookup_empty in Hrecord. discriminate Hrecord. }
  exact (proj1 (Down_undoes_last_of_Up declared mockStorage_reports [initial; indexes] more
                  freshWorld w1 w2 ev1 ev2 err2 eq_refl Hinit ltac:(simpl; lia)
                  newMockStorage_reporting Hnone HUp HDown)).
Defined.

(** ** The names of migration files (parser.go, migrationFilePattern) *)

#[local] Arguments append !s1 s2 : simpl nomatch.

Lemma string_app_assoc (a b c : string) : (a +:+ b) +:+ c = a +:+ (b +:+ c).
Proof. induction a as [|x a IH]; [reflexivity|]. simpl. rewrite IH. reflexivity. Qed.

Lemma string_app_nil_r (a : string) : a +:+ "" = a.
Proof. induction a as [|x a IH]; [reflexivity|]. simpl. rewrite IH. reflexivity. Qed.

Lemma string_length_app (a b : string) :
  String.length (a +:+ b) = (String.length a + String.length b)%nat.
Proof. induction a as [|x a IH]; [reflexivity|]. simpl. rewrite IH. reflexivity. Qed.

Lemma spanDigits_spec (s ds rest : string) :
  spanDigits s = (ds, rest) ->
  s = ds +:+ rest /\ allDigits ds = true
  /\ match rest with
     | EmptyString => True
     | String c _ => isDigit c = false
     end.
Proof.
  revert ds rest. induction s as [|c s IH]; intros ds rest; simpl.
  - intros H. injection H as <- <-. repeat split.
  - destruct (isDigit c) eqn:Hc.
    + destruct (spanDigits s) as [ds' rest'] eqn:Hs. intros H. injection H as <- <-.
      destruct (IH _ _ eq_refl) as (-> & Hall & Hrest).
      simpl. rewrite Hc, Hall. repeat split. exact Hrest.
    + intros H. injection H as <- <-. repeat split. exact Hc.
Qed.

Lemma spanDigits_app (ds rest : string) :
  allDigits ds = true ->
  match rest with
  | EmptyString => True
  | String c _ => isDigit c = false
  end ->
  spanDigits (ds +:+ rest) = (ds, rest).
Proof.
  intros Hall Hrest. induction ds as [|c ds IH]; simpl.
  - destruct rest as [|c rest]; [reflexivity|]. simpl. rewrite Hrest. reflexivity.
  - simpl in Hall. apply andb_prop in Hall as [Hc Hall]. rewrite Hc, (IH Hall). reflexivity.
Qed.

Lemma stripSuffix_sound (suffix s body : string) :
  stripSuffix suffix s = Some body -> s = body +:+ suffix.
Proof.
  revert body. induction s as [|c s IH]; intros body; cbn [stripSuffix].
  - destruct (String.eqb_spec "" suffix) as [<-|_]; [|discriminate].
    intros H. injection H as <-. reflexivity.
  - destruct (String.eqb_spec (String c s) suffix) as [<-|_].
    + intros H. injection H as <-. reflexivity.
    + destruct (stripSuffix suffix s) as [body'|]; [|discriminate].
      intros H. injection H as <-. simpl. rewrite (IH body' eq_refl). reflexivity.
Qed.

Lemma stripSuffix_app (suffix body : string) :
  stripSuffix suffix (body +:+ suffix) = Some body.
Proof.
  induction body as [|c body IH].
  - simpl. destruct suffix; simpl; rewrite ?Ascii.eqb_refl, ?String.eqb_refl; reflexivity.
  - cbn [append stripSuffix]. rewrite IH.
    destruct (String.eqb_spec (String c (body +:+ suffix)) suffix) as [Heq|_]; [|reflexivity].
    exfalso. apply (f_equal String.length) in Heq. simpl in Heq.
    rewrite string_length_app in Heq. lia.
Qed.

Lemma hasLineFeed_app (a b : string) :
  hasLineFeed (a +:+ b) = hasLineFeed a || hasLineFeed b.
Proof.
  induction a as [|c a IH]; [reflexivity|]. simpl. rewrite IH. apply orb_assoc.
Qed.

Lemma FindStringSubmatch_sound (fileName digits name : string) :
  FindStringSubmatch fileName = Some (digits, name) ->
  fileName = digits +:+ "_" +:+ name +:+ ".cypher"
  /\ digits <> "" /\ allDigits digits = true
  /\ name <> "" /\ hasLineFeed name = false.
Proof.
  unfold FindStringSubmatch.
  destruct (spanDigits fileName) as [ds rest] eqn:Hspan.
  apply spanDigits_spec in Hspan as (-> & Hall & _).
  destruct ds as [|d ds]; [discriminate|].
  destruct rest as [|c tail]; [discriminate|].
  destruct (Ascii.eqb_spec c "_") as [->|Hc].
  2:{ destruct c as [[] [] [] [] [] [] [] []]; try discriminate. exfalso. apply Hc.
      reflexivity. }
  destruct (stripSuffix ".cypher" tail) as [body|] eqn:Hstrip; [|discriminate].
  destruct body as [|b body]; [discriminate|].
  destruct (hasLineFeed tail) eqn:Hlf; [discriminate|].
  intros H. injection H as <- <-.
  apply stripSuffix_sound in Hstrip. subst tail.
  rewrite hasLineFeed_app in Hlf. apply orb_false_elim in Hlf as [Hlf _].
  repeat split; try assumption; discriminate.
Qed.

Lemma FindStringSubmatch_spec_complete (digits name : string) :
  digits <> "" -> allDigits digits = true -> name <> "" -> hasLineFeed name = false ->
  FindStringSubmatch (digits +:+ "_" +:+ name +:+ ".cypher") = Some (digits, name).
Proof.
  intros Hne Hall Hname Hlf. unfold FindStringSubmatch.
  rewrite (spanDigits_app digits ("_" +:+ name +:+ ".cypher") Hall eq_refl).
  destruct digits as [|d ds]; [contradiction|].
  cbn [append]. rewrite stripSuffix_app.
  destruct name as [|c body]; [contradiction|].
  rewrite hasLineFeed_app, Hlf. reflexivity.
Qed.

(** X10. The names the pattern accepts. [FindStringSubmatch] returns the
    pair [(digits, name)] exactly for the file names of the form
    [digits_name.cypher] in which [digits] is a non-empty run of decimal
    digits and [name] is non-empty and holds no line feed; [name] is all
    that stands between the first underscore after the digits and the
    final extension, further underscores and dots included. *)
Theorem FindStringSubmatch_spec (fileName digits name : string) :
  FindStringSubmatch fileName = Some (digits, name)
  <-> fileName = digits +:+ "_" +:+ name +:+ ".cypher"
      /\ digits <> "" /\ allDigits digits = true
      /\ name <> "" /\ hasLineFeed name = false.
Proof.
  split; [apply FindStringSubmatch_sound|].
  intros (-> & Hne & Hall & Hname & Hlf).
  apply FindStringSubmatch_spec_complete; assumption.
Qed.

(** ** The sections of a migration file (parser.go, splitUpDown) *)

Lemma rawLines_from_line (cur l rest : string) :
  hasLineFeed l = false ->
  rawLines_from cur (l +:+ String "010" rest) = (cur +:+ l) :: rawLines_from "" rest.
Proof.
  revert cur. induction l as [|c l IH]; intros cur Hlf.
  - simpl. rewrite string_app_nil_r. reflexivity.
  - simpl in Hlf. apply orb_false_elim in Hlf as [Hc Hlf].
    cbn [append rawLines_from]. rewrite Hc, (IH _ Hlf), string_app_assoc. reflexivity.
Qed.

Lemma rawLines_joinLines (lines : list string) :
  Forall scannable lines -> rawLines (joinLines lines) = lines.
Proof.
  unfold rawLines. induction 1 as [|l lines [Hlf _] _ IH]; [reflexivity|].
  cbn [joinLines]. rewrite string_app_assoc. cbn [append].
  rewrite (rawLines_from_line "" l _ Hlf), IH. reflexivity.
Qed.

Lemma scanTokens_scannable (lines : list string) :
  Forall scannable lines -> scanTokens lines = (map dropCR lines, None).
Proof.
  induction 1 as [|l lines [_ Hlen] _ IH]; [reflexivity|].
  simpl. rewrite IH.
  replace (MaxScanTokenSize <=? Z.of_nat (String.length l)) with false
    by (symmetry; apply Z.leb_gt; exact Hlen).
  reflexivity.
Qed.

Lemma splitLoop_plain (lines rest : list string) (upSQL downSQL : string) (sec : section) :
  Forall noMarker lines ->
  splitLoop (lines ++ rest) upSQL downSQL sec
  = match sec with
    | noSection => splitLoop rest upSQL downSQL sec
    | upSection => splitLoop rest (upSQL +:+ joinLines lines) downSQL sec
    | downSection => splitLoop rest upSQL (downSQL +:+ joinLines lines) sec
    end.
Proof.
  intros Hlines. revert upSQL downSQL.
  induction Hlines as [|l lines [Hup Hdown] _ IH]; intros upSQL downSQL.
  - simpl. rewrite !string_app_nil_r. destruct sec; reflexivity.
  - cbn [app splitLoop joinLines]. rewrite Hup, Hdown.
    destruct sec; rewrite IH; rewrite ?string_app_assoc; reflexivity.
Qed.

Lemma HasPrefix_true (s prefix : string) :
  HasPrefix s prefix = true -> exists rest, s = prefix +:+ rest.
Proof.
  revert s. induction prefix as [|p prefix IH]; intros s; [exists s; reflexivity|].
  destruct s as [|c s]; [discriminate|]. cbn [HasPrefix].
  intros H. apply andb_prop in H as [Hc Hs]. apply Ascii.eqb_eq in Hc as ->.
  destruct (IH s Hs) as [rest ->]. exists rest. reflexivity.
Qed.

Lemma HasPrefix_down_not_up (l : string) :
  HasPrefix l downMarker = true -> HasPrefix l upMarker = false.
Proof. intros H. apply HasPrefix_true in H as [rest ->]. reflexivity. Qed.

(** X11. The file format. A file made of any lines without a marker, a
    line that starts with the up marker, the lines of the forward script, a
    line that starts with the down marker and the lines of the reverse
    script is split into exactly these two scripts, each line ended by a
    line feed and freed of a trailing carriage return; what stands before
    the up marker is dropped. The result of [splitUpDown] is the two
    scripts trimmed, the missing-up-statement error when the first is
    blank, the missing-down-statement error when only the second is. *)
Theorem splitUpDown_sections (before ups downs : list string) (upLine downLine : string) :
  Forall scannable (before ++ upLine :: ups ++ downLine :: downs) ->
  Forall noMarker (map dropCR before) ->
  HasPrefix (dropCR upLine) upMarker = true ->
  Forall noMarker (map dropCR ups) ->
  HasPrefix (dropCR downLine) downMarker = true ->
  Forall noMarker (map dropCR downs) ->
  let content := joinLines (before ++ upLine :: ups ++ downLine :: downs) in
  let upSQL := joinLines (map dropCR ups) in
  let downSQL := joinLines (map dropCR downs) in
  sectionsOf content = (upSQL, downSQL)
  /\ splitUpDown content
     = (if String.eqb (TrimSpace upSQL) "" then ("", "", Some ErrNoUpStatement)
        else if String.eqb (TrimSpace downSQL) "" then ("", "", Some ErrNoDownStatement)
        else (TrimSpace upSQL, TrimSpace downSQL, None)).
Proof.
  intros Hscan Hbefore Hup Hups Hdown Hdowns content upSQL downSQL.
  assert (Hloop : splitLoop (map dropCR (before ++ upLine :: ups ++ downLine :: downs))
                    "" "" noSection = (upSQL, downSQL)).
  { rewrite map_app. cbn [map]. rewrite map_app. cbn [map].
    rewrite (splitLoop_plain _ _ _ _ _ Hbefore).
    cbn [splitLoop]. rewrite Hup.
    rewrite (splitLoop_plain _ _ _ _ _ Hups).
    cbn [splitLoop]. rewrite (HasPrefix_down_not_up _ Hdown), Hdown.
    rewrite <- (app_nil_r (map dropCR downs)).
    rewrite (splitLoop_plain _ _ _ _ _ Hdowns). reflexivity. }
  assert (Hsections : sectionsOf content = (upSQL, downSQL)).
  { unfold sectionsOf, content.
    rewrite (rawLines_joinLines _ Hscan), (scanTokens_scannable _ Hscan). exact Hloop. }
  split; [exact Hsections|].
  unfold splitUpDown. fold content.
  unfold sectionsOf in Hsections.
  unfold content in *. rewrite (rawLines_joinLines _ Hscan) in *.
  rewrite (scanTokens_scannable _ Hscan) in *. cbn [fst] in Hsections.
  rewrite Hsections. reflexivity.
Qed.

Lemma splitUpDown_sections_witness :
  splitUpDown (joinLines ["// a comment"; "-- +neo4go Up"; createUser; ""; createEmail;
                          "-- +neo4go Down"; dropEmail; dropUser])
  = (joinLines [createUser; ""] +:+ createEmail, line dropEmail +:+ dropUser, None).
Proof.
  assert (Hscan : forall l, hasLineFeed l = false ->
                            (String.length l < 100)%nat -> scannable l).
  { intros l Hlf Hlen. split; [exact Hlf|]. unfold MaxScanTokenSize. lia. }
  destruct (splitUpDown_sections ["// a comment"] [createUser; ""; createEmail]
              [dropEmail; dropUser] "-- +neo4go Up" "-- +neo4go Down") as [_ Hsplit].
  - repeat (constructor; [apply Hscan; [reflexivity|simpl; lia]|]). constructor.
  - repeat constructor.
  - reflexivity.
  - repeat constructor.
  - reflexivity.
  - repeat constructor.
  - refine (eq_trans Hsplit _). vm_compute. reflexivity.
Defined.

(** ** The directory of migrations (parser.go, parseMigrations) *)

Lemma splitUpDown_outcome (content upSQL downSQL : string) (err : option error) :
  splitUpDown content = (upSQL, downSQL, err) ->
  match err with
  | None => upSQL <> "" /\ downSQL <> ""
  | Some cause =>
      cause = Errorf "failed to scan file: " ErrTooLong ""
      \/ cause = ErrNoUpStatement \/ cause = ErrNoDownStatement
  end.
Proof.
  unfold splitUpDown.
  destruct (scanTokens (rawLines content)) as [lines scanErr] eqn:Hscan.
  destruct (splitLoop lines "" "" noSection) as [u d].
  destruct scanErr as [serr|].
  - intros H. injection H as _ _ <-. left.
    assert (Hserr : forall raw ls e, scanTokens raw = (ls, Some e) -> e = ErrTooLong).
    { clear. induction raw as [|l raw IH]; intros ls e; simpl; [discriminate|].
      destruct (MaxScanTokenSize <=? _); [intros H; injection H as _ <-; reflexivity|].
      destruct (scanTokens raw) as [ts te]. intros H. injection H as _ ->.
      apply (IH ts e eq_refl). }
    rewrite (Hserr _ _ _ Hscan). reflexivity.
  - destruct (String.eqb_spec (TrimSpace u) "") as [_|Hu].
    + intros H. injection H as _ _ <-. right. left. reflexivity.
    + destruct (String.eqb_spec (TrimSpace d) "") as [_|Hd].
      * intros H. injection H as _ _ <-. right. right. reflexivity.
      * intros H. injection H as <- <- <-. split; assumption.
Qed.

Lemma digitsValue_nonneg (s : string) (acc : Z) :
  allDigits s = true -> 0 <= acc -> 0 <= digitsValue acc s.
Proof.
  revert acc. induction s as [|c s IH]; intros acc Hall Hacc; [exact Hacc|].
  simpl in *. apply andb_prop in Hall as [Hc Hall]. apply IH; [exact Hall|].
  unfold isDigit in Hc. apply andb_prop in Hc as [Hlo _]. apply Z.leb_le in Hlo. lia.
Qed.

Section Directory.
Context {G : GoLib}.

Lemma parseMigrationFile_outcome (fsys : FS) (path : string) (version : Z) (name : string)
    (mg : Migration) (err : option error) :
  parseMigrationFile fsys path version name = (mg, err) ->
  match err with
  | None =>
      exists content,
        OpenRead fsys path = FileBytes content
        /\ splitUpDown content = (Migration.UpSQL mg, Migration.DownSQL mg, None)
        /\ Migration.Version mg = version /\ Migration.Name mg = name
        /\ Migration.Checksum mg = calculateChecksum content
  | Some cause => fileError fsys path cause
  end.
Proof.
  unfold parseMigrationFile, fileError.
  destruct (OpenRead fsys path) as [oerr|rerr|content].
  - intros H. injection H as _ <-. reflexivity.
  - intros H. injection H as _ <-. reflexivity.
  - destruct (splitUpDown content) as [[u d] serr] eqn:Hsplit.
    pose proof (splitUpDown_outcome _ _ _ _ Hsplit) as Hout.
    destruct serr as [cause|].
    + intros H. injection H as _ <-. split; [reflexivity|exact Hout].
    + intros H. injection H as <- <-. exists content. repeat split. exact Hsplit.
Qed.

Lemma parseEntries_skip (fsys : FS) (dir : string) (entry : DirEntry)
    (rest : list DirEntry) (acc : list Migration) :
  isMigrationFile entry = false ->
  parseEntries fsys dir (entry :: rest) acc = parseEntries fsys dir rest acc.
Proof.
  unfold isMigrationFile. simpl. destruct (DirEntry.IsDir entry); [reflexivity|].
  destruct (FindStringSubmatch (DirEntry.Name entry)) as [[digits name]|]; [|reflexivity].
  destruct (Atoi digits); [discriminate|reflexivity].
Qed.

Lemma parseEntries_filter (fsys : FS) (dir : string) (entries : list DirEntry)
    (acc : list Migration) :
  parseEntries fsys dir entries acc
  = parseEntries fsys dir (List.filter isMigrationFile entries) acc.
Proof.
  revert acc. induction entries as [|entry rest IH]; intros acc; [reflexivity|].
  cbn [List.filter]. destruct (isMigrationFile entry) eqn:Hfile.
  - unfold isMigrationFile in Hfile. simpl.
    destruct (DirEntry.IsDir entry); [discriminate|].
    destruct (FindStringSubmatch (DirEntry.Name entry)) as [[digits name]|]; [|discriminate].
    destruct (Atoi digits); [|discriminate].
    destruct (parseMigrationFile _ _ _ _) as [mg [cause|]]; [reflexivity|apply IH].
  - rewrite parseEntries_skip by exact Hfile. apply IH.
Qed.

(** What the loop over the entries returns: one migration for each
    migration file, in the order of the listing, or the error of the first
    migration file that cannot be parsed, under the name of that file. *)
Lemma parseEntries_outcome (fsys : FS) (dir : string) (entries : list DirEntry)
    (acc parsed : list Migration) (err : option error) :
  parseEntries fsys dir entries acc = (parsed, err) ->
  match err with
  | None =>
      exists new,
        parsed = acc ++ new
        /\ Forall2 (parsedFrom fsys dir) (List.filter isMigrationFile entries) new
  | Some e =>
      parsed = []
      /\ exists entry cause,
           In entry entries /\ isMigrationFile entry = true
           /\ e = parseError (DirEntry.Name entry) cause
           /\ fileError fsys (filepath_Join dir (DirEntry.Name entry)) cause
  end.
Proof.
  revert acc. induction entries as [|entry rest IH]; intros acc.
  - simpl. intros H. injection H as <- <-. exists []. rewrite app_nil_r.
    split; [reflexivity|constructor].
  - destruct (isMigrationFile entry) eqn:Hfile.
    2:{ rewrite parseEntries_skip by exact Hfile. intros Hrun.
        specialize (IH _ Hrun). cbn [List.filter]. rewrite Hfile.
        destruct err as [e|]; [|exact IH].
        destruct IH as (Hnil & entry' & cause & Hin & Hrest).
        split; [exact Hnil|]. exists entry', cause. split; [right; exact Hin|exact Hrest]. }
    cbn [List.filter]. rewrite Hfile. pose proof Hfile as Hfile'.
    unfold isMigrationFile in Hfile. simpl.
    destruct (DirEntry.IsDir entry) eqn:Hdir; [discriminate|].
    destruct (FindStringSubmatch (DirEntry.Name entry)) as [[digits name]|] eqn:Hfind;
      [|discriminate].
    destruct (Atoi digits) as [version|] eqn:Hatoi; [|discriminate].
    destruct (parseMigrationFile fsys (filepath_Join dir (DirEntry.Name entry)) version name)
      as [mg ferr] eqn:Hparse.
    pose proof (parseMigrationFile_outcome _ _ _ _ _ _ Hparse) as Hout.
    destruct ferr as [cause|].
    + intros H. injection H as <- <-. split; [reflexivity|].
      exists entry, cause. split; [left; reflexivity|].
      split; [exact Hfile'|]. split; [reflexivity|exact Hout].
    + intros Hrun. specialize (IH _ Hrun).
      destruct Hout as (content & Hopen & Hsplit & Hversion & Hname & Hsum).
      destruct err as [e|].
      * destruct IH as (Hnil & entry' & cause & Hin & Hrest).
        split; [exact Hnil|]. exists entry', cause. split; [right; exact Hin|exact Hrest].
      * destruct IH as (new & -> & Hall). exists (mg :: new).
        split; [rewrite <- app_assoc; reflexivity|].
        constructor; [|exact Hall].
        split; [exact Hdir|]. exists digits, content. subst version name.
        repeat split; assumption.
Qed.
End Directory.

Lemma parsedFrom_wellFormed {G : GoLib} (fsys : FS) (dir : string) (entry : DirEntry)
    (mg : Migration) :
  parsedFrom fsys dir entry mg ->
  Migration.UpSQL mg <> "" /\ Migration.DownSQL mg <> "" /\ Migration.Name mg <> ""
  /\ 0 <= Migration.Version mg <= maxInt.
Proof.
  intros (_ & digits & content & Hfind & Hatoi & _ & Hsplit & _).
  apply splitUpDown_outcome in Hsplit as [Hup Hdown].
  apply FindStringSubmatch_sound in Hfind as (_ & _ & Hall & Hname & _).
  split; [exact Hup|]. split; [exact Hdown|]. split; [exact Hname|].
  unfold Atoi in Hatoi.
  destruct (Z.leb_spec (digitsValue 0 digits) maxInt) as [Hle|]; [|discriminate].
  injection Hatoi as <-. split; [apply digitsValue_nonneg; [exact Hall|lia]|exact Hle].
Qed.

Lemma parsedFrom_all_wellFormed {G : GoLib} (fsys : FS) (dir : string)
    (entries : list DirEntry) (parsed : list Migration) :
  Forall2 (parsedFrom fsys dir) entries parsed ->
  Forall (fun mg => Migration.UpSQL mg <> "" /\ Migration.DownSQL mg <> ""
                    /\ Migration.Name mg <> "" /\ 0 <= Migration.Version mg <= maxInt)
    parsed.
Proof.
  induction 1 as [|entry mg entries parsed Hfrom _ IH]; constructor; [|exact IH].
  apply (parsedFrom_wellFormed fsys dir entry mg Hfrom).
Qed.

(** X12. One migration for each migration file. When [parseMigrations]
    returns no error, the sequence it returns is a rearrangement of the
    migrations made, in the order of the listing, of the entries that are
    migration files: for each of them the version is the value of the
    numeric prefix, the name is the part between the underscore and the
    extension, the two scripts are the sections of the file's content and
    the checksum is the digest of that content. Every migration returned
    has non-empty scripts, a non-empty name and a version between 0 and the
    largest [int]; at least one is returned. *)
Theorem parseMigrations_one_per_file (G : GoLib) (fsys : FS) (dir : string)
    (entries : list DirEntry) (ms : list Migration) :
  GoLibContract G ->
  ReadDir fsys dir = (entries, None) ->
  parseMigrations fsys dir = (ms, None) ->
  (exists parsed,
      Permutation ms parsed
      /\ Forall2 (parsedFrom fsys dir) (List.filter isMigrationFile entries) parsed)
  /\ Forall (fun mg => Migration.UpSQL mg <> "" /\ Migration.DownSQL mg <> ""
                       /\ Migration.Name mg <> "" /\ 0 <= Migration.Version mg <= maxInt)
       ms
  /\ length ms = length (List.filter isMigrationFile entries)
  /\ ms <> [].
Proof.
  intros Hlib HRead Hparse. unfold parseMigrations in Hparse. rewrite HRead in Hparse.
  destruct (parseEntries fsys dir entries []) as [parsed perr] eqn:Hentries.
  pose proof (parseEntries_outcome _ _ _ _ _ _ Hentries) as Hout.
  destruct perr as [e|]; [discriminate|].
  destruct Hout as (new & Hnew & Hall). simpl in Hnew. subst new.
  destruct (length parsed =? 0)%nat eqn:Hlen; [discriminate|].
  injection Hparse as <-.
  pose proof (sort_Slice_Permutation parsed) as Hperm.
  split; [exists parsed; split; assumption|]. split; [|split].
  - apply (Permutation_Forall (Permutation_sym Hperm)).
    apply (parsedFrom_all_wellFormed fsys dir _ _ Hall).
  - rewrite (Permutation_length Hperm). symmetry. eapply Forall2_length, Hall.
  - intros Hnil. rewrite Hnil in Hperm. apply Permutation_nil in Hperm. subst parsed.
    discriminate Hlen.
Qed.

Lemma parseMigrations_one_per_file_witness :
  length (fst (@parseMigrations exampleLib hugePrefix ".")) = 1%nat
  /\ Forall (fun mg => Migration.UpSQL mg <> "" /\ Migration.DownSQL mg <> ""
                       /\ Migration.Name mg <> "" /\ 0 <= Migration.Version mg <= maxInt)
       (fst (@parseMigrations exampleLib hugePrefix ".")).
Proof.
  destruct (@parseMigrations exampleLib hugePrefix ".") as [ms err] eqn:Hparse.
  assert (Herr : err = None) by (vm_compute in Hparse; congruence).
  rewrite Herr in Hparse.
  destruct (parseMigrations_one_per_file exampleLib hugePrefix "."
              [DirEntry.mk "001_initial.cypher" false;
               DirEntry.mk "99999999999999999999_big.cypher" false] ms
              exampleLib_contract eq_refl Hparse) as (_ & Hall & Hlen & _).
  split; [exact Hlen|exact Hall].
Defined.

(** X13. Only migration files count. The result of [parseMigrations],
    error included, is the one it gives on the listing reduced to the
    migration files: directories, names that do not match the pattern and
    names whose numeric prefix is no [int] change nothing, and their
    content is never read. When no entry is a migration file the result is
    the no-migrations error. *)
Theorem parseMigrations_ignores_other_entries (G : GoLib) (fsys : FS) (dir : string)
    (entries : list DirEntry) :
  ReadDir fsys dir = (entries, None) ->
  parseMigrations fsys dir
  = parseMigrations
      (mkFS (fun _ => (List.filter isMigrationFile entries, None)) (OpenRead fsys)) dir
  /\ (List.filter isMigrationFile entries = [] ->
      forall openRead,
        parseMigrations (mkFS (ReadDir fsys) openRead) dir = ([], Some ErrNoMigrations)).
Proof.
  intros HRead. split.
  - unfold parseMigrations. rewrite HRead. cbn [ReadDir].
    rewrite (parseEntries_filter fsys dir entries []).
    rewrite (parseEntries_filter (mkFS _ _) dir (List.filter isMigrationFile entries) []).
    assert (Hidem : List.filter isMigrationFile (List.filter isMigrationFile entries)
                    = List.filter isMigrationFile entries).
    { clear. induction entries as [|entry rest IH]; [reflexivity|].
      simpl. destruct (isMigrationFile entry) eqn:Hfile; [|exact IH].
      simpl. rewrite Hfile, IH. reflexivity. }
    rewrite Hidem.
    assert (Hsame : forall l acc,
               parseEntries fsys dir l acc
               = parseEntries (mkFS (fun _ => (List.filter isMigrationFile entries, None))
                                 (OpenRead fsys)) dir l acc).
    { clear. induction l as [|entry rest IH]; intros acc; [reflexivity|].
      simpl. destruct (DirEntry.IsDir entry); [apply IH|].
      destruct (FindStringSubmatch (DirEntry.Name entry)) as [[digits name]|]; [|apply IH].
      destruct (Atoi digits); [|apply IH].
      unfold parseMigrationFile. cbn [OpenRead].
      destruct (OpenRead fsys _); try reflexivity.
      destruct (splitUpDown content) as [[u d] [e|]]; [reflexivity|apply IH]. }
    rewrite Hsame. reflexivity.
  - intros Hnone openRead. unfold parseMigrations. cbn [ReadDir]. rewrite HRead.
    rewrite parseEntries_filter, Hnone. reflexivity.
Qed.

Lemma parseMigrations_ignores_other_entries_witness :
  @parseMigrations exampleLib hugePrefix "."
  = @parseMigrations exampleLib (mapFS [("001_initial.cypher", goodFile)]) ".".
Proof.
  destruct (parseMigrations_ignores_other_entries exampleLib hugePrefix "."
              [DirEntry.mk "001_initial.cypher" false;
               DirEntry.mk "99999999999999999999_big.cypher" false] eq_refl) as [Hsame _].
  refine (eq_trans Hsame _). vm_compute. reflexivity.
Defined.

(** X14. Why [parseMigrations] fails. It then returns no migration, and
    its error is the error of the directory listing under the words
    "failed to read migrations directory", the no-migrations error when no
    entry is a migration file, or, under the name of a migration file of
    the listing, the error of opening or reading that file, the
    token-too-long error of the scanner, or the missing-up-statement or
    missing-down-statement error. In each case [errors.Is] finds the
    cause. *)
Theorem parseMigrations_error_causes (G : GoLib) (fsys : FS) (dir : string)
    (ms : list Migration) (e : error) :
  parseMigrations fsys dir = (ms, Some e) ->
  ms = []
  /\ ((exists entries cause,
          ReadDir fsys dir = (entries, Some cause)
          /\ e = Errorf "failed to read migrations directory: " cause ""
          /\ errors_Is e cause = true)
      \/ (exists entries,
            ReadDir fsys dir = (entries, None)
            /\ List.filter isMigrationFile entries = [] /\ e = ErrNoMigrations)
      \/ (exists entries entry cause,
            ReadDir fsys dir = (entries, None)
            /\ In entry entries /\ isMigrationFile entry = true
            /\ e = parseError (DirEntry.Name entry) cause
            /\ fileError fsys (filepath_Join dir (DirEntry.Name entry)) cause
            /\ errors_Is e cause = true)).
Proof.
  unfold parseMigrations.
  destruct (ReadDir fsys dir) as [entries [rerr|]] eqn:HRead.
  - intros H. injection H as <- <-. split; [reflexivity|]. left.
    exists entries, rerr. repeat split. apply errors_Is_Errorf, errors_Is_refl.
  - destruct (parseEntries fsys dir entries []) as [parsed perr] eqn:Hentries.
    pose proof (parseEntries_outcome _ _ _ _ _ _ Hentries) as Hout.
    destruct perr as [pe|].
    + intros H. injection H as <- <-. split; [reflexivity|]. right. right.
      destruct Hout as (_ & entry & cause & Hin & Hfile & -> & Hcause).
      exists entries, entry, cause. repeat split; try assumption.
      unfold parseError. apply errors_Is_Errorf, errors_Is_refl.
    + destruct Hout as (new & Hnew & Hall). simpl in Hnew. subst new.
      destruct parsed as [|mg parsed]; [|discriminate].
      intros H. injection H as <- <-. split; [reflexivity|]. right. left.
      exists entries. repeat split.
      destruct (List.filter isMigrationFile entries); [reflexivity|inversion Hall].
Qed.

Lemma parseMigrations_error_causes_witness :
  exists cause,
    snd (@parseMigrations exampleLib missingUp ".")
    = Some (parseError "001_initial.cypher" cause)
    /\ fileError missingUp "001_initial.cypher" cause.
Proof.
  destruct (@parseMigrations exampleLib missingUp ".") as [ms err] eqn:Hparse.
  assert (Herr : err = Some (parseError "001_initial.cypher" ErrNoUpStatement))
    by (vm_compute in Hparse; injection Hparse as _ <-; reflexivity).
  subst err.
  destruct (parseMigrations_error_causes exampleLib missingUp "." ms _ Hparse)
    as (_ & [(entries & cause & HRead & _)
            |[(entries & _ & _ & He)
             |(entries & entry & cause & HRead & Hin & _ & He & Hcause & _)]]).
  - discriminate HRead.
  - discriminate He.
  - injection HRead as <-. destruct Hin as [<-|[]].
    exists cause. split; [exact (f_equal Some He)|exact Hcause].
Defined.

(** ** The default logger (logger.go) *)


Lemma formatPairs_prefix (msg : string) (args : list logArg) :
  formatPairs msg args = msg +:+ formatPairs "" args.
Proof.
  assert (H : forall n args, (length args <= n)%nat ->
                             forall msg, formatPairs msg args = msg +:+ formatPairs "" args).
  { clear. induction n as [|n IH]; intros args Hlen msg.
    - destruct args; [|simpl in Hlen; lia]. simpl. rewrite string_app_nil_r. reflexivity.
    - destruct args as [|key [|value rest]];
        try (simpl; rewrite string_app_nil_r; reflexivity).
      cbn [formatPairs].
      rewrite (IH rest ltac:(simpl in Hlen; lia) (msg +:+ _)).
      rewrite (IH rest ltac:(simpl in Hlen; lia) ("" +:+ _)).
      rewrite !string_app_assoc. reflexivity. }
  apply (H (length args)). lia.
Qed.

(** X15. The message of a log line. Without arguments it is the message
    itself; the arguments are taken two by two and each pair adds
    [ key=value]; a last argument without a value is dropped. The message
    always starts with the text given, and the arguments the engine logs
    for a migration give [ version=<version> name=<name>]. *)
Theorem formatMessage_pairs (msg : string) :
  formatMessage msg [] = msg
  /\ (forall key value rest,
        formatMessage msg (key :: value :: rest)
        = formatMessage (msg +:+ " " +:+ formatValue key +:+ "=" +:+ formatValue value) rest)
  /\ (forall (pairs : list (logArg * logArg)) (last : logArg),
        formatMessage msg (flat_map (fun pair => [fst pair; snd pair]) pairs ++ [last])
        = formatMessage msg (flat_map (fun pair => [fst pair; snd pair]) pairs))
  /\ (forall args, formatMessage msg args = msg +:+ formatMessage "" args)
  /\ (forall version name,
        formatMessage msg (migrationArgs version name)
        = msg +:+ " version=" +:+ itoa version +:+ " name=" +:+ name).
Proof.
  assert (Hpairs : forall m args, formatMessage m args = formatPairs m args).
  { intros m [|x args]; reflexivity. }
  split; [reflexivity|]. split; [|split; [|split]].
  - intros key value rest. rewrite !Hpairs. reflexivity.
  - intros pairs lastArg. rewrite !Hpairs. revert msg.
    induction pairs as [|[key value] pairs IH]; intros msg; [reflexivity|].
    cbn [flat_map fst snd app formatPairs]. apply IH.
  - intros args. rewrite !Hpairs. apply formatPairs_prefix.
  - intros version name. rewrite Hpairs. unfold migrationArgs. cbn [formatPairs formatValue].
    rewrite !string_app_assoc. reflexivity.
Qed.

(** ** The configuration of the command line (cmd/neo4go/config.go) *)

(** X16. The configuration read from the environment. [getConfigFromEnv]
    succeeds exactly when NEO4J_URI, NEO4J_USERNAME and NEO4J_PASSWORD are
    set to non-empty values; the configuration it then returns passes
    [validateConfig], takes these three values as they are, names the
    database [neo4j] and the directory [./migrations] unless
    NEO4J_DATABASE and NEO4J_MIGRATIONS_DIR say otherwise, and has no
    embedded file system. When it fails it returns the zero configuration
    and an error that is not the invalid-configuration error of the
    package. *)
Theorem getConfigFromEnv_valid (getenv : string -> string) :
  match getConfigFromEnv getenv with
  | (cfg, None) =>
      getenv "NEO4J_URI" <> "" /\ getenv "NEO4J_USERNAME" <> ""
      /\ getenv "NEO4J_PASSWORD" <> ""
      /\ validateConfig cfg = None
      /\ URI cfg = getenv "NEO4J_URI" /\ Username cfg = getenv "NEO4J_USERNAME"
      /\ Password cfg = getenv "NEO4J_PASSWORD"
      /\ Database cfg
         = (if String.eqb (getenv "NEO4J_DATABASE") "" then "neo4j"
            else getenv "NEO4J_DATABASE")
      /\ MigrationsDir cfg
         = (if String.eqb (getenv "NEO4J_MIGRATIONS_DIR") "" then "./migrations"
            else getenv "NEO4J_MIGRATIONS_DIR")
      /\ Database cfg <> "" /\ MigrationsDir cfg <> "" /\ MigrationsFS cfg = None
  | (cfg, Some e) =>
      cfg = zeroConfig
      /\ (getenv "NEO4J_URI" = "" \/ getenv "NEO4J_USERNAME" = ""
          \/ getenv "NEO4J_PASSWORD" = "")
      /\ errors_Is e ErrInvalidConfig = false
      /\ validateConfig cfg <> None
  end.
Proof.
  unfold getConfigFromEnv.
  destruct (String.eqb_spec (getenv "NEO4J_URI") "") as [Huri|Huri].
  { repeat split; [left; exact Huri|discriminate]. }
  destruct (String.eqb_spec (getenv "NEO4J_USERNAME") "") as [Huser|Huser].
  { repeat split; [right; left; exact Huser|discriminate]. }
  destruct (String.eqb_spec (getenv "NEO4J_PASSWORD") "") as [Hpass|Hpass].
  { repeat split; [right; right; exact Hpass|discriminate]. }
  split; [exact Huri|]. split; [exact Huser|]. split; [exact Hpass|].
  split.
  { unfold validateConfig. cbn [URI Username Password MigrationsDir MigrationsFS].
    rewrite (eqb_empty_false _ Huri), (eqb_empty_false _ Huser), (eqb_empty_false _ Hpass).
    destruct (String.eqb_spec (getenv "NEO4J_MIGRATIONS_DIR") "") as [_|Hdir];
      [reflexivity|].
    rewrite (eqb_empty_false _ Hdir). reflexivity. }
  cbn [URI Username Password Database MigrationsDir MigrationsFS].
  repeat split.
  - destruct (String.eqb_spec (getenv "NEO4J_DATABASE") "") as [_|Hdb];
      [discriminate|exact Hdb].
  - destruct (String.eqb_spec (getenv "NEO4J_MIGRATIONS_DIR") "") as [_|Hdir];
      [discriminate|exact Hdir].
Qed.

(** ** The construction of a migrator (migrate.go) *)

(** X17. [New] connects before it reads any migration. With a valid
    configuration: when the driver cannot be created, or when the
    connectivity check fails, [New] returns no migrator and the
    database-connection error carrying the driver's message, and no
    migration is read; the driver is closed exactly when the connectivity
    check failed. When the connection stands, the result is that of
    [NewWithDriver] on that driver, and a failure to read the migrations
    leaves the driver open. A migrator is returned exactly when no error
    is. *)
Theorem New_connects_before_parsing {G : GoLib} {St DB : Type} (neo4j : Neo4j St DB)
    (cfg : Config) (result : option (migrator St DB)) (err : option error)
    (io : list ioEvent) :
  validateConfig cfg = None ->
  New neo4j cfg = (result, err, io) ->
  match NewDriverWithContext neo4j (URI cfg) (Username cfg) (Password cfg) with
  | (_, Some cause) =>
      result = None /\ io = [DriverCreated (URI cfg)]
      /\ err = Some (Errorf "" ErrDatabaseConnection (": " +:+ Error cause))
  | (drv, None) =>
      match VerifyConnectivity neo4j drv with
      | Some cause =>
          result = None
          /\ io = [DriverCreated (URI cfg); ConnectivityVerified; DriverClosed]
          /\ err = Some (Errorf "" ErrDatabaseConnection (": " +:+ Error cause))
      | None =>
          io = [DriverCreated (URI cfg); ConnectivityVerified; MigrationsParsed "."]
          /\ NewWithDriver neo4j drv cfg = (result, err, [MigrationsParsed "."])
      end
  end
  /\ (result = None <-> err <> None)
  /\ (In DriverClosed io -> exists e, err = Some e /\ errors_Is e ErrDatabaseConnection = true)
  /\ (forall mg, result = Some mg -> In (MigrationsParsed ".") io /\ ~ In DriverClosed io).
Proof.
  intros Hvalid Hrun. unfold New in Hrun. rewrite Hvalid in Hrun.
  destruct (NewDriverWithContext neo4j (URI cfg) (Username cfg) (Password cfg))
    as [drv [cause|]].
  { injection Hrun as <- <- <-. split; [repeat split|]. split; [split; [discriminate|reflexivity]|].
    split; [intros [H|[]]; discriminate H|discriminate]. }
  destruct (VerifyConnectivity neo4j drv) as [cause|].
  { injection Hrun as <- <- <-. split; [repeat split|]. split; [split; [discriminate|reflexivity]|].
    split; [|discriminate]. intros _. eexists. split; [reflexivity|].
    apply errors_Is_Errorf, errors_Is_refl. }
  unfold NewWithDriver, newMigrator in *. rewrite Hvalid in *.
  destruct (parseMigrations _ ".") as [parsed [perr|]];
    injection Hrun as <- <- <-.
  - split; [repeat split|]. split; [split; [discriminate|reflexivity]|].
    split; [|discriminate]. intros [H|[H|[H|[]]]]; discriminate H.
  - split; [repeat split|]. split; [split; [discriminate|intros H; contradiction]|].
    split; [intros [H|[H|[H|[]]]]; discriminate H|].
    intros mg _. split; [right; right; left; reflexivity|].
    intros [H|[H|[H|[]]]]; discriminate H.
Qed.

Lemma New_connects_before_parsing_witness :
  @New exampleLib _ _ unreachable bothSources
  = (None, Some (Errorf "" ErrDatabaseConnection ": connection refused"),
     [DriverCreated "bolt://localhost:7687"; ConnectivityVerified; DriverClosed]).
Proof.
  destruct (@New exampleLib _ _ unreachable bothSources) as [[result err] io] eqn:Hrun.
  destruct (@New_connects_before_parsing exampleLib _ _ unreachable bothSources result err io
              eq_refl Hrun) as ((-> & -> & ->) & _).
  reflexivity.
Defined.

(** X18. What [NewWithDriver] builds. With a valid configuration it reads
    the migrations at ["."] of the embedded file system when one is given,
    of the directory otherwise; the error of the parser comes back as it
    is; on success the migrator holds the driver given, the migrations in
    ascending order of version, at least one, and the database name of the
    configuration, [neo4j] when that is empty, under which its storage is
    built too. *)
Theorem NewWithDriver_builds {G : GoLib} {St DB : Type} (neo4j : Neo4j St DB)
    (drv : option (Driver DB)) (cfg : Config) :
  GoLibContract G ->
  validateConfig cfg = None ->
  let filesystem := match MigrationsFS cfg with
                    | Some fsys => fsys
                    | None => os_DirFS neo4j (MigrationsDir cfg)
                    end in
  let databaseName := if String.eqb (Database cfg) "" then "neo4j" else Database cfg in
  databaseName <> ""
  /\ match parseMigrations filesystem "." with
     | (_, Some e) => NewWithDriver neo4j drv cfg = (None, Some e, [MigrationsParsed "."])
     | (ms, None) =>
         NewWithDriver neo4j drv cfg
         = (Some (mkMigrator drv (newNeo4jStorage neo4j drv databaseName) ms databaseName),
            None, [MigrationsParsed "."])
         /\ Sorted ascending ms /\ ms <> []
     end.
Proof.
  intros Hlib Hvalid filesystem databaseName. split.
  { unfold databaseName. destruct (String.eqb_spec (Database cfg) "") as [_|Hdb];
      [discriminate|exact Hdb]. }
  unfold NewWithDriver, newMigrator. rewrite Hvalid. fold filesystem. fold databaseName.
  destruct (parseMigrations filesystem ".") as [ms [e|]] eqn:Hparse; [reflexivity|].
  split; [reflexivity|].
  destruct (parseMigrations_sorted _ _ _ Hparse) as (Hsorted & Hne & _).
  split; assumption.
Qed.

Lemma NewWithDriver_builds_witness :
  exists ms,
    @NewWithDriver exampleLib _ _ (reachable (mapFS [])) None bothSources
    = (Some (mkMigrator None mockStorage_Storage ms "neo4j"), None, [MigrationsParsed "."])
    /\ map Migration.Version ms = [1].
Proof.
  destruct (@NewWithDriver_builds exampleLib _ _ (reachable (mapFS [])) None bothSources
              exampleLib_contract eq_refl) as [_ Hbuilt].
  destruct (@parseMigrations exampleLib
              match MigrationsFS bothSources with
              | Some fsys => fsys
              | None => os_DirFS (reachable (mapFS [])) (MigrationsDir bothSources)
              end ".") as [ms perr] eqn:Hparse.
  pose proof Hparse as Hval. vm_compute in Hval. injection Hval as <- <-.
  destruct Hbuilt as (Hrun & _). eexists. split; [exact Hrun|reflexivity].
Defined.

(** ** The [create] command (cmd/neo4go) *)


Lemma digitsValue_string_of_uint (d : Decimal.uint) (acc : Z) :
  digitsValue acc (NilEmpty.string_of_uint d) = uintValue acc d.
Proof. revert acc. induction d; intros acc; simpl; try reflexivity; apply IHd. Qed.

Lemma allDigits_string_of_uint (d : Decimal.uint) :
  allDigits (NilEmpty.string_of_uint d) = true.
Proof. induction d; simpl; try reflexivity; exact IHd. Qed.

Lemma of_uint_acc_value (d : Decimal.uint) (acc : positive) :
  Z.pos (Pos.of_uint_acc d acc) = uintValue (Z.pos acc) d.
Proof.
  revert acc. induction d; intros acc; simpl; try reflexivity;
    rewrite IHd; f_equal; lia.
Qed.

Lemma of_uint_value (d : Decimal.uint) : Z.of_N (Pos.of_uint d) = uintValue 0 d.
Proof.
  induction d; simpl; try reflexivity; try exact IHd;
    rewrite of_uint_acc_value; reflexivity.
Qed.

(** [Atoi] reads back what [itoa] writes. *)
Lemma itoa_digits (version : Z) :
  0 <= version ->
  itoa version <> "" /\ allDigits (itoa version) = true
  /\ digitsValue 0 (itoa version) = version.
Proof.
  intros Hversion. unfold itoa. destruct version as [|p|p]; [repeat split; discriminate| |lia].
  cbn [Z.to_int NilZero.string_of_int].
  pose proof (DecimalPos.Unsigned.of_to p) as Hp.
  destruct (Pos.to_uint p) eqn:Hd; [discriminate Hp| | | | | | | | | |];
    (split; [discriminate|split; [apply (allDigits_string_of_uint (_ u))|]]);
    cbn [NilZero.string_of_uint]; rewrite digitsValue_string_of_uint, <- of_uint_value, Hp;
    reflexivity.
Qed.

Lemma newFileName_parses {G : GoLib} (version : Z) (name : string) :
  0 <= version <= maxInt ->
  (name <> "" -> hasLineFeed name = false ->
   FindStringSubmatch (newFileName version name) = Some (itoa version, name)
   /\ Atoi (itoa version) = Some version
   /\ isMigrationFile (DirEntry.mk (newFileName version name) false) = true)
  /\ FindStringSubmatch (newFileName version "") = None
  /\ isMigrationFile (DirEntry.mk (newFileName version "") false) = false.
Proof.
  intros [Hlo Hhi]. destruct (itoa_digits version Hlo) as (Hne & Hall & Hvalue).
  assert (Hatoi : Atoi (itoa version) = Some version).
  { unfold Atoi. rewrite Hvalue.
    destruct (Z.leb_spec version maxInt) as [_|Hgt]; [reflexivity|lia]. }
  assert (Hnone : FindStringSubmatch (newFileName version "") = None).
  { destruct (FindStringSubmatch (newFileName version "")) as [[digits rest]|] eqn:Hfind;
      [|reflexivity].
    exfalso. apply FindStringSubmatch_sound in Hfind as (Hname & _ & Hdigits & Hrest & _).
    unfold newFileName in Hname.
    assert (Hspan : spanDigits (itoa version +:+ "_" +:+ "" +:+ ".cypher")
                    = (itoa version, "_" +:+ "" +:+ ".cypher"))
      by (apply spanDigits_app; [exact Hall|reflexivity]).
    rewrite Hname in Hspan.
    rewrite (spanDigits_app digits ("_" +:+ rest +:+ ".cypher") Hdigits eq_refl) in Hspan.
    injection Hspan as _ Hspan. apply (f_equal String.length) in Hspan.
    simpl in Hspan. rewrite string_length_app in Hspan.
    destruct rest; [contradiction|simpl in Hspan; lia]. }
  split; [|split; [exact Hnone|]].
  - intros Hname Hlf.
    assert (Hfind : FindStringSubmatch (newFileName version name) = Some (itoa version, name)).
    { apply FindStringSubmatch_spec_complete; repeat split; assumption. }
    split; [exact Hfind|]. split; [exact Hatoi|].
    unfold isMigrationFile. cbn [DirEntry.IsDir DirEntry.Name]. rewrite Hfind, Hatoi.
    reflexivity.
  - unfold isMigrationFile. cbn [DirEntry.IsDir DirEntry.Name]. rewrite Hnone. reflexivity.
Qed.

(** X19. A file made by [create] is a migration file. When the command
    returns no error it has created the directory named by
    NEO4J_MIGRATIONS_DIR ([./migrations] when that is not set), written
    one file in it, named after the clock and the argument, with the
    template as its content, and printed its path. For a clock that is a
    non-negative [int] and an argument that is not empty and holds no line
    feed, the parser takes the new file for a migration file and reads it
    without error: its version is the time stamp, its name the argument,
    its two scripts the comment lines of the template. With an empty
    argument the new file does not match the pattern, and the parser never
    reads it. *)
Theorem created_file_is_a_migration {G : GoLib} {Disk : Type} (os : OS Disk) (name : string)
    (disk disk' : Disk) (out : list string) :
  0 <= time_Now_Unix os <= maxInt ->
  createCmd os name disk = (None, out, disk') ->
  let dir := if String.eqb (os_Getenv os "NEO4J_MIGRATIONS_DIR") "" then "./migrations"
             else os_Getenv os "NEO4J_MIGRATIONS_DIR" in
  let fileName := newFileName (time_Now_Unix os) name in
  (exists disk1,
      os_MkdirAll os dir disk = (None, disk1)
      /\ os_WriteFile os (filepath_Join dir fileName) migrationTemplate disk1 = (None, disk'))
  /\ out = ["Created migration: " +:+ filepath_Join dir fileName]
  /\ (name <> "" -> hasLineFeed name = false ->
      isMigrationFile (DirEntry.mk fileName false) = true
      /\ FindStringSubmatch fileName = Some (itoa (time_Now_Unix os), name)
      /\ Atoi (itoa (time_Now_Unix os)) = Some (time_Now_Unix os)
      /\ forall fsys path,
           OpenRead fsys path = FileBytes migrationTemplate ->
           parseMigrationFile fsys path (time_Now_Unix os) name
           = (Migration.mk (time_Now_Unix os) name "-- Add your up migration statements here"
                "-- Add your down migration statements here"
                (calculateChecksum migrationTemplate), None))
  /\ (name = "" -> isMigrationFile (DirEntry.mk fileName false) = false).
Proof.
  intros Hclock Hrun dir fileName. unfold createCmd in Hrun. fold dir in Hrun.
  destruct (os_MkdirAll os dir disk) as [[cause|] disk1] eqn:Hmk; [discriminate|].
  fold fileName in Hrun.
  destruct (os_WriteFile os (filepath_Join dir fileName) migrationTemplate disk1)
    as [[cause|] disk2] eqn:Hwrite; [discriminate|].
  injection Hrun as <- <-.
  split; [exists disk1; split; [reflexivity|exact Hwrite]|]. split; [reflexivity|].
  destruct (newFileName_parses (time_Now_Unix os) name Hclock) as (Hnamed & _ & _).
  split.
  - intros Hname Hlf. destruct (Hnamed Hname Hlf) as (Hfind & Hatoi & Hfile).
    split; [exact Hfile|]. split; [exact Hfind|]. split; [exact Hatoi|].
    intros fsys path Hopen. unfold parseMigrationFile. rewrite Hopen. reflexivity.
  - intros ->. apply (newFileName_parses (time_Now_Unix os) "" Hclock).
Qed.

Lemma created_file_is_a_migration_witness :
  isMigrationFile (DirEntry.mk (newFileName 1700000000 "add_users") false) = true
  /\ isMigrationFile (DirEntry.mk (newFileName 1700000000 "") false) = false.
Proof.
  split.
  - refine (proj1 (proj1 (proj2 (proj2
             (@created_file_is_a_migration exampleLib (list (string * string)) recordingOS
                "add_users" [] _ _ ltac:(unfold maxInt; simpl; lia) eq_refl))) _ eq_refl)).
    discriminate.
  - exact (proj2 (proj2 (proj2
             (@created_file_is_a_migration exampleLib (list (string * string)) recordingOS
                "" [] _ _ ltac:(unfold maxInt; simpl; lia) eq_refl))) eq_refl).
Defined.

(** ** The commands (cmd/neo4go) *)

Lemma closes_app (ev1 ev2 : list event) : closes (ev1 ++ ev2) = (closes ev1 + closes ev2)%nat.
Proof. unfold closes. rewrite List.filter_app, length_app. reflexivity. Qed.

Section Closing.
Context {St DB : Type} (m : migrator St DB).

Lemma neverCloses_ret {A : Type} (a : A) : neverCloses (@ret St DB A a).
Proof. intros w. reflexivity. Qed.

Lemma neverCloses_bind {A B : Type} (c : M St DB A) (k : A -> M St DB B) :
  neverCloses c -> (forall a, neverCloses (k a)) -> neverCloses (bind c k).
Proof.
  intros Hc Hk w. unfold bind. specialize (Hc w).
  destruct (c w) as [[a w1] ev1]. specialize (Hk a w1).
  destruct (k a w1) as [[b w2] ev2]. simpl in *. rewrite closes_app, Hc, Hk. reflexivity.
Qed.

Lemma neverCloses_logger (lvl : level) (msg : string) (args : list logArg) :
  neverCloses (@logger St DB lvl msg args).
Proof. intros w. reflexivity. Qed.

Lemma neverCloses_emit (e : event) : isClose e = false -> neverCloses (@emit St DB e).
Proof. intros He w. unfold closes. simpl. rewrite He. reflexivity. Qed.

Lemma neverCloses_Init : neverCloses (storage_Init m).
Proof. intros w. unfold storage_Init. destruct (Init _ _). reflexivity. Qed.

Lemma neverCloses_GetAppliedMigrations : neverCloses (storage_GetAppliedMigrations m).
Proof.
  intros w. unfold storage_GetAppliedMigrations.
  destruct (GetAppliedMigrations _ _) as [[records err] s]. reflexivity.
Qed.

Lemma neverCloses_GetCurrentVersion : neverCloses (storage_GetCurrentVersion m).
Proof.
  intros w. unfold storage_GetCurrentVersion.
  destruct (GetCurrentVersion _ _) as [[version err] s]. reflexivity.
Qed.

Lemma neverCloses_RecordMigration (mg : Migration) :
  neverCloses (storage_RecordMigration m mg).
Proof. intros w. unfold storage_RecordMigration. destruct (RecordMigration _ _ _). reflexivity. Qed.

Lemma neverCloses_RemoveMigration (version : Z) :
  neverCloses (storage_RemoveMigration m version).
Proof. intros w. unfold storage_RemoveMigration. destruct (RemoveMigration _ _ _). reflexivity. Qed.

Lemma neverCloses_tx_Run (d : Driver DB) (statement : string) :
  neverCloses (tx_Run m d statement).
Proof. intros w. unfold tx_Run. destruct (Run _ _ _ _). reflexivity. Qed.

Lemma neverCloses_ExecuteWrite (work : M St DB (option error)) :
  neverCloses work -> neverCloses (ExecuteWrite work).
Proof.
  intros Hwork w. unfold ExecuteWrite. specialize (Hwork w).
  destruct (work w) as [[[err|] w'] ev]; exact Hwork.
Qed.

(** The steps of a proof that a computation never calls [Close]. *)
Ltac quiet :=
  repeat first
    [ apply neverCloses_ret
    | apply neverCloses_logger
    | apply neverCloses_Init
    | apply neverCloses_GetAppliedMigrations
    | apply neverCloses_GetCurrentVersion
    | apply neverCloses_RecordMigration
    | apply neverCloses_RemoveMigration
    | apply neverCloses_tx_Run
    | apply neverCloses_emit; reflexivity
    | assumption
    | match goal with
      | H : forall x, neverCloses _ |- _ => apply H
      end
    | apply neverCloses_bind; [|intros ?]
    | match goal with
      | |- neverCloses (match ?x with _ => _ end) => destruct x
      end ].

Lemma neverCloses_runStatements (d : Driver DB) (statements : list string) :
  neverCloses (runStatements m d statements).
Proof.
  induction statements as [|stmt rest IH]; cbn [runStatements]; quiet.
Qed.

Lemma neverCloses_executeMigration (sql : string) : neverCloses (executeMigration m sql).
Proof.
  unfold executeMigration. quiet.
  apply neverCloses_ExecuteWrite, neverCloses_runStatements.
Qed.

Lemma neverCloses_applyMigration (mg : Migration) : neverCloses (applyMigration m mg).
Proof.
  unfold applyMigration. pose proof (neverCloses_executeMigration (Migration.UpSQL mg)).
  quiet.
Qed.

Lemma neverCloses_rollbackMigration (mg : Migration) : neverCloses (rollbackMigration m mg).
Proof.
  unfold rollbackMigration. pose proof (neverCloses_executeMigration (Migration.DownSQL mg)).
  quiet.
Qed.

Lemma neverCloses_Up : neverCloses (Up m).
Proof.
  assert (Hloop : forall versions ms, neverCloses (Up_loop m versions ms)).
  { intros versions ms. induction ms as [|mg rest IH]; cbn [Up_loop].
    - quiet.
    - pose proof (neverCloses_applyMigration mg). unfold skipMigration. quiet. }
  unfold Up. quiet. apply Hloop.
Qed.

Lemma neverCloses_UpTo (targetVersion : Z) : neverCloses (UpTo m targetVersion).
Proof.
  assert (Hloop : forall versions ms, neverCloses (UpTo_loop m targetVersion versions ms)).
  { intros versions ms. induction ms as [|mg rest IH]; cbn [UpTo_loop].
    - quiet.
    - pose proof (neverCloses_applyMigration mg). unfold skipMigration. quiet. }
  unfold UpTo. quiet. apply Hloop.
Qed.

Lemma neverCloses_Down : neverCloses (Down m).
Proof.
  pose proof neverCloses_rollbackMigration. unfold Down. quiet.
Qed.

Lemma neverCloses_DownTo (targetVersion : Z) : neverCloses (DownTo m targetVersion).
Proof.
  assert (Hloop : forall records, neverCloses (DownTo_loop m targetVersion records)).
  { intros records. induction records as [|record rest IH]; cbn [DownTo_loop].
    - quiet.
    - pose proof neverCloses_rollbackMigration. quiet. }
  unfold DownTo. quiet.
Qed.

Lemma neverCloses_Version : neverCloses (Version m).
Proof. unfold Version. quiet. Qed.

(** The first call of an operation is [Init]. *)
Lemma bind_Init_starts {A : Type} (k : option error -> M St DB A) (w : world St DB) :
  exists ev, snd (bind (storage_Init m) k w) = StorageInit :: ev.
Proof.
  unfold bind, storage_Init. destruct (Init (storage m) (store w)) as [err s1].
  destruct (k err (World s1 (db w))) as [[b w2] ev2]. exists ev2. reflexivity.
Qed.

Lemma Up_starts (w : world St DB) : exists ev, snd (Up m w) = StorageInit :: ev.
Proof. apply bind_Init_starts. Qed.

Lemma UpTo_starts (targetVersion : Z) (w : world St DB) :
  exists ev, snd (UpTo m targetVersion w) = StorageInit :: ev.
Proof. apply bind_Init_starts. Qed.

Lemma Down_starts (w : world St DB) : exists ev, snd (Down m w) = StorageInit :: ev.
Proof. apply bind_Init_starts. Qed.

Lemma DownTo_starts (targetVersion : Z) (w : world St DB) :
  exists ev, snd (DownTo m targetVersion w) = StorageInit :: ev.
Proof. apply bind_Init_starts. Qed.

Lemma Version_starts (w : world St DB) : exists ev, snd (Version m w) = StorageInit :: ev.
Proof. apply bind_Init_starts. Qed.

(** What follows an operation that starts with [Init] and never calls
    [Close], when it does not call [Close] either. *)
Lemma bind_Init_first {A B : Type} (c : M St DB A) (f : A -> M St DB B) (w : world St DB) :
  (forall w1, exists ev, snd (c w1) = StorageInit :: ev) ->
  neverCloses c -> (forall a, neverCloses (f a)) ->
  exists ev, snd (bind c f w) = StorageInit :: ev /\ closes ev = 0%nat.
Proof.
  intros Hstart Hc Hf. unfold bind. specialize (Hstart w). specialize (Hc w).
  destruct (c w) as [[a w1] ev1]. destruct Hstart as [ev Hev]. simpl in Hev, Hc. subst ev1.
  specialize (Hf a w1). destruct (f a w1) as [[b w2] ev2]. simpl in Hf.
  exists (ev ++ ev2). split; [reflexivity|].
  change (closes (StorageInit :: ev)) with (closes ev) in Hc.
  rewrite closes_app, Hc, Hf. reflexivity.
Qed.
End Closing.

Section Frame.
Context {G : GoLib} {St DB : Type} (neo4j : Neo4j St DB) (getenv : string -> string).

(** [New] returns a migrator whenever it returns no error. *)
Lemma New_never_nil (cfg : Config) (io : list ioEvent) :
  New neo4j cfg <> (None, None, io).
Proof.
  unfold New. destruct (validateConfig cfg) as [e|] eqn:Hvalid; [discriminate|].
  destruct (NewDriverWithContext neo4j _ _ _) as [drv [e|]]; [discriminate|].
  destruct (VerifyConnectivity neo4j drv) as [e|]; [discriminate|].
  unfold NewWithDriver. rewrite Hvalid. unfold newMigrator.
  destruct (parseMigrations _ _) as [parsed [e|]]; discriminate.
Qed.

Lemma getConfigFromEnv_error (cfg : Config) (e : error) :
  getConfigFromEnv getenv = (cfg, Some e) -> e <> nilMigrator.
Proof.
  unfold getConfigFromEnv.
  destruct (String.eqb (getenv "NEO4J_URI") ""); [intros H; injection H as _ <-; discriminate|].
  destruct (String.eqb (getenv "NEO4J_USERNAME") "");
    [intros H; injection H as _ <-; discriminate|].
  destruct (String.eqb (getenv "NEO4J_PASSWORD") "");
    [intros H; injection H as _ <-; discriminate|].
  discriminate.
Qed.

(** The frame of the commands, for a rest of the command that starts with
    [Init], never calls [Close] and prints one line or returns an error. *)
Lemma withMigrator_outcome (w : world St DB)
    (run : migrator St DB -> M St DB (option error * list string)) :
  (forall migrator w1,
      exists ev, snd (run migrator w1) = StorageInit :: ev /\ closes ev = 0%nat) ->
  (forall migrator w1,
      match fst (fst (fst (run migrator w1))) with
      | None => exists line, snd (fst (fst (run migrator w1))) = [line]
      | Some e => snd (fst (fst (run migrator w1))) = [] /\ e <> nilMigrator
      end) ->
  let o := withMigrator neo4j getenv w run in
  match cmdErr o with
  | None => exists line, printed o = [line]
  | Some e => printed o = [] /\ e <> nilMigrator
  end
  /\ ((cmdErr o <> None /\ cmdTrace o = [] /\ cmdWorld o = w)
      \/ (exists cfg migrator ev,
            getConfigFromEnv getenv = (cfg, None)
            /\ New neo4j cfg = (Some migrator, None, cmdIO o)
            /\ cmdTrace o = StorageInit :: ev ++ [StorageClose]
            /\ closes ev = 0%nat))
  /\ (snd (getConfigFromEnv getenv) <> None -> cmdIO o = [] /\ cmdTrace o = []).
Proof.
  intros Hrun Hprint. unfold withMigrator.
  destruct (getConfigFromEnv getenv) as [cfg [e|]] eqn:Henv.
  { cbn. split; [split; [reflexivity|apply (getConfigFromEnv_error cfg e Henv)]|].
    split; [left; repeat split; discriminate|]. intros _. split; reflexivity. }
  destruct (New neo4j cfg) as [[[migrator|] [e|]] io] eqn:HNew.
  - cbn. split; [split; [reflexivity|discriminate]|].
    split; [left; repeat split; discriminate|]. intros H. contradiction.
  - specialize (Hrun migrator w). specialize (Hprint migrator w).
    destruct (run migrator w) as [[[err out] w1] ev1].
    unfold Close_migrator, storage_Close.
    destruct (Close (storage migrator) (store w1)) as [cerr s2].
    cbn in *. split; [exact Hprint|]. split; [|intros H; contradiction].
    right. destruct Hrun as (ev & -> & Hev). exists cfg, migrator, ev.
    repeat split; assumption.
  - cbn. split; [split; [reflexivity|discriminate]|].
    split; [left; repeat split; discriminate|]. intros H. contradiction.
  - exfalso. apply (New_never_nil cfg io HNew).
Qed.
End Frame.

